(** * Baseload renewables: dispatch simulation and farthest-point site selection

    A shallow embedding of [baseload/simulation.py],
    [baseload/site_selection.py] and the profile builder of
    [baseload/solar_data.py].

    Conventions of the embedding.
    - A Python [float] is a real number ([R]); infinities and NaN are not
      represented.  Comparisons are the decidable comparisons of [R],
      [max]/[min] of two floats are [Rmax]/[Rmin].
    - In the dispatch simulation the arithmetic is that of [R].  In the
      distance computation of the site selection, where a rounding error
      decides whether [math.sqrt] raises and which of two candidates is
      farther, every float operation goes through a [FloatLib]: the code is
      modelled for every rounding, the exact one included.
    - A Python exception is a value [Raise e] of the [result] type; the
      sequencing of statements is the bind of that error monad.
    - [x / y] raises [ZeroDivisionError] when [y] is zero ([py_div]).
    - [x ** 0.5] is a complex number for negative [x]; such a value is kept as
      [PyComplex] and raises [TypeError] as soon as it is compared.
    - The CSV writer is the list of rows written so far; the formatting of the
      cells ([f"{x:.6f}"]) is not represented: a row holds the numbers. *)

From Stdlib Require Import Reals Lra Lia ZArith List String Ascii.
From Stdlib Require Import DecimalString DecimalNat Permutation Sorted.
Import ListNotations.

Open Scope R_scope.

(** ** Python exceptions as an error monad *)

Inductive exn : Type :=
| ZeroDivisionError
| TypeError
| ValueError
| IndexError
| OverflowError
| OutOfFuel.

Inductive result (A : Type) : Type :=
| Ok (a : A)
| Raise (e : exn).

Arguments Ok {A} a.
Arguments Raise {A} e.

Definition bind {A B : Type} (c : result A) (k : A -> result B) : result B :=
  match c with
  | Ok a => k a
  | Raise e => Raise e
  end.

Notation "x <- c ;; k" := (bind c (fun x => k))
  (at level 61, c at next level, right associativity).

(** ** Python arithmetic *)

(** [x / y] on floats. *)
Definition py_div (x y : R) : result R :=
  if Req_dec_T y 0 then Raise ZeroDivisionError else Ok (x / y).

(** The value of [x ** 0.5]: a float for [0 <= x], a complex number below. *)
Inductive pynum : Type :=
| PyFloat (x : R)
| PyComplex.

Definition pow_half (x : R) : pynum :=
  if Rle_dec 0 x then PyFloat (sqrt x) else PyComplex.

(** A number used where an ordering comparison needs a float. *)
Definition as_float (v : pynum) : result R :=
  match v with
  | PyFloat x => Ok x
  | PyComplex => Raise TypeError
  end.

(** [min] over a generator of floats: [ValueError] when it is empty, the
    first smallest element otherwise. *)
Fixpoint py_min_from (m : R) (l : list R) : R :=
  match l with
  | [] => m
  | x :: l' => py_min_from (if Rlt_dec x m then x else m) l'
  end.

Definition py_min (l : list R) : result R :=
  match l with
  | [] => Raise ValueError
  | x :: l' => Ok (py_min_from x l')
  end.

(** [zip] of two lists stops at the end of the shorter one. *)
Fixpoint zip {A B : Type} (l1 : list A) (l2 : list B) : list (A * B) :=
  match l1, l2 with
  | a :: l1', b :: l2' => (a, b) :: zip l1' l2'
  | _, _ => []
  end.

(** ** site_selection.py: the data *)

Record Site : Type := mkSite {
  name : string;
  latitude : R;
  longitude : R
}.

(** ** solar_data.py: the data *)

(** A [datetime] is the index of its hour. *)
Definition datetime : Type := Z.

Record SolarProfile : Type := mkSolarProfile {
  profile_latitude : R;
  profile_longitude : R;
  year : Z;
  datetimes : list datetime;
  pv_kwh_per_kw : list R
}.

(** ** simulation.py *)

(** One row handed to [hourly_writer.writerow]. *)
Record HourlyRow : Type := mkHourlyRow {
  row_datetime : datetime;
  row_site : string;
  row_latitude : R;
  row_longitude : R;
  row_pv_gw : R;
  row_battery_gwh : R;
  solar_generation_mwh : R;
  load_mwh : R;
  battery_state_of_charge_mwh : R;
  battery_charge_mwh : R;
  battery_discharge_mwh : R;
  unmet_load_mwh : R;
  overproduction_mwh : R
}.

(** The dictionary returned by [_simulate_single_configuration]. *)
Record Summary : Type := mkSummary {
  summary_site : string;
  summary_latitude : R;
  summary_longitude : R;
  summary_pv_gw : R;
  summary_battery_gwh : R;
  annual_load_mwh : R;
  energy_served_mwh : R;
  summary_unmet_load_mwh : R;
  summary_overproduction_mwh : R;
  capacity_factor : R
}.

(** The local variables of one iteration of the hourly loop, as they stand
    when the row is written; [soc] is the state of charge after the hour. *)
Record Hour : Type := mkHour {
  solar_mwh : R;
  surplus : R;
  deficit : R;
  charge_added : R;
  discharge_to_load : R;
  unmet : R;
  overproduction : R;
  served : R;
  soc : R
}.

(** The body of the loop, lines 49 to 68: from the state of charge before the
    hour and the hour's [pv_value] to the locals after it. *)
Definition hour_body (baseload_mwh pv_multiplier capacity_mwh : R)
    (charge_eff discharge_eff : pynum) (soc0 pv_value : R) : result Hour :=
  let solar_mwh := pv_value * pv_multiplier / 1000 in
  let surplus := Rmax 0 (solar_mwh - baseload_mwh) in
  let deficit := Rmax 0 (baseload_mwh - solar_mwh) in
  if Rlt_dec 0 surplus then
    e <- as_float charge_eff ;;
    let potential_charge := surplus * e in
    let charge_added := Rmin (capacity_mwh - soc0) potential_charge in
    energy_used_for_charge <-
      (if Rlt_dec 0 e then py_div charge_added e else Ok 0) ;;
    let overproduction := Rmax 0 (surplus - energy_used_for_charge) in
    let soc := soc0 + charge_added in
    let unmet := 0 in
    Ok (mkHour solar_mwh surplus deficit charge_added 0 unmet overproduction
          (baseload_mwh - unmet) soc)
  else if Rlt_dec 0 deficit then
    e <- as_float discharge_eff ;;
    reach <- (if Rlt_dec 0 e then py_div deficit e else Ok 0) ;;
    let possible_discharge := Rmin soc0 reach in
    let soc := soc0 - possible_discharge in
    let discharge_to_load := possible_discharge * e in
    let unmet := Rmax 0 (deficit - discharge_to_load) in
    Ok (mkHour solar_mwh surplus deficit 0 discharge_to_load unmet 0
          (baseload_mwh - unmet) soc)
  else
    Ok (mkHour solar_mwh surplus deficit 0 0 0 0 (baseload_mwh - 0) soc0).

(** The value of the guarded quotient [x / e if e > 0 else 0.0] of lines 60
    and 64, used to state what the loop body computes. *)
Definition guarded_div (x e : R) : R := if Rlt_dec 0 e then x / e else 0.

(** The row written at the end of an iteration. *)
Definition hourly_row (site : Site) (pv_gw battery_gwh baseload_mwh : R)
    (dt : datetime) (h : Hour) : HourlyRow :=
  mkHourlyRow dt (name site) (latitude site) (longitude site) pv_gw battery_gwh
    (solar_mwh h) baseload_mwh (soc h) (charge_added h) (discharge_to_load h)
    (unmet h) (overproduction h).

(** The state threaded through the loop: the state of charge, the three
    running totals, the rows written (latest last) and the locals of every
    hour processed (latest last). *)
Record LoopState : Type := mkLoopState {
  st_soc : R;
  unmet_total : R;
  overproduction_total : R;
  served_total : R;
  written : list HourlyRow;
  hours_done : list Hour
}.

Definition loop_step (site : Site) (pv_gw battery_gwh : R)
    (baseload_mwh pv_multiplier capacity_mwh : R)
    (charge_eff discharge_eff : pynum)
    (st : LoopState) (item : datetime * R) : result LoopState :=
  let (dt, pv_value) := item in
  h <- hour_body baseload_mwh pv_multiplier capacity_mwh charge_eff
         discharge_eff (st_soc st) pv_value ;;
  Ok (mkLoopState (soc h)
        (unmet_total st + unmet h)
        (overproduction_total st + overproduction h)
        (served_total st + served h)
        (written st ++ [hourly_row site pv_gw battery_gwh baseload_mwh dt h])
        (hours_done st ++ [h])).

Fixpoint loop (step : LoopState -> datetime * R -> result LoopState)
    (items : list (datetime * R)) (st : LoopState) : result LoopState :=
  match items with
  | [] => Ok st
  | item :: items' => st' <- step st item ;; loop step items' st'
  end.

Definition len {A : Type} (l : list A) : R := INR (List.length l).

(** [_simulate_single_configuration]; the rows it appends to [hourly_writer]
    and the locals of every hour come with the summary. *)
Definition _simulate_single_configuration (site : Site)
    (pv_profile : SolarProfile) (pv_gw battery_gwh baseload_gw rte : R)
    (hourly_writer : list HourlyRow)
    : result (Summary * list HourlyRow * list Hour) :=
  let baseload_mwh := baseload_gw * 1000 in
  let pv_multiplier := pv_gw * 1000000 / 1000 in
  let capacity_mwh := battery_gwh * 1000 in
  let soc := 0.5 * capacity_mwh in
  let charge_eff := pow_half rte in
  let discharge_eff := charge_eff in
  st <- loop (loop_step site pv_gw battery_gwh baseload_mwh pv_multiplier
                capacity_mwh charge_eff discharge_eff)
          (zip (datetimes pv_profile) (pv_kwh_per_kw pv_profile))
          (mkLoopState soc 0 0 0 hourly_writer []) ;;
  let hours := len (datetimes pv_profile) in
  let load_total := baseload_mwh * hours in
  cf <- (if Rlt_dec 0 load_total then py_div (served_total st) load_total
         else Ok 0) ;;
  Ok (mkSummary (name site) (latitude site) (longitude site) pv_gw battery_gwh
        load_total (served_total st) (unmet_total st)
        (overproduction_total st) cf,
      written st, hours_done st).

(** ** site_selection.py *)

(** *** The floats of the distance computation

    What a float operation of [haversine_distance] returns is not the exact
    result: it is rounded, and the functions of [math] are approximations.
    A [FloatLib] gives, as real numbers, what the machine returns: [fl x]
    for an arithmetic result whose exact value is [x], and the values of
    [math.radians], [math.sin], [math.cos], [math.sqrt] and [math.atan2].
    The code is modelled for every [FloatLib]; nothing is assumed of it but
    what a theorem states. *)
Record FloatLib : Type := mkFloatLib {
  fl : R -> R;
  fl_radians : R -> R;
  fl_sin : R -> R;
  fl_cos : R -> R;
  fl_sqrt : R -> R;
  fl_atan2 : R -> R -> R
}.

(** [math.radians], exactly. *)
Definition radians (x : R) : R := x * PI / 180.

(** [math.atan2 y x], exactly: the angle of the point [(x, y)], in
    (-pi, pi]. *)
Definition atan2 (y x : R) : R :=
  if Rlt_dec 0 x then atan (y / x)
  else if Rlt_dec x 0 then
    if Rle_dec 0 y then atan (y / x) + PI else atan (y / x) - PI
  else if Rlt_dec 0 y then PI / 2
  else if Rlt_dec y 0 then - (PI / 2)
  else 0.

(** Arithmetic without rounding. *)
Definition exact_floats : FloatLib :=
  mkFloatLib (fun x => x) radians sin cos sqrt atan2.

(** What every float library does: rounding keeps a number that is not
    negative from becoming negative, and neither a square root nor the
    arctangent of a point of the first quadrant is negative. *)
Record sound_floats (F : FloatLib) : Prop := mk_sound_floats {
  fl_nonneg : forall x, 0 <= x -> 0 <= fl F x;
  fl_sqrt_nonneg : forall x, 0 <= x -> 0 <= fl_sqrt F x;
  fl_atan2_nonneg : forall y x, 0 <= y -> 0 <= x -> 0 <= fl_atan2 F y x
}.

(** [math.sqrt]: a [ValueError] ("math domain error") below zero. *)
Definition math_sqrt (F : FloatLib) (x : R) : result R :=
  if Rle_dec 0 x then Ok (fl_sqrt F x) else Raise ValueError.

(** The quantity [a] of [haversine_distance], as it is computed. *)
Definition haversine_a (F : FloatLib) (lat1 lon1 lat2 lon2 : R) : R :=
  let phi1 := fl_radians F lat1 in
  let phi2 := fl_radians F lat2 in
  let dphi := fl_radians F (fl F (lat2 - lat1)) in
  let dlambda := fl_radians F (fl F (lon2 - lon1)) in
  fl F
    (fl F ((fl_sin F (fl F (dphi / 2))) ^ 2)
     + fl F
         (fl F (fl_cos F phi1 * fl_cos F phi2)
          * fl F ((fl_sin F (fl F (dlambda / 2))) ^ 2))).

Definition haversine_distance (F : FloatLib) (lat1 lon1 lat2 lon2 : R)
    : result R :=
  let r := 6371 in
  let a := haversine_a F lat1 lon1 lat2 lon2 in
  sa <- math_sqrt F a ;;
  sb <- math_sqrt F (fl F (1 - a)) ;;
  let c := fl F (2 * fl_atan2 F sa sb) in
  Ok (fl F (r * c)).

(** The [==] of the dataclass [Site]: all three fields agree. *)
Definition Site_eq_dec (a b : Site) : {a = b} + {a <> b}.
Proof.
  decide equality; [apply Req_dec_T | apply Req_dec_T | apply string_dec].
Defined.

(** [l.remove(x)]: drops the first element equal to [x], [ValueError] when
    there is none. *)
Fixpoint list_remove (x : Site) (l : list Site) : result (list Site) :=
  match l with
  | [] => Raise ValueError
  | y :: l' =>
      if Site_eq_dec y x then Ok l'
      else (r <- list_remove x l' ;; Ok (y :: r))
  end.

(** The distance the code computes between a candidate and a selected
    site. *)
Definition computed_distance (F : FloatLib) (candidate s : Site) : result R :=
  haversine_distance F (latitude candidate) (longitude candidate)
    (latitude s) (longitude s).

(** The distances of the generator handed to [min], in the order they are
    produced. *)
Fixpoint distances (F : FloatLib) (candidate : Site) (selected : list Site)
    : result (list R) :=
  match selected with
  | [] => Ok []
  | s :: selected' =>
      d <- computed_distance F candidate s ;;
      ds <- distances F candidate selected' ;;
      Ok (d :: ds)
  end.

Definition min_distance (F : FloatLib) (candidate : Site)
    (selected : list Site) : result R :=
  ds <- distances F candidate selected ;; py_min ds.

(** The [for candidate in remaining] loop, from the current [max_site] and
    [max_distance] to their final values; the distances compared are the
    computed ones. *)
Fixpoint scan (F : FloatLib) (selected remaining : list Site)
    (max_site : option Site) (max_distance : R)
    : result (option Site * R) :=
  match remaining with
  | [] => Ok (max_site, max_distance)
  | candidate :: remaining' =>
      d <- min_distance F candidate selected ;;
      if Rlt_dec max_distance d
      then scan F selected remaining' (Some candidate) d
      else scan F selected remaining' max_site max_distance
  end.

(** The [while len(selected) < n] loop; every iteration that does not leave
    the loop takes one site out of [remaining], so a fuel of one more than
    the length of [remaining] is never exhausted. *)
Fixpoint select_loop (F : FloatLib) (fuel : nat) (n : Z)
    (selected remaining : list Site) : result (list Site) :=
  if (Z.of_nat (List.length selected) <? n)%Z then
    match fuel with
    | O => Raise OutOfFuel
    | S fuel' =>
        found <- scan F selected remaining None (-1) ;;
        match fst found with
        | None => Ok selected
        | Some max_site =>
            remaining' <- list_remove max_site remaining ;;
            select_loop F fuel' n (selected ++ [max_site]) remaining'
        end
    end
  else Ok selected.

(** [s.replace(old, new)] for a one-character [old]. *)
Fixpoint str_replace (old : ascii) (new : string) (s : string) : string :=
  match s with
  | EmptyString => EmptyString
  | String c s' =>
      if Ascii.eqb c old then (new ++ str_replace old new s')%string
      else String c (str_replace old new s')
  end.

(** [str(i)] for a natural number. *)
Definition str_of_nat (i : nat) : string :=
  NilEmpty.string_of_uint (Nat.to_uint i).

(** The renaming loop over [enumerate(selected)], from index [i]. *)
Fixpoint normalize_from (i : nat) (selected : list Site) : list Site :=
  match selected with
  | [] => []
  | s :: selected' =>
      let safe_name := str_replace "," "" (str_replace " " "_" (name s)) in
      mkSite ("site_" ++ str_of_nat (i + 1) ++ "_" ++ safe_name)%string
        (latitude s) (longitude s)
      :: normalize_from (S i) selected'
  end.

(** The sites selected, before they are renamed. *)
Definition select_raw (F : FloatLib) (sites : list Site) (n : Z)
    : result (list Site) :=
  let pool := sites in
  if (Z.of_nat (List.length pool) <? n)%Z then Raise ValueError
  else
    match pool with
    | [] => Raise IndexError
    | first :: remaining =>
        select_loop F (List.length pool) n [first] remaining
    end.

Definition select_sites (F : FloatLib) (sites : list Site) (n : Z)
    : result (list Site) :=
  selected <- select_raw F sites n ;;
  Ok (normalize_from 0 selected).

(** The run of the loop body over the hours' yields, from the state of charge
    [soc0]: each hour starts from the state of charge the hour before left. *)
Inductive hourly_trace (body : R -> R -> result Hour)
    : R -> list R -> list Hour -> Prop :=
| trace_nil (soc0 : R) : hourly_trace body soc0 [] []
| trace_cons (soc0 pv_value : R) (values : list R) (h : Hour) (hs : list Hour) :
    body soc0 pv_value = Ok h ->
    hourly_trace body (soc h) values hs ->
    hourly_trace body soc0 (pv_value :: values) (h :: hs).

(** ** Farthest-point sampling, as the specification words it *)

(** The value the haversine formula has in exact arithmetic: the
    great-circle distance in kilometres. *)
Definition great_circle (lat1 lon1 lat2 lon2 : R) : R :=
  let a := haversine_a exact_floats lat1 lon1 lat2 lon2 in
  6371 * (2 * atan2 (sqrt a) (sqrt (1 - a))).

(** The computed distance as a number, zero standing for an error. *)
Definition distance_value (F : FloatLib) (c s : Site) : R :=
  match computed_distance F c s with
  | Ok d => d
  | Raise _ => 0
  end.

(** The distance from the candidate [c] to every one of the sites can be
    computed. *)
Definition measurable (F : FloatLib) (c : Site) (sites : list Site) : Prop :=
  forall s, In s sites -> exists d, computed_distance F c s = Ok d.

(** The value [min_distance] computes for a candidate and the selected sites
    [s :: selected]. *)
Definition separation (F : FloatLib) (c s : Site) (selected : list Site) : R :=
  py_min_from (distance_value F c s) (map (distance_value F c) selected).

(** [d] is the minimum computed distance of the candidate [c] to a selected
    site. *)
Definition min_separation (F : FloatLib) (c : Site) (selected : list Site)
    (d : R) : Prop :=
  (exists s, In s selected /\ computed_distance F c s = Ok d) /\
  (forall s, In s selected ->
     exists ds, computed_distance F c s = Ok ds /\ d <= ds).

(** The candidate [c], found in the remaining pool between [before] and
    [after], maximises the minimum separation, and is the first to do so. *)
Definition farthest_pick (F : FloatLib) (selected before : list Site)
    (c : Site) (after : list Site) : Prop :=
  exists d,
    min_separation F c selected d /\
    (forall x, In x before ->
       exists dx, min_separation F x selected dx /\ dx < d) /\
    (forall x, In x after ->
       exists dx, min_separation F x selected dx /\ dx <= d).

(** [greedy_selection F k selected remaining final]: [k] farthest picks, each
    appended to the selected sites and taken out of the remaining pool, lead
    from [selected] to [final]. *)
Inductive greedy_selection (F : FloatLib)
    : nat -> list Site -> list Site -> list Site -> Prop :=
| greedy_done (selected remaining : list Site) :
    greedy_selection F 0 selected remaining selected
| greedy_step (k : nat) (selected before : list Site) (c : Site)
    (after final : list Site) :
    farthest_pick F selected before c after ->
    greedy_selection F k (selected ++ [c]) (before ++ after) final ->
    greedy_selection F (S k) selected (before ++ c :: after) final.

(** Some pair of a candidate of [candidates] and a site of [sites] has a
    distance that cannot be computed: [math.sqrt] raises on it. *)
Definition distance_fails (F : FloatLib) (candidates sites : list Site)
    : Prop :=
  exists c s,
    In c candidates /\ In s sites /\
    computed_distance F c s = Raise ValueError.

(** The separation of every pick from the sites selected before it, for the
    picks made after [s0 :: selected]. *)
Fixpoint pick_separations (F : FloatLib) (s0 : Site)
    (selected picks : list Site) : list R :=
  match picks with
  | [] => []
  | c :: picks' =>
      separation F c s0 selected
      :: pick_separations F s0 (selected ++ [c]) picks'
  end.

(** No element of the list is larger than the one before it. *)
Fixpoint nonincreasing (l : list R) : Prop :=
  match l with
  | a :: ((b :: _) as l') => b <= a /\ nonincreasing l'
  | _ => True
  end.

(** Four sites on the equator, at the longitudes 0, 1, 2 and 3. *)
Definition on_equator (label : string) (lon : R) : Site := mkSite label 0 lon.

Definition collinear_pool : list Site :=
  [on_equator "p0" 0; on_equator "p1" 1; on_equator "p2" 2; on_equator "p3" 3].


(** Two candidates, at (11, 1) and at (1, 11), that are at the same
    great-circle distance from the first site, at (0, 0). *)
Definition tie_pool : list Site :=
  [mkSite "o" 0 0; mkSite "b" 11 1; mkSite "a" 1 11].

(** Two sites at opposite ends of a diameter of the sphere. *)
Definition antipodal_pool : list Site :=
  [mkSite "north" 8 0; mkSite "south" (-8) 180].

(** Arithmetic that is exact but for a cosine that errs upwards, by
    [2^-53]. *)
Definition cosine_above : FloatLib :=
  mkFloatLib (fun x => x) radians sin (fun x => cos x + / 2 ^ 53) sqrt atan2.

(** Rounding, [math.radians] and [math.sin] commute with the change of
    sign. *)
Definition odd_floats (F : FloatLib) : Prop :=
  (forall x, fl F (- x) = - fl F x) /\
  (forall x, fl_radians F (- x) = - fl_radians F x) /\
  (forall x, fl_sin F (- x) = - fl_sin F x).

(** [ds] are the minimum separations of the picks, each from the sites
    selected before it. *)
Fixpoint separations_of (F : FloatLib) (selected picks : list Site)
    (ds : list R) : Prop :=
  match picks, ds with
  | [], [] => True
  | c :: picks', d :: ds' =>
      min_separation F c selected d /\
      separations_of F (selected ++ [c]) picks' ds'
  | _, _ => False
  end.

(** ** Properties of an hour, and inputs to try the code on *)

(** The four flows are not negative; charge and discharge exclude each other
    and so do unmet load and overproduction. *)
Definition flows_sound (h : Hour) : Prop :=
  0 <= charge_added h /\ 0 <= discharge_to_load h /\
  0 <= unmet h /\ 0 <= overproduction h /\
  ~ (0 < charge_added h /\ 0 < discharge_to_load h) /\
  ~ (0 < unmet h /\ 0 < overproduction h).

(** A battery that neither charges nor discharges: the whole surplus is
    overproduction and the whole deficit is unmet. *)
Definition battery_idle (h : Hour) : Prop :=
  charge_added h = 0 /\ discharge_to_load h = 0 /\
  overproduction h = surplus h /\ unmet h = deficit h.

(** What the hour reads off the yield [pv_value], the PV capacity and the
    load: the solar generation, the surplus and the deficit, and the energy
    served. *)
Definition hour_reads (baseload_mwh pv_gw pv_value : R) (h : Hour) : Prop :=
  solar_mwh h = pv_value * (pv_gw * 1000000 / 1000) / 1000 /\
  surplus h = Rmax 0 (solar_mwh h - baseload_mwh) /\
  deficit h = Rmax 0 (baseload_mwh - solar_mwh h) /\
  served h = baseload_mwh - unmet h.

(** A site and a profile of a single hour with the yield [v]. *)
Definition test_site : Site := mkSite "Test Site, Nowhere" 0 0.

Definition one_hour_profile (v : R) : SolarProfile :=
  mkSolarProfile 0 0 2021 [0%Z] [v].

(** ** simulation.py: the sweep *)

Record SimulationConfig : Type := mkSimulationConfig {
  pv_capacities_gw : list R;
  battery_capacities_gwh : list R;
  baseload_gw : R;
  round_trip_efficiency : R
}.

(** The inner loop of [run_yearly_simulation] over the battery capacities:
    every run appends its rows to the one writer and its summary to
    [summary_rows]. *)
Fixpoint battery_sweep (site : Site) (pv_profile : SolarProfile)
    (config : SimulationConfig) (pv_gw : R) (batteries : list R)
    (hourly_writer : list HourlyRow) (summary_rows : list Summary)
    : result (list HourlyRow * list Summary) :=
  match batteries with
  | [] => Ok (hourly_writer, summary_rows)
  | battery_gwh :: batteries' =>
      run <- _simulate_single_configuration site pv_profile pv_gw battery_gwh
               (baseload_gw config) (round_trip_efficiency config)
               hourly_writer ;;
      battery_sweep site pv_profile config pv_gw batteries'
        (snd (fst run)) (summary_rows ++ [fst (fst run)])
  end.

(** The outer loop over the PV capacities. *)
Fixpoint pv_sweep (site : Site) (pv_profile : SolarProfile)
    (config : SimulationConfig) (pvs : list R)
    (hourly_writer : list HourlyRow) (summary_rows : list Summary)
    : result (list HourlyRow * list Summary) :=
  match pvs with
  | [] => Ok (hourly_writer, summary_rows)
  | pv_gw :: pvs' =>
      swept <- battery_sweep site pv_profile config pv_gw
                 (battery_capacities_gwh config) hourly_writer summary_rows ;;
      pv_sweep site pv_profile config pvs' (fst swept) (snd swept)
  end.

(** [run_yearly_simulation]: the rows of the hourly file, below its header,
    and [summary_rows], which are also the rows of the summary file.  The
    directories and the paths of the two files are not represented. *)
Definition run_yearly_simulation (site : Site) (pv_profile : SolarProfile)
    (config : SimulationConfig) : result (list HourlyRow * list Summary) :=
  pv_sweep site pv_profile config (pv_capacities_gw config) [] [].

(** The sum of a list of floats, and the state of charge a run ends with. *)
Definition Rsum (l : list R) : R := fold_right Rplus 0 l.

Definition final_soc (soc0 : R) (hours : list Hour) : R :=
  last (map soc hours) soc0.

(** The character [c] occurs in the string [s]. *)
Definition string_has (c : ascii) (s : string) : Prop :=
  In c (list_ascii_of_string s).

(** ** solar_data.py: the payload of the data service turned into a profile *)

Definition SYSTEM_DERATE : R := 0.8.

Definition EXPECTED_HOURS : Z := 8760.

(** [range(n)]. *)
Definition py_range (n : Z) : list Z := map Z.of_nat (seq 0 (Z.to_nat n)).

(** [items.sort(key=lambda item: item[0])]: a stable sort by the datetime; an
    item goes in front of the first item whose datetime is not earlier. *)
Fixpoint insert_item (x : datetime * R) (l : list (datetime * R))
    : list (datetime * R) :=
  match l with
  | [] => [x]
  | y :: l' =>
      if (fst x <=? fst y)%Z then x :: y :: l' else y :: insert_item x l'
  end.

Fixpoint sort_items (l : list (datetime * R)) : list (datetime * R) :=
  match l with
  | [] => []
  | x :: l' => insert_item x (sort_items l')
  end.

(** [mapping.get(dt, default)] for [mapping = {dt: val for dt, val in items}]:
    the value of the last item with the datetime [dt]. *)
Fixpoint mapping_get (items : list (datetime * R)) (dt : datetime)
    (default : R) : R :=
  match items with
  | [] => default
  | (k, v) :: items' =>
      mapping_get items' dt (if (k =? dt)%Z then v else default)
  end.

Section Download.

(** The values of the payload are what the JSON document holds: numbers,
    but also strings or anything else; [None] is its [null]. *)
Variable json : Type.

(** [datetime.strptime(ts, "%Y%m%d%H")], [float(value)] and
    [datetime(year, 1, 1)], of the standard library: whatever they return or
    raise. *)
Variable strptime : string -> result datetime.
Variable py_float : json -> result R.
Variable year_start : Z -> result datetime.

(** The loop over [raw.items()], lines 65 to 70: entries without a value are
    skipped, the others are parsed, converted and derated. *)
Fixpoint derated_items (raw : list (string * option json))
    : result (list (datetime * R)) :=
  match raw with
  | [] => Ok []
  | (ts, None) :: raw' => derated_items raw'
  | (ts, Some value) :: raw' =>
      dt <- strptime ts ;;
      x <- py_float value ;;
      items <- derated_items raw' ;;
      Ok ((dt, x * SYSTEM_DERATE) :: items)
  end.

(** [_download_hourly_power] from the point where the payload is at hand:
    [raw] holds the items of
    [payload["properties"]["parameter"]["ALLSKY_SFC_SW_DWN"]]. *)
Definition _download_hourly_power (latitude longitude : R) (year : Z)
    (raw : list (string * option json)) : result SolarProfile :=
  items <- derated_items raw ;;
  let items := sort_items items in
  let datetimes := map fst items in
  let values := map snd items in
  if (Z.of_nat (List.length datetimes) =? EXPECTED_HOURS)%Z then
    Ok (mkSolarProfile latitude longitude year datetimes values)
  else
    start <- year_start year ;;
    let expected := map (fun i => (start + i)%Z) (py_range EXPECTED_HOURS) in
    let datetimes := expected in
    let values := map (fun dt => mapping_get items dt 0) expected in
    Ok (mkSolarProfile latitude longitude year datetimes values).

End Download.

(** Two sites at the same coordinates. *)
Definition same_place (a b : Site) : Prop :=
  latitude a = latitude b /\ longitude a = longitude b.

(** * Properties *)

(** ** The error monad *)

Lemma bind_Ok_inv {A B : Type} (c : result A) (k : A -> result B) (b : B) :
  bind c k = Ok b -> exists a, c = Ok a /\ k a = Ok b.
Proof.
  destruct c as [a | e]; simpl; intros H; [eauto | discriminate].
Qed.

Lemma bind_Raise_inv {A B : Type} (c : result A) (k : A -> result B) (e : exn) :
  bind c k = Raise e -> c = Raise e \/ exists a, c = Ok a /\ k a = Raise e.
Proof.
  destruct c as [a | e']; simpl; intros H; [right; eauto | left].
  injection H as ->. reflexivity.
Qed.

Lemma py_div_nonzero (x y : R) : y <> 0 -> py_div x y = Ok (x / y).
Proof.
  intros Hy. unfold py_div. destruct (Req_dec_T y 0); [contradiction | reflexivity].
Qed.

Lemma guarded_div_Ok (x e : R) :
  (if Rlt_dec 0 e then py_div x e else Ok 0) = Ok (guarded_div x e).
Proof.
  unfold guarded_div. destruct (Rlt_dec 0 e) as [He | He]; [| reflexivity].
  apply py_div_nonzero. lra.
Qed.

Lemma guarded_div_nonneg (x e : R) : 0 <= x -> 0 <= guarded_div x e.
Proof.
  intros Hx. unfold guarded_div. destruct (Rlt_dec 0 e) as [He | He]; [| lra].
  apply Rmult_le_pos; [exact Hx | left; apply Rinv_0_lt_compat; exact He].
Qed.

Lemma guarded_div_zero (x e : R) : e <= 0 -> guarded_div x e = 0.
Proof.
  intros He. unfold guarded_div. destruct (Rlt_dec 0 e); [lra | reflexivity].
Qed.

(** ** The body of the hourly loop, branch by branch *)

Section HourBody.

Variables baseload_mwh pv_multiplier capacity_mwh : R.

Let solar (pv_value : R) : R := pv_value * pv_multiplier / 1000.

(** A surplus hour with a real efficiency. *)
Lemma hour_body_surplus (e soc0 pv_value : R) :
  baseload_mwh < solar pv_value ->
  hour_body baseload_mwh pv_multiplier capacity_mwh (PyFloat e) (PyFloat e)
    soc0 pv_value
  = let surplus := solar pv_value - baseload_mwh in
    let charge_added := Rmin (capacity_mwh - soc0) (surplus * e) in
    Ok (mkHour (solar pv_value) surplus 0 charge_added 0 0
          (Rmax 0 (surplus - guarded_div charge_added e))
          (baseload_mwh - 0) (soc0 + charge_added)).
Proof.
  intros Hs. unfold hour_body, solar in *.
  assert (Hsur : Rmax 0 (pv_value * pv_multiplier / 1000 - baseload_mwh)
                 = pv_value * pv_multiplier / 1000 - baseload_mwh)
    by (apply Rmax_right; lra).
  assert (Hdef : Rmax 0 (baseload_mwh - pv_value * pv_multiplier / 1000) = 0)
    by (apply Rmax_left; lra).
  rewrite Hsur, Hdef.
  destruct (Rlt_dec 0 (pv_value * pv_multiplier / 1000 - baseload_mwh)); [| lra].
  simpl. rewrite guarded_div_Ok. reflexivity.
Qed.

(** A deficit hour with a real efficiency. *)
Lemma hour_body_deficit (e soc0 pv_value : R) :
  solar pv_value < baseload_mwh ->
  hour_body baseload_mwh pv_multiplier capacity_mwh (PyFloat e) (PyFloat e)
    soc0 pv_value
  = let deficit := baseload_mwh - solar pv_value in
    let possible_discharge := Rmin soc0 (guarded_div deficit e) in
    let unmet := Rmax 0 (deficit - possible_discharge * e) in
    Ok (mkHour (solar pv_value) 0 deficit 0 (possible_discharge * e) unmet 0
          (baseload_mwh - unmet) (soc0 - possible_discharge)).
Proof.
  intros Hs. unfold hour_body, solar in *.
  assert (Hsur : Rmax 0 (pv_value * pv_multiplier / 1000 - baseload_mwh) = 0)
    by (apply Rmax_left; lra).
  assert (Hdef : Rmax 0 (baseload_mwh - pv_value * pv_multiplier / 1000)
                 = baseload_mwh - pv_value * pv_multiplier / 1000)
    by (apply Rmax_right; lra).
  rewrite Hsur, Hdef.
  destruct (Rlt_dec 0 0); [lra |].
  destruct (Rlt_dec 0 (baseload_mwh - pv_value * pv_multiplier / 1000)); [| lra].
  simpl. rewrite guarded_div_Ok. reflexivity.
Qed.

(** An hour of exact balance, whatever the efficiencies are. *)
Lemma hour_body_balance (ce de : pynum) (soc0 pv_value : R) :
  solar pv_value = baseload_mwh ->
  hour_body baseload_mwh pv_multiplier capacity_mwh ce de soc0 pv_value
  = Ok (mkHour (solar pv_value) 0 0 0 0 0 0 (baseload_mwh - 0) soc0).
Proof.
  intros Hs. unfold hour_body, solar in *.
  assert (Hsur : Rmax 0 (pv_value * pv_multiplier / 1000 - baseload_mwh) = 0)
    by (apply Rmax_left; lra).
  assert (Hdef : Rmax 0 (baseload_mwh - pv_value * pv_multiplier / 1000) = 0)
    by (apply Rmax_left; lra).
  rewrite Hsur, Hdef.
  destruct (Rlt_dec 0 0); [lra | reflexivity].
Qed.

(** With a complex efficiency every hour out of balance raises. *)
Lemma hour_body_complex (soc0 pv_value : R) :
  solar pv_value <> baseload_mwh ->
  hour_body baseload_mwh pv_multiplier capacity_mwh PyComplex PyComplex
    soc0 pv_value = Raise TypeError.
Proof.
  intros Hs. unfold hour_body, solar in *.
  destruct (Rlt_dec 0 (Rmax 0 (pv_value * pv_multiplier / 1000 - baseload_mwh)))
    as [H1 | H1]; [reflexivity |].
  destruct (Rlt_dec 0 (Rmax 0 (baseload_mwh - pv_value * pv_multiplier / 1000)))
    as [H2 | H2]; [reflexivity |].
  exfalso. apply Hs.
  destruct (Rtotal_order (pv_value * pv_multiplier / 1000) baseload_mwh)
    as [Hlt | [Heq | Hgt]]; [| exact Heq |].
  - exfalso. apply H2. rewrite Rmax_right; lra.
  - exfalso. apply H1. rewrite Rmax_right; lra.
Qed.

End HourBody.

(** ** The hourly loop *)

Section HourlyLoop.

Variable site : Site.
Variables pv_gw battery_gwh baseload_mwh pv_multiplier capacity_mwh : R.
Variable eff : pynum.

Let body := hour_body baseload_mwh pv_multiplier capacity_mwh eff eff.
Let step :=
  loop_step site pv_gw battery_gwh baseload_mwh pv_multiplier capacity_mwh
    eff eff.
Let row := hourly_row site pv_gw battery_gwh baseload_mwh.

(** The body raises nothing but the [TypeError] of a complex efficiency. *)
Lemma hour_body_raises (soc0 pv_value : R) (x : exn) :
  body soc0 pv_value = Raise x -> x = TypeError /\ eff = PyComplex.
Proof.
  unfold body. intros H.
  destruct eff as [e |].
  - exfalso.
    destruct (Rtotal_order (pv_value * pv_multiplier / 1000) baseload_mwh)
      as [Hlt | [Heq | Hgt]].
    + rewrite hour_body_deficit in H by exact Hlt. discriminate.
    + rewrite hour_body_balance in H by exact Heq. discriminate.
    + rewrite hour_body_surplus in H by exact Hgt. discriminate.
  - destruct (Req_dec_T (pv_value * pv_multiplier / 1000) baseload_mwh)
      as [Heq | Hne].
    + rewrite hour_body_balance in H by exact Heq. discriminate.
    + rewrite hour_body_complex in H by exact Hne.
      injection H as <-. split; reflexivity.
Qed.

Lemma loop_raises (items : list (datetime * R)) (st : LoopState) (x : exn) :
  loop step items st = Raise x -> x = TypeError /\ eff = PyComplex.
Proof.
  revert st. induction items as [| [dt v] items IH]; intros st H; simpl in H.
  - discriminate.
  - apply bind_Raise_inv in H. destruct H as [H | [st' [_ H]]].
    + unfold step, loop_step in H.
      apply bind_Raise_inv in H. destruct H as [H | [h [_ H]]].
      * eapply hour_body_raises. exact H.
      * discriminate.
    + eapply IH. exact H.
Qed.

(** The loop processes every item: the locals it records are the run of the
    body from the state of charge it starts with, and it writes a row for
    every hour. *)
Lemma loop_trace (items : list (datetime * R)) (st st' : LoopState) :
  loop step items st = Ok st' ->
  exists hs,
    hours_done st' = hours_done st ++ hs /\
    hourly_trace body (st_soc st) (map snd items) hs /\
    written st'
    = written st ++ map (fun p => row (fst (fst p)) (snd p)) (combine items hs).
Proof.
  revert st. induction items as [| [dt v] items IH]; intros st H; simpl in H.
  - injection H as <-. exists []. simpl. rewrite !app_nil_r.
    repeat split. constructor.
  - apply bind_Ok_inv in H. destruct H as [st1 [H1 H]].
    unfold step, loop_step in H1.
    apply bind_Ok_inv in H1. destruct H1 as [h [Hh H1]].
    injection H1 as <-.
    apply IH in H. destruct H as [hs [Hhs [HT Hw]]]. simpl in *.
    exists (h :: hs). rewrite Hhs, Hw, <- !app_assoc. simpl.
    repeat split. econstructor; [exact Hh | exact HT].
Qed.

End HourlyLoop.

(** An invariant [Inv] of the state of charge and a property [Q] of the
    hour's yield and locals that every run of the body establishes hold all
    along a trace. *)
Section TraceInvariant.

Variable body : R -> R -> result Hour.
Variable Inv : R -> Prop.
Variable Q : R -> Hour -> Prop.

Hypothesis body_keeps : forall soc0 pv_value h,
  Inv soc0 -> body soc0 pv_value = Ok h -> Inv (soc h) /\ Q pv_value h.

Lemma trace_keeps (soc0 : R) (values : list R) (hs : list Hour) :
  Inv soc0 -> hourly_trace body soc0 values hs -> Forall2 Q values hs.
Proof.
  intros HI HT. induction HT as [soc0 | soc0 v vs h hs Hh HT IH].
  - constructor.
  - destruct (body_keeps _ _ _ HI Hh) as [HI' HQ].
    constructor; [exact HQ | apply IH; exact HI'].
Qed.

End TraceInvariant.

Lemma trace_length (body : R -> R -> result Hour) (soc0 : R)
    (values : list R) (hs : list Hour) :
  hourly_trace body soc0 values hs -> List.length hs = List.length values.
Proof.
  intros HT. induction HT; simpl; [reflexivity | f_equal; assumption].
Qed.

Lemma zip_length {A B : Type} (l1 : list A) (l2 : list B) :
  List.length (zip l1 l2) = Nat.min (List.length l1) (List.length l2).
Proof.
  revert l2. induction l1 as [| a l1 IH]; intros [| b l2]; simpl; auto.
Qed.

Lemma zip_values {A B : Type} (l1 : list A) (l2 : list B) :
  map snd (zip l1 l2) = firstn (List.length l1) l2.
Proof.
  revert l2. induction l1 as [| a l1 IH]; intros [| b l2]; simpl; auto.
  f_equal. apply IH.
Qed.

(** ** [_simulate_single_configuration] *)

Section Simulate.

Variable site : Site.
Variable pv_profile : SolarProfile.
Variables pv_gw battery_gwh baseload_gw rte : R.
Variable hourly_writer : list HourlyRow.

Let simulate :=
  _simulate_single_configuration site pv_profile pv_gw battery_gwh baseload_gw
    rte hourly_writer.
Let items := zip (datetimes pv_profile) (pv_kwh_per_kw pv_profile).
Let body :=
  hour_body (baseload_gw * 1000) (pv_gw * 1000000 / 1000) (battery_gwh * 1000)
    (pow_half rte) (pow_half rte).

(** A run raises nothing but the [TypeError] of a negative efficiency: no
    division raises. *)
Lemma simulate_raises (x : exn) :
  simulate = Raise x -> x = TypeError /\ rte < 0.
Proof.
  unfold simulate, _simulate_single_configuration. intros H.
  apply bind_Raise_inv in H. destruct H as [H | [st [_ H]]].
  - apply loop_raises in H. destruct H as [-> H]. split; [reflexivity |].
    unfold pow_half in H. destruct (Rle_dec 0 rte); [discriminate | lra].
  - rewrite guarded_div_Ok in H. discriminate.
Qed.

Lemma simulate_returns :
  0 <= rte -> exists summary rows hours, simulate = Ok (summary, rows, hours).
Proof.
  intros Hr. destruct simulate as [[[summary rows] hours] | x] eqn:E.
  - eauto.
  - apply simulate_raises in E. lra.
Qed.

(** A run that returns has run the body over the zipped hours from half the
    capacity, and has appended one row per hour to the writer. *)
Lemma simulate_trace (summary : Summary) (rows : list HourlyRow)
    (hours : list Hour) :
  simulate = Ok (summary, rows, hours) ->
  hourly_trace body (0.5 * (battery_gwh * 1000)) (map snd items) hours /\
  rows = hourly_writer
         ++ map (fun p => hourly_row site pv_gw battery_gwh (baseload_gw * 1000)
                            (fst (fst p)) (snd p))
              (combine items hours).
Proof.
  unfold simulate, _simulate_single_configuration. intros H.
  apply bind_Ok_inv in H. destruct H as [st [Hl H]].
  rewrite guarded_div_Ok in H. simpl in H. injection H as _ <- <-.
  apply loop_trace in Hl.
  destruct Hl as [hs [Hhs [HT Hw]]]. simpl in Hhs, Hw. subst.
  split; [exact HT | exact Hw].
Qed.

End Simulate.

(** ** What one hour does *)

Ltac minmax :=
  unfold Rmin, Rmax;
  repeat match goal with
         | |- context [Rle_dec ?a ?b] => destruct (Rle_dec a b)
         end;
  try lra.

(** The three ways through the body when the efficiency is a float. *)
Lemma hour_body_float_inv (baseload_mwh pv_multiplier capacity_mwh : R)
    (e soc0 pv_value : R) (h : Hour) :
  hour_body baseload_mwh pv_multiplier capacity_mwh (PyFloat e) (PyFloat e)
    soc0 pv_value = Ok h ->
  let solar := pv_value * pv_multiplier / 1000 in
  let charge := Rmin (capacity_mwh - soc0) ((solar - baseload_mwh) * e) in
  let draw := Rmin soc0 (guarded_div (baseload_mwh - solar) e) in
  let short := Rmax 0 (baseload_mwh - solar - draw * e) in
  (baseload_mwh < solar /\
   h = mkHour solar (solar - baseload_mwh) 0 charge 0 0
         (Rmax 0 (solar - baseload_mwh - guarded_div charge e))
         (baseload_mwh - 0) (soc0 + charge)) \/
  (solar < baseload_mwh /\
   h = mkHour solar 0 (baseload_mwh - solar) 0 (draw * e) short 0
         (baseload_mwh - short) (soc0 - draw)) \/
  (solar = baseload_mwh /\
   h = mkHour solar 0 0 0 0 0 0 (baseload_mwh - 0) soc0).
Proof.
  intros H. cbv zeta.
  destruct (Rtotal_order (pv_value * pv_multiplier / 1000) baseload_mwh)
    as [Hlt | [Heq | Hgt]].
  - rewrite hour_body_deficit in H by exact Hlt. cbv zeta in H.
    injection H as <-. right; left. split; [exact Hlt | reflexivity].
  - rewrite hour_body_balance in H by exact Heq.
    injection H as <-. right; right. split; [exact Heq | reflexivity].
  - rewrite hour_body_surplus in H by exact Hgt. cbv zeta in H.
    injection H as <-. left. split; [exact Hgt | reflexivity].
Qed.

(** With a complex efficiency the body returns in an hour of balance only. *)
Lemma hour_body_complex_inv (baseload_mwh pv_multiplier capacity_mwh : R)
    (soc0 pv_value : R) (h : Hour) :
  hour_body baseload_mwh pv_multiplier capacity_mwh PyComplex PyComplex
    soc0 pv_value = Ok h ->
  h = mkHour (pv_value * pv_multiplier / 1000) 0 0 0 0 0 0 (baseload_mwh - 0)
        soc0.
Proof.
  intros H.
  destruct (Req_dec_T (pv_value * pv_multiplier / 1000) baseload_mwh)
    as [Heq | Hne].
  - rewrite hour_body_balance in H by exact Heq. injection H as <-. reflexivity.
  - rewrite hour_body_complex in H by exact Hne. discriminate.
Qed.

(** The body computes the solar generation of the hour as the yield times
    [pv_multiplier] over a thousand. *)
Lemma hour_body_solar (baseload_mwh pv_multiplier capacity_mwh : R)
    (eff : pynum) (soc0 pv_value : R) (h : Hour) :
  hour_body baseload_mwh pv_multiplier capacity_mwh eff eff soc0 pv_value
  = Ok h ->
  solar_mwh h = pv_value * pv_multiplier / 1000.
Proof.
  intros H. destruct eff as [e |].
  - apply hour_body_float_inv in H. cbv zeta in H.
    destruct H as [[_ ->] | [[_ ->] | [_ ->]]]; reflexivity.
  - apply hour_body_complex_inv in H. subst h. reflexivity.
Qed.

(** Served and unmet energy add up to the load. *)
Lemma hour_body_conserves (baseload_mwh pv_multiplier capacity_mwh : R)
    (eff : pynum) (soc0 pv_value : R) (h : Hour) :
  hour_body baseload_mwh pv_multiplier capacity_mwh eff eff soc0 pv_value
  = Ok h ->
  served h + unmet h = baseload_mwh.
Proof.
  intros H. destruct eff as [e |].
  - apply hour_body_float_inv in H. cbv zeta in H.
    destruct H as [[_ ->] | [[_ ->] | [_ ->]]]; simpl; lra.
  - apply hour_body_complex_inv in H. subst h. simpl. lra.
Qed.

(** The state of charge stays between zero and the capacity. *)
Lemma hour_body_soc_bounds (baseload_mwh pv_multiplier capacity_mwh : R)
    (e soc0 pv_value : R) (h : Hour) :
  0 <= e ->
  0 <= soc0 <= capacity_mwh ->
  hour_body baseload_mwh pv_multiplier capacity_mwh (PyFloat e) (PyFloat e)
    soc0 pv_value = Ok h ->
  0 <= soc h <= capacity_mwh.
Proof.
  intros He Hs H. apply hour_body_float_inv in H. cbv zeta in H.
  destruct H as [[Hc ->] | [[Hc ->] | [Hc ->]]]; simpl.
  - assert (0 <= (pv_value * pv_multiplier / 1000 - baseload_mwh) * e)
      by (apply Rmult_le_pos; lra).
    minmax.
  - assert (0 <= guarded_div (baseload_mwh - pv_value * pv_multiplier / 1000) e)
      by (apply guarded_div_nonneg; lra).
    minmax.
  - exact Hs.
Qed.

(** The flows of an hour are sound. *)
Lemma hour_body_flows (baseload_mwh pv_multiplier capacity_mwh : R)
    (e soc0 pv_value : R) (h : Hour) :
  0 <= e ->
  0 <= soc0 <= capacity_mwh ->
  hour_body baseload_mwh pv_multiplier capacity_mwh (PyFloat e) (PyFloat e)
    soc0 pv_value = Ok h ->
  flows_sound h.
Proof.
  intros He Hs H. apply hour_body_float_inv in H. cbv zeta in H.
  unfold flows_sound.
  destruct H as [[Hc ->] | [[Hc ->] | [Hc ->]]]; simpl.
  - assert (0 <= (pv_value * pv_multiplier / 1000 - baseload_mwh) * e)
      by (apply Rmult_le_pos; lra).
    repeat split; try lra; minmax.
  - assert (Hg : 0 <= guarded_div (baseload_mwh - pv_value * pv_multiplier / 1000) e)
      by (apply guarded_div_nonneg; lra).
    assert (0 <= Rmin soc0 (guarded_div (baseload_mwh - pv_value * pv_multiplier / 1000) e) * e)
      by (apply Rmult_le_pos; [minmax | exact He]).
    repeat split; try lra; minmax.
  - repeat split; lra.
Qed.

(** With an efficiency of zero the battery is idle and keeps its charge. *)
Lemma hour_body_zero_efficiency (baseload_mwh pv_multiplier capacity_mwh : R)
    (soc0 pv_value : R) (h : Hour) :
  0 <= soc0 <= capacity_mwh ->
  hour_body baseload_mwh pv_multiplier capacity_mwh (PyFloat 0) (PyFloat 0)
    soc0 pv_value = Ok h ->
  soc h = soc0 /\ battery_idle h.
Proof.
  intros Hs H. apply hour_body_float_inv in H. cbv zeta in H.
  unfold battery_idle.
  rewrite !Rmult_0_r in H.
  repeat rewrite (guarded_div_zero _ 0) in H by lra.
  destruct H as [[Hc ->] | [[Hc ->] | [Hc ->]]]; simpl.
  - assert (Hm : Rmin (capacity_mwh - soc0) 0 = 0) by (apply Rmin_right; lra).
    rewrite Hm.
    repeat split; try lra. minmax.
  - assert (Hm : Rmin soc0 0 = 0) by (apply Rmin_right; lra).
    rewrite Hm.
    repeat split; try lra. minmax.
  - repeat split; lra.
Qed.

(** With a capacity of zero the battery is idle and stays empty. *)
Lemma hour_body_zero_capacity (baseload_mwh pv_multiplier : R)
    (e pv_value : R) (h : Hour) :
  0 <= e ->
  hour_body baseload_mwh pv_multiplier 0 (PyFloat e) (PyFloat e) 0 pv_value
  = Ok h ->
  soc h = 0 /\ battery_idle h.
Proof.
  intros He H. apply hour_body_float_inv in H. cbv zeta in H.
  unfold battery_idle.
  destruct H as [[Hc ->] | [[Hc ->] | [Hc ->]]]; simpl.
  - assert (0 <= (pv_value * pv_multiplier / 1000 - baseload_mwh) * e)
      by (apply Rmult_le_pos; lra).
    assert (Hm : Rmin (0 - 0) ((pv_value * pv_multiplier / 1000 - baseload_mwh) * e) = 0)
      by (rewrite Rmin_left; lra).
    rewrite Hm.
    assert (Hg : guarded_div 0 e = 0)
      by (unfold guarded_div; destruct (Rlt_dec 0 e); [field; lra | reflexivity]).
    rewrite Hg.
    repeat split; try lra. minmax.
  - assert (Hg : 0 <= guarded_div (baseload_mwh - pv_value * pv_multiplier / 1000) e)
      by (apply guarded_div_nonneg; lra).
    assert (Hm : Rmin 0 (guarded_div (baseload_mwh - pv_value * pv_multiplier / 1000) e) = 0)
      by (apply Rmin_left; exact Hg).
    rewrite Hm.
    repeat split; try lra. minmax.
  - repeat split; lra.
Qed.

Lemma pow_half_nonneg (rte : R) :
  0 <= rte -> exists e, pow_half rte = PyFloat e /\ 0 <= e /\ e * e = rte.
Proof.
  intros Hr. exists (sqrt rte). unfold pow_half.
  destruct (Rle_dec 0 rte); [| contradiction].
  repeat split; [apply sqrt_pos | apply sqrt_sqrt; exact Hr].
Qed.

Lemma pow_half_square (e : R) : 0 <= e -> pow_half (e * e) = PyFloat e.
Proof.
  intros He. unfold pow_half.
  destruct (Rle_dec 0 (e * e)) as [_ | Hn].
  - rewrite sqrt_square by exact He. reflexivity.
  - exfalso. apply Hn. apply Rmult_le_pos; exact He.
Qed.

Lemma Forall2_Forall_r {A B : Type} (P : B -> Prop) (l1 : list A)
    (l2 : list B) :
  Forall2 (fun _ b => P b) l1 l2 -> Forall P l2.
Proof.
  intros H. induction H; constructor; assumption.
Qed.

(** ** A run of a single hour *)

(** A single deficit hour with the one-way efficiency [e]: the locals and the
    row the run produces. *)
Lemma simulate_one_deficit_hour (site : Site) (v pv_gw battery_gwh baseload_gw e : R)
    (w : list HourlyRow) :
  0 < e ->
  v * (pv_gw * 1000000 / 1000) / 1000 < baseload_gw * 1000 ->
  exists summary,
    _simulate_single_configuration site (one_hour_profile v) pv_gw battery_gwh
      baseload_gw (e * e) w
    = let solar := v * (pv_gw * 1000000 / 1000) / 1000 in
      let deficit := baseload_gw * 1000 - solar in
      let draw := Rmin (0.5 * (battery_gwh * 1000)) (deficit / e) in
      let unmet := Rmax 0 (deficit - draw * e) in
      let h := mkHour solar 0 deficit 0 (draw * e) unmet 0
                 (baseload_gw * 1000 - unmet)
                 (0.5 * (battery_gwh * 1000) - draw) in
      Ok (summary,
          w ++ [hourly_row site pv_gw battery_gwh (baseload_gw * 1000) 0%Z h],
          [h]).
Proof.
  intros He Hd. unfold _simulate_single_configuration.
  rewrite pow_half_square by lra. simpl zip. simpl loop.
  unfold loop_step. rewrite hour_body_deficit by exact Hd.
  cbv zeta. simpl bind at 2. simpl bind at 1.
  rewrite guarded_div_Ok. simpl.
  assert (Hg : guarded_div (baseload_gw * 1000 - v * (pv_gw * 1000000 / 1000) / 1000) e
               = (baseload_gw * 1000 - v * (pv_gw * 1000000 / 1000) / 1000) / e)
    by (unfold guarded_div; destruct (Rlt_dec 0 e); [reflexivity | contradiction]).
  rewrite Hg. eexists. reflexivity.
Qed.

(** ** The claims on the dispatch simulation *)

(** In every hour of every run the solar generation is the hour's yield
    times [pv_gw]: [pv_multiplier] is a thousand times [pv_gw] and the body
    divides by a thousand again. *)
Lemma solar_mwh_every_hour (site : Site) (pv_profile : SolarProfile)
    (pv_gw battery_gwh baseload_gw rte : R) (w : list HourlyRow)
    (summary : Summary) (rows : list HourlyRow) (hours : list Hour) :
  _simulate_single_configuration site pv_profile pv_gw battery_gwh baseload_gw
    rte w = Ok (summary, rows, hours) ->
  Forall2 (fun v h => solar_mwh h = v * pv_gw)
    (map snd (zip (datetimes pv_profile) (pv_kwh_per_kw pv_profile))) hours.
Proof.
  intros H. apply simulate_trace in H. destruct H as [HT _].
  eapply trace_keeps with (Inv := fun _ => True); [| exact I | exact HT].
  intros soc0 v h _ Hh. split; [exact I |].
  apply hour_body_solar in Hh. rewrite Hh. field.
Qed.

(** C1, on the code: with [pv_gw = 1] and a yield of 0.5 kWh per kW the run
    records a solar generation of 0.5, a thousandth of the value
    [0.5 * 1 * 1e6 / 1000 = 500] of the formula. *)
Theorem C1_solar_generation_on_the_code :
  exists summary rows h,
    _simulate_single_configuration test_site (one_hour_profile 0.5) 1 0 1 1 []
    = Ok (summary, rows, [h]) /\
    solar_mwh h = 0.5 /\
    solar_mwh h <> 0.5 * 1 * 1000000 / 1000.
Proof.
  destruct (simulate_one_deficit_hour test_site 0.5 1 0 1 1 []) as [summary E];
    [lra | lra |].
  replace (1 * 1) with 1 in E by lra.
  rewrite E. cbv zeta. do 3 eexists. split; [reflexivity |].
  simpl. split; lra.
Qed.

(** C2, on the code: the scenario of 1 GW of PV, 1 GW of load, a yield of 0.5,
    1 GWh of battery and a round-trip efficiency of 0.81, from a state of
    charge of 500 MWh.  The run records a solar generation of 0.5 and a load
    of 1000, hence a deficit of 999.5; the battery is drawn by 500 down to 0
    and delivers 450, and 549.5 stay unmet. *)
Theorem C2_scenario_on_the_code :
  exists summary r h,
    _simulate_single_configuration test_site (one_hour_profile 0.5) 1 1 1 0.81 []
    = Ok (summary, [r], [h]) /\
    solar_mwh h = 0.5 /\ load_mwh r = 1000 /\ deficit h = 999.5 /\
    0.5 * (1 * 1000) - soc h = 500 /\ discharge_to_load h = 450 /\
    unmet h = 549.5 /\ soc h = 0 /\
    solar_generation_mwh r = 0.5 /\ battery_discharge_mwh r = 450 /\
    unmet_load_mwh r = 549.5 /\ battery_state_of_charge_mwh r = 0.
Proof.
  destruct (simulate_one_deficit_hour test_site 0.5 1 1 1 0.9 []) as [summary E];
    [lra | lra |].
  replace (0.9 * 0.9) with 0.81 in E by lra.
  rewrite E. cbv zeta. do 3 eexists. split; [reflexivity |].
  assert (Hm : Rmin (0.5 * (1 * 1000))
                 ((1 * 1000 - 0.5 * (1 * 1000000 / 1000) / 1000) / 0.9) = 500)
    by (rewrite Rmin_left; lra).
  simpl. rewrite Hm.
  assert (Hx : Rmax 0 (1 * 1000 - 0.5 * (1 * 1000000 / 1000) / 1000 - 500 * 0.9)
               = 549.5)
    by (rewrite Rmax_right; lra).
  rewrite Hx. repeat split; lra.
Qed.

(** C4, as stated, fails: a series of a single hour, with a negative yield,
    is simulated and a result returned. *)
Lemma C4_negative_short_series_accepted :
  let pv_profile := one_hour_profile (-1) in
  Z.of_nat (List.length (pv_kwh_per_kw pv_profile)) <> 8760%Z /\
  Z.of_nat (List.length (pv_kwh_per_kw pv_profile)) <> 8784%Z /\
  Exists (fun v => v < 0) (pv_kwh_per_kw pv_profile) /\
  exists summary rows hours,
    _simulate_single_configuration test_site pv_profile 1 1 1 0.81 []
    = Ok (summary, rows, hours) /\
    List.length hours = 1%nat.
Proof.
  cbv zeta. simpl pv_kwh_per_kw. simpl List.length.
  repeat split; try discriminate.
  - constructor. lra.
  - destruct (simulate_one_deficit_hour test_site (-1) 1 1 1 0.9 [])
      as [summary E]; [lra | lra |].
    replace (0.9 * 0.9) with 0.81 in E by lra.
    rewrite E. cbv zeta. do 3 eexists. split; reflexivity.
Qed.

(** C4, amended: the simulator does not validate the series.  Whatever the
    lengths of the two lists and the signs of the yields, a run raises
    nothing but the [TypeError] of a negative round-trip efficiency; it
    simulates one hour per pair of [zip(datetimes, pv_kwh_per_kw)], that is as
    many hours as the shorter list has, and appends a row for each. *)
Theorem C4_series_not_validated (site : Site) (pv_profile : SolarProfile)
    (pv_gw battery_gwh baseload_gw rte : R) (w : list HourlyRow) :
  match
    _simulate_single_configuration site pv_profile pv_gw battery_gwh
      baseload_gw rte w
  with
  | Ok (_, rows, hours) =>
      List.length hours
      = Nat.min (List.length (datetimes pv_profile))
          (List.length (pv_kwh_per_kw pv_profile)) /\
      List.length rows = (List.length w + List.length hours)%nat
  | Raise x => x = TypeError /\ rte < 0
  end.
Proof.
  destruct (_simulate_single_configuration site pv_profile pv_gw battery_gwh
              baseload_gw rte w) as [[[summary rows] hours] | x] eqn:E.
  - apply simulate_trace in E. destruct E as [HT ->].
    apply trace_length in HT. rewrite length_map, zip_length in HT.
    split; [exact HT |].
    rewrite length_app, length_map, length_combine, zip_length, HT.
    rewrite Nat.min_id. reflexivity.
  - apply simulate_raises in E. exact E.
Qed.

(** C6: a run returns unless the round-trip efficiency is negative, and in
    every hour of a run that returns the served and the unmet energy add up
    to the hourly load. *)
Theorem C6_energy_conservation (site : Site) (pv_profile : SolarProfile)
    (pv_gw battery_gwh baseload_gw rte : R) (w : list HourlyRow) :
  match
    _simulate_single_configuration site pv_profile pv_gw battery_gwh
      baseload_gw rte w
  with
  | Ok (_, _, hours) =>
      List.length hours
      = List.length (zip (datetimes pv_profile) (pv_kwh_per_kw pv_profile)) /\
      Forall (fun h => served h + unmet h = baseload_gw * 1000) hours
  | Raise x => x = TypeError /\ rte < 0
  end.
Proof.
  destruct (_simulate_single_configuration site pv_profile pv_gw battery_gwh
              baseload_gw rte w) as [[[summary rows] hours] | x] eqn:E.
  - apply simulate_trace in E. destruct E as [HT _]. split.
    + apply trace_length in HT. rewrite length_map in HT. exact HT.
    + eapply Forall2_Forall_r.
      eapply trace_keeps with (Inv := fun _ => True); [| exact I | exact HT].
      intros soc0 v h _ Hh. split; [exact I |].
      eapply hour_body_conserves. exact Hh.
  - apply simulate_raises in E. exact E.
Qed.

(** The hours of a run with a valid battery and efficiency: the run returns,
    and an invariant of the state of charge that holds at half the capacity
    and a property that the body establishes hold in every hour. *)
Lemma simulate_every_hour (Inv : R -> Prop) (Q : Hour -> Prop) (site : Site)
    (pv_profile : SolarProfile) (pv_gw battery_gwh baseload_gw rte : R)
    (w : list HourlyRow) :
  0 <= rte ->
  Inv (0.5 * (battery_gwh * 1000)) ->
  (forall e soc0 v h,
     0 <= e -> e * e = rte -> Inv soc0 ->
     hour_body (baseload_gw * 1000) (pv_gw * 1000000 / 1000)
       (battery_gwh * 1000) (PyFloat e) (PyFloat e) soc0 v = Ok h ->
     Inv (soc h) /\ Q h) ->
  exists summary rows hours,
    _simulate_single_configuration site pv_profile pv_gw battery_gwh
      baseload_gw rte w = Ok (summary, rows, hours) /\
    hourly_trace
      (hour_body (baseload_gw * 1000) (pv_gw * 1000000 / 1000)
         (battery_gwh * 1000) (pow_half rte) (pow_half rte))
      (0.5 * (battery_gwh * 1000))
      (map snd (zip (datetimes pv_profile) (pv_kwh_per_kw pv_profile))) hours /\
    Forall Q hours.
Proof.
  intros Hr H0 Hbody.
  destruct (simulate_returns site pv_profile pv_gw battery_gwh baseload_gw rte
              w Hr) as [summary [rows [hours E]]].
  exists summary, rows, hours. split; [exact E |].
  apply simulate_trace in E. destruct E as [HT _]. split; [exact HT |].
  eapply Forall2_Forall_r.
  eapply trace_keeps with (Inv := Inv); [| exact H0 | exact HT].
  intros soc0 v h HI Hh.
  destruct (pow_half_nonneg rte Hr) as [e [Hp [He Hee]]].
  rewrite Hp in Hh. eapply Hbody; eassumption.
Qed.

(** C7: a run with a battery capacity and a round-trip efficiency that are
    not negative returns; it is the run of the loop body from a state of
    charge of half the capacity, which lies between zero and the capacity, and
    so does the state of charge after every hour. *)
Theorem C7_state_of_charge_bounds (site : Site) (pv_profile : SolarProfile)
    (pv_gw battery_gwh baseload_gw rte : R) (w : list HourlyRow) :
  0 <= battery_gwh ->
  0 <= rte ->
  exists summary rows hours,
    _simulate_single_configuration site pv_profile pv_gw battery_gwh
      baseload_gw rte w = Ok (summary, rows, hours) /\
    hourly_trace
      (hour_body (baseload_gw * 1000) (pv_gw * 1000000 / 1000)
         (battery_gwh * 1000) (pow_half rte) (pow_half rte))
      (0.5 * (battery_gwh * 1000))
      (map snd (zip (datetimes pv_profile) (pv_kwh_per_kw pv_profile))) hours /\
    Forall (fun h => 0 <= soc h <= battery_gwh * 1000) hours.
Proof.
  intros Hb Hr.
  apply simulate_every_hour
    with (Inv := fun s => 0 <= s <= battery_gwh * 1000); [exact Hr | lra |].
  intros e soc0 v h He _ Hs Hh.
  assert (0 <= soc h <= battery_gwh * 1000)
    by (eapply hour_body_soc_bounds; eassumption).
  split; assumption.
Qed.

(** C7 on the scenario of 1 GW, 1 GWh and an efficiency of 0.81. *)
Lemma C7_state_of_charge_bounds_witness :
  0 <= 1 /\ 0 <= 0.81 /\
  exists summary rows hours,
    _simulate_single_configuration test_site (one_hour_profile 0.5) 1 1 1 0.81
      [] = Ok (summary, rows, hours) /\
    hourly_trace
      (hour_body (1 * 1000) (1 * 1000000 / 1000) (1 * 1000) (pow_half 0.81)
         (pow_half 0.81))
      (0.5 * (1 * 1000))
      (map snd (zip (datetimes (one_hour_profile 0.5))
                  (pv_kwh_per_kw (one_hour_profile 0.5)))) hours /\
    Forall (fun h => 0 <= soc h <= 1 * 1000) hours.
Proof.
  split; [lra | split; [lra |]].
  apply (C7_state_of_charge_bounds test_site (one_hour_profile 0.5) 1 1 1 0.81 []);
    lra.
Defined.

(** What the body reads off the yield, the PV capacity and the load. *)
Lemma hour_body_reads (baseload_mwh pv_gw capacity_mwh e soc0 pv_value : R)
    (h : Hour) :
  hour_body baseload_mwh (pv_gw * 1000000 / 1000) capacity_mwh (PyFloat e)
    (PyFloat e) soc0 pv_value = Ok h ->
  hour_reads baseload_mwh pv_gw pv_value h.
Proof.
  intros H. apply hour_body_float_inv in H. cbv zeta in H.
  unfold hour_reads.
  destruct H as [[Hc ->] | [[Hc ->] | [Hc ->]]];
    cbn [solar_mwh surplus deficit served unmet];
    repeat split; try lra; minmax.
Qed.

(** The hours of a run with a valid efficiency, each with its yield: the run
    returns, it writes one row per hour, and an invariant of the state of
    charge that holds at half the capacity and a property of the yield and the
    locals that the body establishes hold in every hour. *)
Lemma simulate_each_hour (Inv : R -> Prop) (Q : R -> Hour -> Prop)
    (site : Site) (pv_profile : SolarProfile)
    (pv_gw battery_gwh baseload_gw rte : R) (w : list HourlyRow) :
  0 <= rte ->
  Inv (0.5 * (battery_gwh * 1000)) ->
  (forall e soc0 v h,
     0 <= e -> e * e = rte -> Inv soc0 ->
     hour_body (baseload_gw * 1000) (pv_gw * 1000000 / 1000)
       (battery_gwh * 1000) (PyFloat e) (PyFloat e) soc0 v = Ok h ->
     Inv (soc h) /\ Q v h) ->
  exists summary rows hours,
    _simulate_single_configuration site pv_profile pv_gw battery_gwh
      baseload_gw rte w = Ok (summary, rows, hours) /\
    rows = w ++ map (fun p => hourly_row site pv_gw battery_gwh
                                (baseload_gw * 1000) (fst (fst p)) (snd p))
                  (combine (zip (datetimes pv_profile)
                              (pv_kwh_per_kw pv_profile)) hours) /\
    Forall2 Q (map snd (zip (datetimes pv_profile) (pv_kwh_per_kw pv_profile)))
      hours.
Proof.
  intros Hr H0 Hbody.
  destruct (simulate_returns site pv_profile pv_gw battery_gwh baseload_gw rte
              w Hr) as [summary [rows [hours E]]].
  exists summary, rows, hours. split; [exact E |].
  apply simulate_trace in E. destruct E as [HT Hrows].
  split; [exact Hrows |].
  eapply trace_keeps with (Inv := Inv); [| exact H0 | exact HT].
  intros soc0 v h HI Hh.
  destruct (pow_half_nonneg rte Hr) as [e [Hp [He Hee]]].
  rewrite Hp in Hh. eapply Hbody; eassumption.
Qed.

Lemma Forall2_length_r {A B : Type} (Q : A -> B -> Prop) (l1 : list A)
    (l2 : list B) :
  Forall2 Q l1 l2 -> List.length l2 = List.length l1.
Proof.
  intros H. induction H; simpl; [reflexivity | f_equal; assumption].
Qed.

Lemma Forall2_weaken {A B : Type} (Q Q' : A -> B -> Prop) (l1 : list A)
    (l2 : list B) :
  (forall a b, Q a b -> Q' a b) -> Forall2 Q l1 l2 -> Forall2 Q' l1 l2.
Proof.
  intros HQ H. induction H; constructor; auto.
Qed.

(** C8: with a round-trip efficiency of zero and a battery capacity that is
    not negative the run returns, so no division by zero is raised, and in
    every hour the battery neither charges nor discharges: the overproduction
    is the whole surplus and the unmet load the whole deficit.  The surplus
    and the deficit are those of the hour's solar generation against the
    load, [max(0, solar - load)] and [max(0, load - solar)], the energy
    served is the load less the unmet load, the state of charge stays at half
    the capacity, and these are the values of the rows the run appends to the
    writer. *)
Theorem C8_zero_efficiency (site : Site) (pv_profile : SolarProfile)
    (pv_gw battery_gwh baseload_gw : R) (w : list HourlyRow) :
  0 <= battery_gwh ->
  exists summary rows hours,
    _simulate_single_configuration site pv_profile pv_gw battery_gwh
      baseload_gw 0 w = Ok (summary, rows, hours) /\
    List.length hours
    = List.length (zip (datetimes pv_profile) (pv_kwh_per_kw pv_profile)) /\
    Forall battery_idle hours /\
    Forall2
      (fun pv_value h =>
         hour_reads (baseload_gw * 1000) pv_gw pv_value h /\
         soc h = 0.5 * (battery_gwh * 1000))
      (map snd (zip (datetimes pv_profile) (pv_kwh_per_kw pv_profile))) hours /\
    rows = w ++ map (fun p => hourly_row site pv_gw battery_gwh
                                (baseload_gw * 1000) (fst (fst p)) (snd p))
                  (combine (zip (datetimes pv_profile)
                              (pv_kwh_per_kw pv_profile)) hours).
Proof.
  intros Hb.
  destruct (simulate_each_hour (fun s => s = 0.5 * (battery_gwh * 1000))
              (fun v h =>
                 battery_idle h /\
                 hour_reads (baseload_gw * 1000) pv_gw v h /\
                 soc h = 0.5 * (battery_gwh * 1000))
              site pv_profile pv_gw battery_gwh baseload_gw 0 w)
    as [summary [rows [hours [E [Hrows HF]]]]]; [lra | reflexivity | |].
  - intros e soc0 v h He Hee Hs Hh.
    assert (e = 0) by nra. subst e.
    pose proof (hour_body_reads _ _ _ _ _ _ _ Hh) as Hreads.
    apply hour_body_zero_efficiency in Hh; [| lra].
    destruct Hh as [Hsoc Hidle]. rewrite Hsoc, Hs. tauto.
  - exists summary, rows, hours. split; [exact E |]. split; [| split; [| split]].
    + apply Forall2_length_r in HF. rewrite length_map in HF. exact HF.
    + apply Forall2_Forall_r
        with (l1 := map snd (zip (datetimes pv_profile)
                               (pv_kwh_per_kw pv_profile))).
      apply Forall2_weaken with (2 := HF). tauto.
    + apply Forall2_weaken with (2 := HF). tauto.
    + exact Hrows.
Qed.

(** C8 on a battery of 1 GWh and a single hour of deficit. *)
Lemma C8_zero_efficiency_witness :
  0 <= 1 /\
  exists summary rows hours,
    _simulate_single_configuration test_site (one_hour_profile 0.5) 1 1 1 0 []
    = Ok (summary, rows, hours) /\
    List.length hours
    = List.length (zip (datetimes (one_hour_profile 0.5))
                     (pv_kwh_per_kw (one_hour_profile 0.5))) /\
    Forall battery_idle hours /\
    Forall2
      (fun pv_value h =>
         hour_reads (1 * 1000) 1 pv_value h /\ soc h = 0.5 * (1 * 1000))
      (map snd (zip (datetimes (one_hour_profile 0.5))
                  (pv_kwh_per_kw (one_hour_profile 0.5)))) hours /\
    rows = [] ++ map (fun p => hourly_row test_site 1 1 (1 * 1000)
                                 (fst (fst p)) (snd p))
                   (combine (zip (datetimes (one_hour_profile 0.5))
                               (pv_kwh_per_kw (one_hour_profile 0.5))) hours).
Proof.
  split; [lra |].
  apply (C8_zero_efficiency test_site (one_hour_profile 0.5) 1 1 1 []). lra.
Defined.

(** C9: with a battery capacity of zero and a round-trip efficiency that is
    not negative the run returns, and in every hour the charge and the
    discharge are zero, the overproduction is the surplus and the unmet load
    is the deficit.  The surplus and the deficit are those of the hour's
    solar generation against the load, [max(0, solar - load)] and
    [max(0, load - solar)], the energy served is the load less the unmet
    load, the state of charge stays at zero, and these are the values of the
    rows the run appends to the writer. *)
Theorem C9_zero_battery (site : Site) (pv_profile : SolarProfile)
    (pv_gw baseload_gw rte : R) (w : list HourlyRow) :
  0 <= rte ->
  exists summary rows hours,
    _simulate_single_configuration site pv_profile pv_gw 0 baseload_gw rte w
    = Ok (summary, rows, hours) /\
    List.length hours
    = List.length (zip (datetimes pv_profile) (pv_kwh_per_kw pv_profile)) /\
    Forall battery_idle hours /\
    Forall2
      (fun pv_value h =>
         hour_reads (baseload_gw * 1000) pv_gw pv_value h /\ soc h = 0)
      (map snd (zip (datetimes pv_profile) (pv_kwh_per_kw pv_profile))) hours /\
    rows = w ++ map (fun p => hourly_row site pv_gw 0 (baseload_gw * 1000)
                                (fst (fst p)) (snd p))
                  (combine (zip (datetimes pv_profile)
                              (pv_kwh_per_kw pv_profile)) hours).
Proof.
  intros Hr.
  destruct (simulate_each_hour (fun s => s = 0)
              (fun v h =>
                 battery_idle h /\
                 hour_reads (baseload_gw * 1000) pv_gw v h /\ soc h = 0)
              site pv_profile pv_gw 0 baseload_gw rte w)
    as [summary [rows [hours [E [Hrows HF]]]]]; [exact Hr | lra | |].
  - intros e soc0 v h He _ -> Hh.
    replace (0 * 1000) with 0 in Hh by lra.
    pose proof (hour_body_reads _ _ _ _ _ _ _ Hh) as Hreads.
    apply hour_body_zero_capacity in Hh; [| exact He].
    tauto.
  - exists summary, rows, hours. split; [exact E |]. split; [| split; [| split]].
    + apply Forall2_length_r in HF. rewrite length_map in HF. exact HF.
    + apply Forall2_Forall_r
        with (l1 := map snd (zip (datetimes pv_profile)
                               (pv_kwh_per_kw pv_profile))).
      apply Forall2_weaken with (2 := HF). tauto.
    + apply Forall2_weaken with (2 := HF). tauto.
    + exact Hrows.
Qed.

(** C9 on an efficiency of 0.81 and a single hour of deficit. *)
Lemma C9_zero_battery_witness :
  0 <= 0.81 /\
  exists summary rows hours,
    _simulate_single_configuration test_site (one_hour_profile 0.5) 1 0 1 0.81
      [] = Ok (summary, rows, hours) /\
    List.length hours
    = List.length (zip (datetimes (one_hour_profile 0.5))
                     (pv_kwh_per_kw (one_hour_profile 0.5))) /\
    Forall battery_idle hours /\
    Forall2
      (fun pv_value h =>
         hour_reads (1 * 1000) 1 pv_value h /\ soc h = 0)
      (map snd (zip (datetimes (one_hour_profile 0.5))
                  (pv_kwh_per_kw (one_hour_profile 0.5)))) hours /\
    rows = [] ++ map (fun p => hourly_row test_site 1 0 (1 * 1000)
                                 (fst (fst p)) (snd p))
                   (combine (zip (datetimes (one_hour_profile 0.5))
                               (pv_kwh_per_kw (one_hour_profile 0.5))) hours).
Proof.
  split; [lra |].
  apply (C9_zero_battery test_site (one_hour_profile 0.5) 1 1 0.81 []). lra.
Defined.

(** C10: in every hour of a run with a battery capacity and a round-trip
    efficiency that are not negative, the charge, the discharge, the unmet
    load and the overproduction are not negative, the charge and the
    discharge are not both positive, and neither are the unmet load and the
    overproduction. *)
Theorem C10_flows_nonnegative_exclusive (site : Site)
    (pv_profile : SolarProfile) (pv_gw battery_gwh baseload_gw rte : R)
    (w : list HourlyRow) :
  0 <= battery_gwh ->
  0 <= rte ->
  exists summary rows hours,
    _simulate_single_configuration site pv_profile pv_gw battery_gwh
      baseload_gw rte w = Ok (summary, rows, hours) /\
    List.length hours
    = List.length (zip (datetimes pv_profile) (pv_kwh_per_kw pv_profile)) /\
    Forall flows_sound hours.
Proof.
  intros Hb Hr.
  destruct (simulate_every_hour (fun s => 0 <= s <= battery_gwh * 1000)
              flows_sound site pv_profile pv_gw battery_gwh baseload_gw rte w)
    as [summary [rows [hours [E [HT HF]]]]]; [exact Hr | lra | |].
  - intros e soc0 v h He _ Hs Hh. split.
    + eapply hour_body_soc_bounds; eassumption.
    + eapply hour_body_flows; eassumption.
  - exists summary, rows, hours. split; [exact E |]. split; [| exact HF].
    apply trace_length in HT. rewrite length_map in HT. exact HT.
Qed.

(** C10 on the scenario of 1 GW, 1 GWh and an efficiency of 0.81. *)
Lemma C10_flows_nonnegative_exclusive_witness :
  0 <= 1 /\ 0 <= 0.81 /\
  exists summary rows hours,
    _simulate_single_configuration test_site (one_hour_profile 0.5) 1 1 1 0.81
      [] = Ok (summary, rows, hours) /\
    List.length hours
    = List.length (zip (datetimes (one_hour_profile 0.5))
                     (pv_kwh_per_kw (one_hour_profile 0.5))) /\
    Forall flows_sound hours.
Proof.
  split; [lra | split; [lra |]].
  apply (C10_flows_nonnegative_exclusive test_site (one_hour_profile 0.5)
           1 1 1 0.81 []); lra.
Defined.

(** ** The haversine distance *)

Ltac exact_values :=
  cbn [fl fl_radians fl_sin fl_cos fl_sqrt fl_atan2 exact_floats].

(** Without rounding, the quantity [a] is the one of the formula. *)
Lemma haversine_a_exact (lat1 lon1 lat2 lon2 : R) :
  haversine_a exact_floats lat1 lon1 lat2 lon2
  = (sin (radians (lat2 - lat1) / 2)) ^ 2
    + cos (radians lat1) * cos (radians lat2)
      * (sin (radians (lon2 - lon1) / 2)) ^ 2.
Proof. reflexivity. Qed.

(** The quantity [a] is a convex combination of a squared sine and a squared
    cosine. *)
Lemma haversine_a_convex (lat1 lon1 lat2 lon2 : R) :
  let u := (radians lat2 - radians lat1) / 2 in
  let v := (radians lat2 + radians lat1) / 2 in
  let t := (sin (radians (lon2 - lon1) / 2)) ^ 2 in
  haversine_a exact_floats lat1 lon1 lat2 lon2
  = (1 - t) * (sin u) ^ 2 + t * (cos v) ^ 2.
Proof.
  cbv zeta. rewrite haversine_a_exact.
  set (u := (radians lat2 - radians lat1) / 2).
  set (v := (radians lat2 + radians lat1) / 2).
  set (t := (sin (radians (lon2 - lon1) / 2)) ^ 2).
  replace (radians (lat2 - lat1) / 2) with u
    by (unfold u, radians; field).
  replace (radians lat1) with (v - u) by (unfold u, v; field).
  replace (radians lat2) with (v + u) by (unfold u, v; field).
  rewrite cos_minus, cos_plus.
  pose proof (sin2_cos2 u) as Hu. pose proof (sin2_cos2 v) as Hv.
  unfold Rsqr in Hu, Hv.
  replace ((cos v * cos u + sin v * sin u) * (cos v * cos u - sin v * sin u))
    with ((cos v * cos v) * (cos u * cos u) - (sin v * sin v) * (sin u * sin u))
    by ring.
  replace (cos u * cos u) with (1 - sin u * sin u) by lra.
  replace (sin v * sin v) with (1 - cos v * cos v) by lra.
  ring.
Qed.

Lemma haversine_a_range (lat1 lon1 lat2 lon2 : R) :
  0 <= haversine_a exact_floats lat1 lon1 lat2 lon2 <= 1.
Proof.
  rewrite haversine_a_convex. cbv zeta.
  set (u := (radians lat2 - radians lat1) / 2).
  set (v := (radians lat2 + radians lat1) / 2).
  set (x := radians (lon2 - lon1) / 2).
  pose proof (sin2_cos2 u) as Hu. pose proof (sin2_cos2 v) as Hv.
  pose proof (sin2_cos2 x) as Hx. unfold Rsqr in Hu, Hv, Hx.
  assert (0 <= sin u * sin u) by nra.
  assert (0 <= cos u * cos u) by nra.
  assert (0 <= sin v * sin v) by nra.
  assert (0 <= cos v * cos v) by nra.
  assert (0 <= sin x * sin x) by nra.
  assert (0 <= cos x * cos x) by nra.
  simpl pow. rewrite !Rmult_1_r.
  split; nra.
Qed.

(** Without rounding the square roots are taken of numbers that are not
    negative, so [haversine_distance] raises nothing: it returns the
    great-circle distance. *)
Lemma haversine_distance_Ok (lat1 lon1 lat2 lon2 : R) :
  haversine_distance exact_floats lat1 lon1 lat2 lon2
  = Ok (great_circle lat1 lon1 lat2 lon2).
Proof.
  unfold haversine_distance, great_circle, math_sqrt. cbv zeta.
  pose proof (haversine_a_range lat1 lon1 lat2 lon2) as [H0 H1].
  destruct (Rle_dec 0 (haversine_a exact_floats lat1 lon1 lat2 lon2));
    [| contradiction].
  cbn [bind]. exact_values.
  destruct (Rle_dec 0 (1 - haversine_a exact_floats lat1 lon1 lat2 lon2));
    [| lra].
  reflexivity.
Qed.

(** With rounding, either both square roots are taken and a distance is
    returned, or one of them is asked of a negative number. *)
Lemma haversine_distance_cases (F : FloatLib) (lat1 lon1 lat2 lon2 : R) :
  (0 <= haversine_a F lat1 lon1 lat2 lon2 /\
   0 <= fl F (1 - haversine_a F lat1 lon1 lat2 lon2) /\
   haversine_distance F lat1 lon1 lat2 lon2
   = Ok (fl F (6371
               * fl F (2 * fl_atan2 F
                             (fl_sqrt F (haversine_a F lat1 lon1 lat2 lon2))
                             (fl_sqrt F
                                (fl F (1 - haversine_a F lat1 lon1 lat2 lon2)))))))
  \/
  ((haversine_a F lat1 lon1 lat2 lon2 < 0 \/
    fl F (1 - haversine_a F lat1 lon1 lat2 lon2) < 0) /\
   haversine_distance F lat1 lon1 lat2 lon2 = Raise ValueError).
Proof.
  unfold haversine_distance, math_sqrt. cbv zeta.
  destruct (Rle_dec 0 (haversine_a F lat1 lon1 lat2 lon2)) as [Ha | Ha];
    cbn [bind].
  - destruct (Rle_dec 0 (fl F (1 - haversine_a F lat1 lon1 lat2 lon2)))
      as [Hb | Hb]; cbn [bind].
    + left. repeat split; assumption.
    + right. split; [right; lra | reflexivity].
  - right. split; [left; lra | reflexivity].
Qed.

Lemma haversine_distance_nonneg (F : FloatLib) (lat1 lon1 lat2 lon2 d : R) :
  sound_floats F ->
  haversine_distance F lat1 lon1 lat2 lon2 = Ok d -> 0 <= d.
Proof.
  intros HF H.
  destruct (haversine_distance_cases F lat1 lon1 lat2 lon2)
    as [[Ha [Hb E]] | [_ E]]; rewrite E in H; [| discriminate].
  injection H as <-.
  apply (fl_nonneg F HF).
  apply Rmult_le_pos; [lra |].
  apply (fl_nonneg F HF).
  apply Rmult_le_pos; [lra |].
  apply (fl_atan2_nonneg F HF); apply (fl_sqrt_nonneg F HF); assumption.
Qed.

Lemma haversine_distance_raises (F : FloatLib) (lat1 lon1 lat2 lon2 : R)
    (e : exn) :
  haversine_distance F lat1 lon1 lat2 lon2 = Raise e ->
  e = ValueError /\
  (haversine_a F lat1 lon1 lat2 lon2 < 0 \/
   fl F (1 - haversine_a F lat1 lon1 lat2 lon2) < 0).
Proof.
  intros H.
  destruct (haversine_distance_cases F lat1 lon1 lat2 lon2)
    as [[_ [_ E]] | [Hneg E]]; rewrite E in H; [discriminate |].
  injection H as <-. split; [reflexivity | exact Hneg].
Qed.

Lemma atan2_nonneg (y x : R) : 0 <= y -> 0 <= atan2 y x.
Proof.
  intros Hy. unfold atan2.
  pose proof PI_RGT_0 as Hpi.
  destruct (Rlt_dec 0 x) as [Hx | Hx].
  - destruct Hy as [Hy | <-].
    + left. rewrite <- atan_0. apply atan_increasing.
      apply Rdiv_lt_0_compat; assumption.
    + unfold Rdiv. rewrite Rmult_0_l, atan_0. lra.
  - destruct (Rlt_dec x 0) as [Hx' | Hx'].
    + destruct (Rle_dec 0 y); [| contradiction].
      pose proof (atan_bound (y / x)). lra.
    + destruct (Rlt_dec 0 y); [lra |].
      destruct (Rlt_dec y 0); lra.
Qed.

(** Arithmetic without rounding is sound. *)
Lemma exact_floats_sound : sound_floats exact_floats.
Proof.
  constructor; exact_values.
  - intros x Hx. exact Hx.
  - intros x _. apply sqrt_pos.
  - intros y x Hy _. apply atan2_nonneg. exact Hy.
Qed.

Lemma great_circle_nonneg (lat1 lon1 lat2 lon2 : R) :
  0 <= great_circle lat1 lon1 lat2 lon2.
Proof.
  unfold great_circle. cbv zeta.
  pose proof (atan2_nonneg (sqrt (haversine_a exact_floats lat1 lon1 lat2 lon2))
                (sqrt (1 - haversine_a exact_floats lat1 lon1 lat2 lon2))
                (sqrt_pos _)).
  lra.
Qed.

(** Along the equator the distance is the radius times the difference of the
    longitudes in radians, as long as that difference is below 180 degrees. *)
Lemma great_circle_equator (lon1 lon2 : R) :
  -180 < lon2 - lon1 < 180 ->
  great_circle 0 lon1 0 lon2 = 6371 * (Rabs (lon2 - lon1) * PI / 180).
Proof.
  intros Hd. unfold great_circle. cbv zeta. rewrite haversine_a_exact.
  pose proof PI_RGT_0 as Hpi.
  set (x := radians (lon2 - lon1) / 2).
  assert (Hx : - (PI / 2) < x < PI / 2).
  { unfold x, radians. split; nra. }
  replace (radians (0 - 0) / 2) with 0 by (unfold radians; field).
  replace (radians 0) with 0 by (unfold radians; field).
  rewrite sin_0, cos_0.
  replace (0 ^ 2 + 1 * 1 * sin x ^ 2) with (Rsqr (sin x)) by (unfold Rsqr; ring).
  replace (1 - Rsqr (sin x)) with (Rsqr (cos x))
    by (pose proof (sin2_cos2 x); lra).
  rewrite !sqrt_Rsqr_abs.
  assert (Hc : 0 < cos x) by (apply cos_gt_0; lra).
  rewrite (Rabs_pos_eq (cos x)) by lra.
  assert (Hax : - (PI / 2) < Rabs x < PI / 2).
  { unfold Rabs. destruct (Rcase_abs x); lra. }
  assert (Hs : Rabs (sin x) = sin (Rabs x)).
  { unfold Rabs at 2. destruct (Rcase_abs x) as [Hn | Hp].
    - rewrite sin_neg. apply Rabs_left.
      rewrite <- (Ropp_involutive x), sin_neg.
      assert (0 < sin (- x)) by (apply sin_gt_0; lra). lra.
    - apply Rabs_pos_eq.
      destruct (Req_dec_T x 0) as [-> | Hne]; [rewrite sin_0; lra |].
      left. apply sin_gt_0; lra. }
  assert (Hcx : cos x = cos (Rabs x)).
  { unfold Rabs. destruct (Rcase_abs x); [rewrite cos_neg |]; reflexivity. }
  rewrite Hs, Hcx.
  unfold atan2. destruct (Rlt_dec 0 (cos (Rabs x))) as [_ | Hn]; [| rewrite <- Hcx in Hn; lra].
  change (sin (Rabs x) / cos (Rabs x)) with (tan (Rabs x)).
  rewrite atan_tan by exact Hax.
  unfold x, radians.
  replace ((lon2 - lon1) * PI / 180 / 2) with ((lon2 - lon1) * (PI / 360)) by field.
  rewrite Rabs_mult, (Rabs_pos_eq (PI / 360)) by lra.
  field.
Qed.

(** ** The computed distance between two sites *)

Lemma computed_distance_raises (F : FloatLib) (c s : Site) (e : exn) :
  computed_distance F c s = Raise e -> e = ValueError.
Proof.
  unfold computed_distance. intros H.
  apply haversine_distance_raises in H. tauto.
Qed.

Lemma distance_value_Ok (F : FloatLib) (c s : Site) (d : R) :
  computed_distance F c s = Ok d -> distance_value F c s = d.
Proof.
  unfold distance_value. intros ->. reflexivity.
Qed.

Lemma distance_value_nonneg (F : FloatLib) (c s : Site) :
  sound_floats F -> 0 <= distance_value F c s.
Proof.
  intros HF. unfold distance_value.
  destruct (computed_distance F c s) as [d | e] eqn:E; [| lra].
  unfold computed_distance in E.
  apply (haversine_distance_nonneg F _ _ _ _ d HF E).
Qed.

Lemma computed_distance_exact (c s : Site) :
  computed_distance exact_floats c s
  = Ok (great_circle (latitude c) (longitude c) (latitude s) (longitude s)).
Proof.
  unfold computed_distance. apply haversine_distance_Ok.
Qed.

Lemma distance_value_exact (c s : Site) :
  distance_value exact_floats c s
  = great_circle (latitude c) (longitude c) (latitude s) (longitude s).
Proof.
  apply distance_value_Ok. apply computed_distance_exact.
Qed.

Lemma exact_measurable (c : Site) (sites : list Site) :
  measurable exact_floats c sites.
Proof.
  intros s _. eexists. apply computed_distance_exact.
Qed.

Lemma exact_never_fails (candidates sites : list Site) :
  ~ distance_fails exact_floats candidates sites.
Proof.
  intros [c [s [_ [_ H]]]]. rewrite computed_distance_exact in H.
  discriminate.
Qed.

Lemma distance_fails_incl (F : FloatLib) (c1 c2 s1 s2 : list Site) :
  incl c1 c2 -> incl s1 s2 ->
  distance_fails F c1 s1 -> distance_fails F c2 s2.
Proof.
  intros Hc Hs [c [s [H1 [H2 H3]]]].
  exists c, s. repeat split; [apply Hc | apply Hs |]; assumption.
Qed.

(** Either every distance of a candidate can be computed, or one raises. *)
Lemma measurable_or_fails (F : FloatLib) (c : Site) (sites : list Site) :
  measurable F c sites \/
  exists s, In s sites /\ computed_distance F c s = Raise ValueError.
Proof.
  induction sites as [| s sites IH].
  - left. intros s [].
  - destruct (computed_distance F c s) as [d | e] eqn:E.
    + destruct IH as [IH | [s' [Hs' Hr]]].
      * left. intros x [<- | Hx]; [exists d; exact E | apply IH; exact Hx].
      * right. exists s'. split; [right; exact Hs' | exact Hr].
    + right. exists s. split; [left; reflexivity |].
      rewrite E. f_equal. apply (computed_distance_raises F c s e E).
Qed.

(** ** The minimum distance to the selected sites *)

Lemma distances_Ok (F : FloatLib) (c : Site) (selected : list Site) :
  measurable F c selected ->
  distances F c selected = Ok (map (distance_value F c) selected).
Proof.
  induction selected as [| s selected IH]; intros Hm; cbn [distances map];
    [reflexivity |].
  destruct (Hm s (or_introl eq_refl)) as [d Hd].
  rewrite (distance_value_Ok F c s d Hd), Hd. cbn [bind].
  rewrite IH; [reflexivity |].
  intros x Hx. apply Hm. right. exact Hx.
Qed.

Lemma distances_raise (F : FloatLib) (c s : Site) (selected : list Site) :
  In s selected -> computed_distance F c s = Raise ValueError ->
  distances F c selected = Raise ValueError.
Proof.
  intros Hin Hr. induction selected as [| s' selected IH]; [contradiction |].
  cbn [distances].
  destruct (computed_distance F c s') as [d | e] eqn:E; cbn [bind].
  - destruct Hin as [-> | Hin]; [rewrite Hr in E; discriminate |].
    rewrite (IH Hin). reflexivity.
  - f_equal. apply (computed_distance_raises F c s' e E).
Qed.

Lemma py_min_from_le (m : R) (l : list R) :
  py_min_from m l <= m /\ forall x, In x l -> py_min_from m l <= x.
Proof.
  revert m. induction l as [| y l IH]; intros m; simpl.
  - split; [lra | intros x []].
  - destruct (Rlt_dec y m) as [Hy | Hy].
    + destruct (IH y) as [H1 H2]. split; [lra |].
      intros x [<- | Hx]; [exact H1 | apply H2; exact Hx].
    + destruct (IH m) as [H1 H2]. split; [exact H1 |].
      intros x [<- | Hx]; [lra | apply H2; exact Hx].
Qed.

Lemma py_min_from_In (m : R) (l : list R) :
  py_min_from m l = m \/ In (py_min_from m l) l.
Proof.
  revert m. induction l as [| y l IH]; intros m; simpl.
  - left. reflexivity.
  - destruct (Rlt_dec y m) as [Hy | Hy].
    + destruct (IH y) as [-> | H]; right; [left; reflexivity | right; exact H].
    + destruct (IH m) as [-> | H]; [left; reflexivity | right; right; exact H].
Qed.

Lemma min_distance_Ok (F : FloatLib) (c s : Site) (selected : list Site) :
  measurable F c (s :: selected) ->
  min_distance F c (s :: selected) = Ok (separation F c s selected).
Proof.
  intros Hm. unfold min_distance. rewrite (distances_Ok F c _ Hm). reflexivity.
Qed.

Lemma min_distance_raise (F : FloatLib) (c s : Site) (selected : list Site) :
  In s selected -> computed_distance F c s = Raise ValueError ->
  min_distance F c selected = Raise ValueError.
Proof.
  intros Hin Hr. unfold min_distance.
  rewrite (distances_raise F c s selected Hin Hr). reflexivity.
Qed.

Lemma separation_min (F : FloatLib) (c s : Site) (selected : list Site) :
  measurable F c (s :: selected) ->
  min_separation F c (s :: selected) (separation F c s selected).
Proof.
  intros Hm.
  assert (Hval : forall x, In x (s :: selected) ->
                   computed_distance F c x = Ok (distance_value F c x)).
  { intros x Hx. destruct (Hm x Hx) as [d Hd].
    rewrite (distance_value_Ok F c x d Hd). exact Hd. }
  unfold min_separation, separation.
  destruct (py_min_from_le (distance_value F c s)
              (map (distance_value F c) selected)) as [H1 H2].
  split.
  - destruct (py_min_from_In (distance_value F c s)
                (map (distance_value F c) selected)) as [H | H].
    + exists s. split; [left; reflexivity |].
      rewrite H. apply Hval. left. reflexivity.
    + apply in_map_iff in H. destruct H as [s' [Hs' Hin]].
      exists s'. split; [right; exact Hin |].
      rewrite <- Hs'. apply Hval. right. exact Hin.
  - intros s' Hs'. exists (distance_value F c s').
    split; [apply Hval; exact Hs' |].
    destruct Hs' as [<- | Hin]; [exact H1 |].
    apply H2. apply in_map. exact Hin.
Qed.

Lemma min_separation_unique (F : FloatLib) (c : Site) (selected : list Site)
    (d d' : R) :
  min_separation F c selected d -> min_separation F c selected d' -> d = d'.
Proof.
  intros [[s [Hs Hd]] Hle] [[s' [Hs' Hd']] Hle'].
  apply Rle_antisym.
  - destruct (Hle s' Hs') as [ds [E Hds]]. rewrite Hd' in E.
    injection E as <-. exact Hds.
  - destruct (Hle' s Hs) as [ds [E Hds]]. rewrite Hd in E.
    injection E as <-. exact Hds.
Qed.

Lemma separation_nonneg (F : FloatLib) (c s : Site) (selected : list Site) :
  sound_floats F -> 0 <= separation F c s selected.
Proof.
  intros HF. unfold separation.
  destruct (py_min_from_In (distance_value F c s)
              (map (distance_value F c) selected)) as [-> | H].
  - apply distance_value_nonneg. exact HF.
  - apply in_map_iff in H. destruct H as [s' [<- _]].
    apply distance_value_nonneg. exact HF.
Qed.

(** ** The scan of the remaining pool *)

Section Scan.

Variable F : FloatLib.
Variable s0 : Site.
Variable selected : list Site.

Let f (c : Site) : R := separation F c s0 selected.

(** The scan raises when a distance cannot be computed.  Otherwise it keeps
    the maximum it started with when no candidate exceeds it, and returns the
    first candidate of the largest separation when one does. *)
Lemma scan_best (remaining : list Site) (max_site : option Site)
    (max_distance : R) :
  (scan F (s0 :: selected) remaining max_site max_distance = Raise ValueError /\
   distance_fails F remaining (s0 :: selected)) \/
  ((forall x, In x remaining -> measurable F x (s0 :: selected)) /\
   exists m d,
     scan F (s0 :: selected) remaining max_site max_distance = Ok (m, d) /\
     ((m = max_site /\ d = max_distance /\
       forall x, In x remaining -> f x <= max_distance) \/
      (exists before c after,
         remaining = before ++ c :: after /\ m = Some c /\ d = f c /\
         max_distance < f c /\
         (forall x, In x before -> f x < f c) /\
         (forall x, In x after -> f x <= f c)))).
Proof.
  revert max_site max_distance.
  induction remaining as [| cand rest IH]; intros max_site max_distance.
  - right. split; [intros x [] |].
    exists max_site, max_distance. split; [reflexivity |].
    left. repeat split. intros x [].
  - cbn [scan].
    destruct (measurable_or_fails F cand (s0 :: selected)) as [Hm | [s [Hs Hr]]].
    + rewrite (min_distance_Ok F cand s0 selected Hm). cbn [bind].
      fold (f cand).
      destruct (Rlt_dec max_distance (f cand)) as [Hlt | Hge].
      * destruct (IH (Some cand) (f cand))
          as [[E Hf] | [Hall [m [d [E Hcase]]]]].
        -- left. split; [exact E |].
           apply (distance_fails_incl F rest (cand :: rest) (s0 :: selected)
                    (s0 :: selected)); [apply incl_tl | |]; auto using incl_refl.
        -- right. split.
           { intros x [<- | Hx]; [exact Hm | apply Hall; exact Hx]. }
           exists m, d. split; [exact E |]. right.
           destruct Hcase as [[-> [-> Hle]] | [before [c [after [-> [-> [-> [Hc [Hb Ha]]]]]]]]].
           ++ exists [], cand, rest. repeat split; try assumption. intros x [].
           ++ exists (cand :: before), c, after.
              repeat split; try assumption; [lra |].
              intros x [<- | Hx]; [exact Hc | apply Hb; exact Hx].
      * destruct (IH max_site max_distance)
          as [[E Hf] | [Hall [m [d [E Hcase]]]]].
        -- left. split; [exact E |].
           apply (distance_fails_incl F rest (cand :: rest) (s0 :: selected)
                    (s0 :: selected)); [apply incl_tl | |]; auto using incl_refl.
        -- right. split.
           { intros x [<- | Hx]; [exact Hm | apply Hall; exact Hx]. }
           exists m, d. split; [exact E |].
           destruct Hcase as [[-> [-> Hle]] | [before [c [after [-> [-> [-> [Hc [Hb Ha]]]]]]]]].
           ++ left. repeat split.
              intros x [<- | Hx]; [lra | apply Hle; exact Hx].
           ++ right. exists (cand :: before), c, after.
              repeat split; try assumption.
              intros x [<- | Hx]; [lra | apply Hb; exact Hx].
    + left. rewrite (min_distance_raise F cand s (s0 :: selected) Hs Hr).
      split; [reflexivity |].
      exists cand, s. repeat split; [left; reflexivity | exact Hs | exact Hr].
Qed.

Hypothesis F_sound : sound_floats F.

(** From no site and a distance of -1, as the loop starts it: nothing is
    found in an empty pool, and the farthest pick in any other, unless a
    distance cannot be computed. *)
Lemma scan_from_start (remaining : list Site) :
  (scan F (s0 :: selected) remaining None (-1) = Raise ValueError /\
   distance_fails F remaining (s0 :: selected)) \/
  (remaining = [] /\
   scan F (s0 :: selected) remaining None (-1) = Ok (None, -1)) \/
  (exists before c after,
     remaining = before ++ c :: after /\
     scan F (s0 :: selected) remaining None (-1) = Ok (Some c, f c) /\
     farthest_pick F (s0 :: selected) before c after /\
     list_remove c remaining = Ok (before ++ after) /\
     (forall x, In x remaining -> measurable F x (s0 :: selected)) /\
     (forall x, In x remaining -> f x <= f c)).
Proof.
  destruct (scan_best remaining None (-1))
    as [Hraise | [Hall [m [d [E Hcase]]]]]; [left; exact Hraise | right].
  destruct Hcase as [[-> [-> Hle]] | [before [c [after [-> [-> [-> [Hc [Hb Ha]]]]]]]]].
  - left. split; [| exact E].
    destruct remaining as [| x rest]; [reflexivity | exfalso].
    pose proof (Hle x (or_introl eq_refl)) as Hx.
    pose proof (separation_nonneg F x s0 selected F_sound). unfold f in Hx. lra.
  - right. exists before, c, after.
    split; [reflexivity |]. split; [exact E |].
    assert (Hmc : measurable F c (s0 :: selected)).
    { apply Hall. apply in_or_app. right. left. reflexivity. }
    split; [| split; [| split; [exact Hall |]]].
    + exists (f c). split; [apply separation_min; exact Hmc |]. split.
      * intros x Hx. exists (f x). split; [| apply Hb; exact Hx].
        apply separation_min. apply Hall. apply in_or_app. left. exact Hx.
      * intros x Hx. exists (f x). split; [| apply Ha; exact Hx].
        apply separation_min. apply Hall. apply in_or_app. right. right.
        exact Hx.
    + clear E Ha Hc Hall Hmc. induction before as [| y before IH]; simpl.
      * destruct (Site_eq_dec c c); [reflexivity | contradiction].
      * destruct (Site_eq_dec y c) as [-> | Hne].
        -- pose proof (Hb c (or_introl eq_refl)). lra.
        -- rewrite IH; [reflexivity |].
           intros x Hx. apply Hb. right. exact Hx.
    + intros x Hx. apply in_app_or in Hx.
      destruct Hx as [Hx | [<- | Hx]];
        [left; apply Hb; exact Hx | lra | apply Ha; exact Hx].
Qed.

End Scan.

(** ** The selection loop *)

Ltac incl_tac :=
  let x := fresh "x" in
  let Hx := fresh "Hx" in
  intros x Hx; cbn [In app] in *; rewrite ?in_app_iff in *; cbn [In] in *;
  tauto.

Lemma select_loop_done (F : FloatLib) (fuel : nat) (n : Z)
    (selected remaining : list Site) :
  (n <= Z.of_nat (List.length selected))%Z ->
  select_loop F fuel n selected remaining = Ok selected.
Proof.
  intros Hn.
  assert (E : (Z.of_nat (List.length selected) <? n)%Z = false)
    by (apply Z.ltb_ge; exact Hn).
  destruct fuel; simpl; rewrite E; reflexivity.
Qed.

(** One turn of the loop. *)
Lemma select_loop_unfold (F : FloatLib) (fuel : nat) (n : Z)
    (selected remaining : list Site) :
  select_loop F (S fuel) n selected remaining
  = if (Z.of_nat (List.length selected) <? n)%Z then
      found <- scan F selected remaining None (-1) ;;
      match fst found with
      | None => Ok selected
      | Some max_site =>
          remaining' <- list_remove max_site remaining ;;
          select_loop F fuel n (selected ++ [max_site]) remaining'
      end
    else Ok selected.
Proof. reflexivity. Qed.

(** [k] more sites to select, at least [k] candidates and a fuel of at least
    [k]: the loop returns after [k] farthest picks, unless a distance cannot
    be computed on the way. *)
Lemma select_loop_greedy (F : FloatLib) (k : nat) :
  sound_floats F ->
  forall (fuel : nat) (n : Z) (s0 : Site) (selected remaining : list Site),
    (k <= List.length remaining)%nat ->
    (k <= fuel)%nat ->
    (Z.of_nat (List.length (s0 :: selected)) + Z.of_nat k = n)%Z ->
    match select_loop F fuel n (s0 :: selected) remaining with
    | Ok final =>
        greedy_selection F k (s0 :: selected) remaining final /\
        List.length final = (List.length (s0 :: selected) + k)%nat
    | Raise e =>
        e = ValueError /\
        distance_fails F remaining (s0 :: selected ++ remaining)
    end.
Proof.
  intros HF.
  induction k as [| k IH]; intros fuel n s0 selected remaining Hrem Hfuel Hn.
  - rewrite select_loop_done by lia. split; [constructor | lia].
  - destruct fuel as [| fuel]; [lia |].
    assert (E : (Z.of_nat (List.length (s0 :: selected)) <? n)%Z = true)
      by (apply Z.ltb_lt; lia).
    rewrite select_loop_unfold, E.
    destruct (scan_from_start F s0 selected HF remaining)
      as [[Hscan Hf] | [[-> _] | [before [c [after [-> [Hscan [Hpick [Hrm _]]]]]]]]].
    + rewrite Hscan. cbn [bind]. split; [reflexivity |].
      apply distance_fails_incl with (3 := Hf); incl_tac.
    + simpl in Hrem. lia.
    + rewrite Hscan. cbn [bind fst]. rewrite Hrm. cbn [bind].
      rewrite length_app in Hrem. cbn [List.length] in Hrem.
      change ((s0 :: selected) ++ [c]) with (s0 :: (selected ++ [c])).
      assert (H1 : (k <= List.length (before ++ after))%nat)
        by (rewrite length_app; lia).
      assert (H2 : (k <= fuel)%nat) by lia.
      assert (H3 : (Z.of_nat (List.length (s0 :: selected ++ [c]))
                    + Z.of_nat k = n)%Z).
      { cbn [List.length] in Hn |- *. rewrite length_app.
        cbn [List.length]. lia. }
      pose proof (IH fuel n s0 (selected ++ [c]) (before ++ after) H1 H2 H3)
        as IHk.
      destruct (select_loop F fuel n (s0 :: selected ++ [c]) (before ++ after))
        as [final | e].
      * destruct IHk as [Hgreedy Hlen]. split.
        -- econstructor; [exact Hpick | exact Hgreedy].
        -- rewrite Hlen. cbn [List.length]. rewrite length_app.
           cbn [List.length]. lia.
      * destruct IHk as [-> Hf]. split; [reflexivity |].
        apply distance_fails_incl with (3 := Hf); incl_tac.
Qed.

Lemma normalize_from_length (i : nat) (selected : list Site) :
  List.length (normalize_from i selected) = List.length selected.
Proof.
  revert i. induction selected as [| s selected IH]; intros i; simpl;
    [reflexivity | f_equal; apply IH].
Qed.

(** The renaming keeps the coordinates and the order. *)
Lemma normalize_from_coordinates (i : nat) (selected : list Site) :
  map (fun s => (latitude s, longitude s)) (normalize_from i selected)
  = map (fun s => (latitude s, longitude s)) selected.
Proof.
  revert i. induction selected as [| s selected IH]; intros i; simpl;
    [reflexivity | f_equal; apply IH].
Qed.

(** ** [select_sites] *)

(** Between one site and the whole pool: the loop never leaves by its [break]
    nor exhausts its fuel.  What it selects is the greedy selection; what it
    raises is the [ValueError] of a distance that cannot be computed. *)
Lemma select_raw_greedy (F : FloatLib) (first : Site) (rest : list Site)
    (n : Z) :
  sound_floats F ->
  (1 <= n <= Z.of_nat (List.length (first :: rest)))%Z ->
  match select_raw F (first :: rest) n with
  | Ok selected =>
      greedy_selection F (Z.to_nat (n - 1)) [first] rest selected /\
      Z.of_nat (List.length selected) = n
  | Raise e => e = ValueError /\ distance_fails F rest (first :: rest)
  end.
Proof.
  intros HF Hn. unfold select_raw.
  assert (E : (Z.of_nat (List.length (first :: rest)) <? n)%Z = false)
    by (apply Z.ltb_ge; lia).
  rewrite E.
  assert (H1 : (Z.to_nat (n - 1) <= List.length rest)%nat)
    by (cbn [List.length] in Hn; lia).
  assert (H2 : (Z.to_nat (n - 1) <= List.length (first :: rest))%nat)
    by (cbn [List.length] in Hn |- *; lia).
  assert (H3 : (Z.of_nat (List.length [first]) + Z.of_nat (Z.to_nat (n - 1))
                = n)%Z) by (cbn [List.length]; lia).
  pose proof (select_loop_greedy F (Z.to_nat (n - 1)) HF
                (List.length (first :: rest)) n first [] rest H1 H2 H3) as H.
  cbn [app] in H.
  destruct (select_loop F (List.length (first :: rest)) n [first] rest)
    as [final | e].
  - destruct H as [Hgreedy Hlen]. split; [exact Hgreedy |].
    rewrite Hlen. cbn [List.length]. lia.
  - exact H.
Qed.

(** Without rounding every distance can be computed: the greedy selection is
    returned. *)
Lemma select_raw_exact (first : Site) (rest : list Site) (n : Z) :
  (1 <= n <= Z.of_nat (List.length (first :: rest)))%Z ->
  exists selected,
    select_raw exact_floats (first :: rest) n = Ok selected /\
    greedy_selection exact_floats (Z.to_nat (n - 1)) [first] rest selected /\
    Z.of_nat (List.length selected) = n.
Proof.
  intros Hn.
  pose proof (select_raw_greedy exact_floats first rest n exact_floats_sound Hn)
    as H.
  destruct (select_raw exact_floats (first :: rest) n) as [selected | e].
  - exists selected. split; [reflexivity | exact H].
  - destruct H as [_ Hf]. exfalso. exact (exact_never_fails _ _ Hf).
Qed.

(** What [select_sites] does on a pool that is not empty: a [ValueError] when
    more sites are asked for than the pool has; otherwise as many sites as
    asked for, but never fewer than one, or, when two sites or more are asked
    for, the [ValueError] of a distance that cannot be computed. *)
Lemma select_sites_outcome (F : FloatLib) (first : Site) (rest : list Site)
    (n : Z) :
  sound_floats F ->
  ((Z.of_nat (List.length (first :: rest)) < n)%Z /\
   select_sites F (first :: rest) n = Raise ValueError) \/
  ((n <= Z.of_nat (List.length (first :: rest)))%Z /\
   match select_sites F (first :: rest) n with
   | Ok sites => Z.of_nat (List.length sites) = Z.max 1 n
   | Raise e =>
       e = ValueError /\ (1 < n)%Z /\ distance_fails F rest (first :: rest)
   end).
Proof.
  intros HF.
  destruct (Z_lt_le_dec (Z.of_nat (List.length (first :: rest))) n) as [Hlt | Hle].
  - left. split; [exact Hlt |].
    unfold select_sites, select_raw.
    apply Z.ltb_lt in Hlt. rewrite Hlt. reflexivity.
  - right. split; [exact Hle |].
    destruct (Z_lt_le_dec 1 n) as [Hn | Hn].
    + pose proof (select_raw_greedy F first rest n HF) as H.
      unfold select_sites.
      destruct (select_raw F (first :: rest) n) as [selected | e]; cbn [bind].
      * destruct H as [_ Hlen]; [lia |].
        rewrite normalize_from_length. lia.
      * destruct H as [-> Hf]; [lia |]. repeat split; assumption.
    + unfold select_sites, select_raw.
      assert (E : (Z.of_nat (List.length (first :: rest)) <? n)%Z = false)
        by (apply Z.ltb_ge; lia).
      rewrite E, select_loop_done by (cbn [List.length]; lia).
      cbn [bind normalize_from List.length]. lia.
Qed.

(** ** The claims on the site selection *)

(** C3, on the code: asked for no site at all out of a pool of four, the
    selection raises nothing and returns one site, the first of the pool,
    whatever the rounding of the floats. *)
Theorem C3_zero_sites_requested (F : FloatLib) :
  select_sites F collinear_pool 0 = Ok [mkSite "site_1_p0" 0 0] /\
  Z.of_nat (List.length [mkSite "site_1_p0" 0 0]) <> 0%Z.
Proof.
  split; [| discriminate].
  unfold select_sites, select_raw, collinear_pool.
  cbn [List.length Z.of_nat Pos.of_succ_nat Pos.succ Z.ltb Z.compare].
  rewrite select_loop_done by (cbn [List.length]; lia).
  reflexivity.
Qed.

(** The distance, without rounding, from a site on the equator to the one at
    longitude 0. *)
Lemma equator_distance (la lb : string) (a : R) :
  -180 < a < 180 ->
  computed_distance exact_floats (on_equator la a) (on_equator lb 0)
  = Ok (6371 * (Rabs a * PI / 180)).
Proof.
  intros H. rewrite computed_distance_exact.
  unfold on_equator. cbn [latitude longitude].
  rewrite great_circle_equator by lra.
  replace (0 - a) with (- a) by ring. rewrite Rabs_Ropp. reflexivity.
Qed.

(** Of the four collinear sites, two are asked for: the first of the pool and
    then the one at longitude 3, as soon as its computed distance is the
    largest of the three. *)
Lemma select_sites_collinear_computed (F : FloatLib) (d1 d2 d3 : R) :
  computed_distance F (on_equator "p1" 1) (on_equator "p0" 0) = Ok d1 ->
  computed_distance F (on_equator "p2" 2) (on_equator "p0" 0) = Ok d2 ->
  computed_distance F (on_equator "p3" 3) (on_equator "p0" 0) = Ok d3 ->
  -1 < d3 -> d1 < d3 -> d2 < d3 ->
  select_sites F collinear_pool 2
  = Ok [mkSite "site_1_p0" 0 0; mkSite "site_2_p3" 0 3].
Proof.
  intros H1 H2 H3 H0 H13 H23.
  unfold select_sites, select_raw, collinear_pool.
  cbn [List.length Z.of_nat Pos.of_succ_nat Pos.succ Z.ltb Z.compare].
  rewrite select_loop_unfold.
  cbn [List.length Z.of_nat Pos.of_succ_nat Z.ltb Z.compare Pos.compare
       Pos.compare_cont].
  cbn [scan]. unfold min_distance. cbn [distances].
  rewrite H1, H2, H3. cbn [bind py_min py_min_from].
  repeat match goal with
         | |- context [Rlt_dec ?a ?b] => destruct (Rlt_dec a b)
         end;
    try (exfalso; lra);
    cbn [bind fst list_remove];
    (destruct (Site_eq_dec (on_equator "p1" 1) (on_equator "p3" 3)) as [E | _];
     [exfalso; injection E; intros; lra |]);
    (destruct (Site_eq_dec (on_equator "p2" 2) (on_equator "p3" 3)) as [E | _];
     [exfalso; injection E; intros; lra |]);
    (destruct (Site_eq_dec (on_equator "p3" 3) (on_equator "p3" 3)) as [_ | Hn];
     [| contradiction]);
    cbn [bind app];
    rewrite select_loop_done by (simpl; lia);
    reflexivity.
Qed.

Lemma select_sites_collinear :
  select_sites exact_floats collinear_pool 2
  = Ok [mkSite "site_1_p0" 0 0; mkSite "site_2_p3" 0 3].
Proof.
  pose proof PI_RGT_0 as Hpi.
  apply (select_sites_collinear_computed exact_floats
           (6371 * (Rabs 1 * PI / 180)) (6371 * (Rabs 2 * PI / 180))
           (6371 * (Rabs 3 * PI / 180)));
    try (apply equator_distance; lra);
    rewrite ?(Rabs_pos_eq 1), ?(Rabs_pos_eq 2), ?(Rabs_pos_eq 3) by lra; nra.
Qed.

(** The renaming on a name of the curated list. *)
Example normalize_los_angeles :
  normalize_from 3 [mkSite "Los Angeles, USA" 34.0522 (-118.2437)]
  = [mkSite "site_4_Los_Angeles_USA" 34.0522 (-118.2437)].
Proof. reflexivity. Qed.

(** Two candidates at the same computed distance from the first site: the one
    that comes first in the pool is selected. *)
Lemma select_sites_tie_computed (F : FloatLib) (d d' : R) :
  computed_distance F (on_equator "east" 1) (on_equator "mid" 0) = Ok d ->
  computed_distance F (on_equator "west" (-1)) (on_equator "mid" 0) = Ok d' ->
  -1 < d -> d' <= d ->
  select_sites F
    [on_equator "mid" 0; on_equator "east" 1; on_equator "west" (-1)] 2
  = Ok [mkSite "site_1_mid" 0 0; mkSite "site_2_east" 0 1].
Proof.
  intros He Hw H0 Hle.
  unfold select_sites, select_raw.
  cbn [List.length Z.of_nat Pos.of_succ_nat Pos.succ Z.ltb Z.compare].
  rewrite select_loop_unfold.
  cbn [List.length Z.of_nat Pos.of_succ_nat Z.ltb Z.compare Pos.compare
       Pos.compare_cont].
  cbn [scan]. unfold min_distance. cbn [distances].
  rewrite He, Hw. cbn [bind py_min py_min_from].
  destruct (Rlt_dec (-1) d) as [_ | Hn]; [| exfalso; lra].
  destruct (Rlt_dec d d') as [Hlt | _]; [exfalso; lra |].
  cbn [bind fst list_remove].
  destruct (Site_eq_dec (on_equator "east" 1) (on_equator "east" 1))
    as [_ | Hn]; [| contradiction].
  cbn [bind].
  rewrite select_loop_done by (simpl; lia).
  reflexivity.
Qed.

Example select_sites_tie :
  select_sites exact_floats
    [on_equator "mid" 0; on_equator "east" 1; on_equator "west" (-1)] 2
  = Ok [mkSite "site_1_mid" 0 0; mkSite "site_2_east" 0 1].
Proof.
  pose proof PI_RGT_0 as Hpi.
  assert (Hw : Rabs (-1) = 1) by (rewrite Rabs_left; lra).
  apply (select_sites_tie_computed exact_floats
           (6371 * (Rabs 1 * PI / 180)) (6371 * (Rabs (-1) * PI / 180)));
    try (apply equator_distance; lra);
    rewrite ?Hw, ?(Rabs_pos_eq 1) by lra; nra.
Qed.

(** Of two candidates the one whose computed distance is larger is selected,
    the first of them when it is not smaller. *)
Lemma select_sites_near_tie (F : FloatLib) (db da : R) :
  computed_distance F (mkSite "b" 11 1) (mkSite "o" 0 0) = Ok db ->
  computed_distance F (mkSite "a" 1 11) (mkSite "o" 0 0) = Ok da ->
  -1 < db ->
  select_sites F tie_pool 2
  = Ok [mkSite "site_1_o" 0 0;
        if Rlt_dec db da then mkSite "site_2_a" 1 11
        else mkSite "site_2_b" 11 1].
Proof.
  intros Hb Ha H0.
  unfold select_sites, select_raw, tie_pool.
  cbn [List.length Z.of_nat Pos.of_succ_nat Pos.succ Z.ltb Z.compare].
  rewrite select_loop_unfold.
  cbn [List.length Z.of_nat Pos.of_succ_nat Z.ltb Z.compare Pos.compare
       Pos.compare_cont].
  cbn [scan]. unfold min_distance. cbn [distances].
  rewrite Hb, Ha. cbn [bind py_min py_min_from].
  destruct (Rlt_dec (-1) db) as [_ | Hn]; [| exfalso; lra].
  destruct (Rlt_dec db da) as [Hlt | Hge]; cbn [bind fst list_remove].
  - destruct (Site_eq_dec (mkSite "b" 11 1) (mkSite "a" 1 11)) as [E | _];
      [exfalso; injection E; intros; lra |].
    destruct (Site_eq_dec (mkSite "a" 1 11) (mkSite "a" 1 11)) as [_ | Hn];
      [| contradiction].
    cbn [bind app].
    rewrite select_loop_done by (simpl; lia).
    reflexivity.
  - destruct (Site_eq_dec (mkSite "b" 11 1) (mkSite "b" 11 1)) as [_ | Hn];
      [| contradiction].
    cbn [bind app].
    rewrite select_loop_done by (simpl; lia).
    reflexivity.
Qed.

Lemma sin_half_sq (x : R) : sin (x / 2) ^ 2 = (1 - cos x) / 2.
Proof.
  pose proof (cos_2a_sin (x / 2)) as H.
  replace (2 * (x / 2)) with x in H by field.
  simpl pow. lra.
Qed.

(** The two candidates of [tie_pool] are at the same great-circle distance
    from its first site. *)
Lemma great_circle_tie : great_circle 11 1 0 0 = great_circle 1 11 0 0.
Proof.
  assert (E : haversine_a exact_floats 11 1 0 0
              = haversine_a exact_floats 1 11 0 0).
  { rewrite !haversine_a_exact, !sin_half_sq.
    replace (radians (0 - 11)) with (- radians 11) by (unfold radians; field).
    replace (radians (0 - 1)) with (- radians 1) by (unfold radians; field).
    replace (radians 0) with 0 by (unfold radians; field).
    rewrite !cos_neg, cos_0. field. }
  unfold great_circle. cbv zeta. rewrite E. reflexivity.
Qed.

(** Without rounding the first of the two is selected. *)
Lemma select_sites_exact_tie :
  select_sites exact_floats tie_pool 2
  = Ok [mkSite "site_1_o" 0 0; mkSite "site_2_b" 11 1].
Proof.
  rewrite (select_sites_near_tie exact_floats (great_circle 11 1 0 0)
             (great_circle 1 11 0 0)).
  - rewrite great_circle_tie.
    destruct (Rlt_dec (great_circle 1 11 0 0) (great_circle 1 11 0 0));
      [exfalso; lra | reflexivity].
  - apply computed_distance_exact.
  - apply computed_distance_exact.
  - pose proof (great_circle_nonneg 11 1 0 0). lra.
Qed.

(** A distance that cannot be computed: for the two antipodal sites, as soon
    as the rounded [1 - a] is negative, the selection of both raises. *)
Lemma select_sites_antipodal (F : FloatLib) :
  fl F (1 - haversine_a F (-8) 180 8 0) < 0 ->
  select_sites F antipodal_pool 2 = Raise ValueError.
Proof.
  intros H.
  assert (Hd : computed_distance F (mkSite "south" (-8) 180)
                 (mkSite "north" 8 0) = Raise ValueError).
  { unfold computed_distance. cbn [latitude longitude].
    destruct (haversine_distance_cases F (-8) 180 8 0)
      as [[_ [Hb _]] | [_ E]]; [lra | exact E]. }
  unfold select_sites, select_raw, antipodal_pool.
  cbn [List.length Z.of_nat Pos.of_succ_nat Pos.succ Z.ltb Z.compare].
  rewrite select_loop_unfold.
  cbn [List.length Z.of_nat Pos.of_succ_nat Z.ltb Z.compare Pos.compare
       Pos.compare_cont].
  cbn [scan]. unfold min_distance. cbn [distances].
  rewrite Hd. reflexivity.
Qed.

Lemma cosine_above_sound : sound_floats cosine_above.
Proof.
  constructor; cbn [fl fl_sqrt fl_atan2 cosine_above].
  - intros x Hx. exact Hx.
  - intros x _. apply sqrt_pos.
  - intros y x Hy _. apply atan2_nonneg. exact Hy.
Qed.

(** With the cosine that errs upwards, [a] exceeds one for the two antipodal
    sites. *)
Lemma cosine_above_antipodal :
  fl cosine_above (1 - haversine_a cosine_above (-8) 180 8 0) < 0.
Proof.
  unfold haversine_a.
  cbn [fl fl_radians fl_sin fl_cos cosine_above]. cbv zeta.
  pose proof PI_RGT_0 as Hpi.
  replace (radians (8 - -8) / 2) with (radians 8) by (unfold radians; field).
  replace (radians (-8)) with (- radians 8) by (unfold radians; field).
  replace (radians (0 - 180) / 2) with (- (PI / 2)) by (unfold radians; field).
  rewrite cos_neg, sin_neg, sin_PI2.
  assert (Hc : 0 < cos (radians 8)) by (apply cos_gt_0; unfold radians; lra).
  assert (Hd : 0 < / 2 ^ 53) by (apply Rinv_0_lt_compat; apply pow_lt; lra).
  pose proof (sin2_cos2 (radians 8)) as Hsc. unfold Rsqr in Hsc.
  set (s := sin (radians 8)) in *. set (c := cos (radians 8)) in *.
  set (d := / 2 ^ 53) in *.
  replace (s ^ 2 + (c + d) * (c + d) * (- (1)) ^ 2)
    with (s * s + c * c + (2 * c * d + d * d)) by ring.
  nra.
Qed.

(** C5: asked for between one site and the whole pool, the selection starts
    from the first site of the pool, and every further site is the remaining
    candidate whose minimum computed haversine distance to the sites selected
    so far is the largest, the first such candidate in pool order; that
    candidate leaves the remaining pool, and the sites are returned renamed.
    The selection does not always get that far: when the rounded [1 - a] of a
    pair of sites is negative, [math.sqrt] raises a [ValueError] and so does
    the selection; for the antipodal sites (8, 0) and (-8, 180) that is the
    case as soon as the rounding makes [a] exceed one.  Of four sites on the
    equator at the longitudes 0, 1, 2 and 3, two are selected, the one at 0
    and then the one at 3, whenever the computed distance of the one at 3 is
    the largest, as it is without rounding.  Of the two candidates at (11, 1)
    and (1, 11), which are at the same great-circle distance from the first
    site at (0, 0), the first is selected without rounding, and the second as
    soon as its computed distance is the larger one. *)
Theorem C5_farthest_point_sampling :
  (forall (F : FloatLib) (first : Site) (rest : list Site) (n : Z),
     sound_floats F ->
     (1 <= n <= Z.of_nat (List.length (first :: rest)))%Z ->
     match select_raw F (first :: rest) n with
     | Ok selected =>
         select_sites F (first :: rest) n = Ok (normalize_from 0 selected) /\
         Z.of_nat (List.length selected) = n /\
         greedy_selection F (Z.to_nat (n - 1)) [first] rest selected
     | Raise e =>
         e = ValueError /\
         select_sites F (first :: rest) n = Raise ValueError /\
         distance_fails F rest (first :: rest)
     end) /\
  (forall F : FloatLib,
     fl F (1 - haversine_a F (-8) 180 8 0) < 0 ->
     select_sites F antipodal_pool 2 = Raise ValueError) /\
  (forall (F : FloatLib) (d1 d2 d3 : R),
     computed_distance F (on_equator "p1" 1) (on_equator "p0" 0) = Ok d1 ->
     computed_distance F (on_equator "p2" 2) (on_equator "p0" 0) = Ok d2 ->
     computed_distance F (on_equator "p3" 3) (on_equator "p0" 0) = Ok d3 ->
     -1 < d3 -> d1 < d3 -> d2 < d3 ->
     select_sites F collinear_pool 2
     = Ok [mkSite "site_1_p0" 0 0; mkSite "site_2_p3" 0 3]) /\
  select_sites exact_floats collinear_pool 2
  = Ok [mkSite "site_1_p0" 0 0; mkSite "site_2_p3" 0 3] /\
  (forall (F : FloatLib) (db da : R),
     computed_distance F (mkSite "b" 11 1) (mkSite "o" 0 0) = Ok db ->
     computed_distance F (mkSite "a" 1 11) (mkSite "o" 0 0) = Ok da ->
     -1 < db ->
     select_sites F tie_pool 2
     = Ok [mkSite "site_1_o" 0 0;
           if Rlt_dec db da then mkSite "site_2_a" 1 11
           else mkSite "site_2_b" 11 1]) /\
  select_sites exact_floats tie_pool 2
  = Ok [mkSite "site_1_o" 0 0; mkSite "site_2_b" 11 1].
Proof.
  split; [| split; [exact select_sites_antipodal |
                    split; [exact select_sites_collinear_computed |
                            split; [exact select_sites_collinear |
                                    split; [exact select_sites_near_tie |
                                            exact select_sites_exact_tie]]]]].
  intros F first rest n HF Hn.
  pose proof (select_raw_greedy F first rest n HF Hn) as H.
  unfold select_sites.
  destruct (select_raw F (first :: rest) n) as [selected | e]; cbn [bind].
  - destruct H as [Hgreedy Hlen]. repeat split; assumption.
  - destruct H as [-> Hf]. repeat split. exact Hf.
Qed.

(** The distances of the collinear sites from the first, without rounding,
    in their order. *)
Lemma collinear_order :
  -1 < 6371 * (Rabs 3 * PI / 180) /\
  6371 * (Rabs 1 * PI / 180) < 6371 * (Rabs 3 * PI / 180) /\
  6371 * (Rabs 2 * PI / 180) < 6371 * (Rabs 3 * PI / 180).
Proof.
  pose proof PI_RGT_0 as Hpi.
  rewrite (Rabs_pos_eq 1), (Rabs_pos_eq 2), (Rabs_pos_eq 3) by lra.
  repeat split; nra.
Qed.

Lemma tie_distance_above : -1 < great_circle 11 1 0 0.
Proof.
  pose proof (great_circle_nonneg 11 1 0 0). lra.
Qed.

(** C5 on the four collinear sites without rounding, three and two of which
    are asked for, on the antipodal sites with the cosine that errs upwards,
    and on the two candidates at the same distance without rounding. *)
Lemma C5_farthest_point_sampling_witness :
  (sound_floats exact_floats /\
   (1 <= 3 <= Z.of_nat (List.length collinear_pool))%Z /\
   match select_raw exact_floats collinear_pool 3 with
   | Ok selected =>
       select_sites exact_floats collinear_pool 3
       = Ok (normalize_from 0 selected) /\
       Z.of_nat (List.length selected) = 3%Z /\
       greedy_selection exact_floats (Z.to_nat (3 - 1)) [on_equator "p0" 0]
         [on_equator "p1" 1; on_equator "p2" 2; on_equator "p3" 3] selected
   | Raise e =>
       e = ValueError /\
       select_sites exact_floats collinear_pool 3 = Raise ValueError /\
       distance_fails exact_floats
         [on_equator "p1" 1; on_equator "p2" 2; on_equator "p3" 3]
         collinear_pool
   end) /\
  (fl cosine_above (1 - haversine_a cosine_above (-8) 180 8 0) < 0 /\
   select_sites cosine_above antipodal_pool 2 = Raise ValueError) /\
  (computed_distance exact_floats (on_equator "p1" 1) (on_equator "p0" 0)
   = Ok (6371 * (Rabs 1 * PI / 180)) /\
   computed_distance exact_floats (on_equator "p2" 2) (on_equator "p0" 0)
   = Ok (6371 * (Rabs 2 * PI / 180)) /\
   computed_distance exact_floats (on_equator "p3" 3) (on_equator "p0" 0)
   = Ok (6371 * (Rabs 3 * PI / 180)) /\
   -1 < 6371 * (Rabs 3 * PI / 180) /\
   6371 * (Rabs 1 * PI / 180) < 6371 * (Rabs 3 * PI / 180) /\
   6371 * (Rabs 2 * PI / 180) < 6371 * (Rabs 3 * PI / 180) /\
   select_sites exact_floats collinear_pool 2
   = Ok [mkSite "site_1_p0" 0 0; mkSite "site_2_p3" 0 3]) /\
  (computed_distance exact_floats (mkSite "b" 11 1) (mkSite "o" 0 0)
   = Ok (great_circle 11 1 0 0) /\
   computed_distance exact_floats (mkSite "a" 1 11) (mkSite "o" 0 0)
   = Ok (great_circle 1 11 0 0) /\
   -1 < great_circle 11 1 0 0 /\
   select_sites exact_floats tie_pool 2
   = Ok [mkSite "site_1_o" 0 0;
         if Rlt_dec (great_circle 11 1 0 0) (great_circle 1 11 0 0)
         then mkSite "site_2_a" 1 11
         else mkSite "site_2_b" 11 1]).
Proof.
  split; [| split; [| split]].
  - split; [exact exact_floats_sound |]. split; [simpl; lia |].
    apply (proj1 C5_farthest_point_sampling exact_floats (on_equator "p0" 0)
             [on_equator "p1" 1; on_equator "p2" 2; on_equator "p3" 3] 3%Z
             exact_floats_sound).
    simpl; lia.
  - split; [exact cosine_above_antipodal |].
    apply (proj1 (proj2 C5_farthest_point_sampling) cosine_above).
    exact cosine_above_antipodal.
  - assert (H1 : computed_distance exact_floats (on_equator "p1" 1)
                   (on_equator "p0" 0) = Ok (6371 * (Rabs 1 * PI / 180)))
      by (apply equator_distance; lra).
    assert (H2 : computed_distance exact_floats (on_equator "p2" 2)
                   (on_equator "p0" 0) = Ok (6371 * (Rabs 2 * PI / 180)))
      by (apply equator_distance; lra).
    assert (H3 : computed_distance exact_floats (on_equator "p3" 3)
                   (on_equator "p0" 0) = Ok (6371 * (Rabs 3 * PI / 180)))
      by (apply equator_distance; lra).
    destruct collinear_order as [H0 [H13 H23]].
    repeat (split; [assumption |]).
    apply (proj1 (proj2 (proj2 C5_farthest_point_sampling)) exact_floats
             _ _ _ H1 H2 H3 H0 H13 H23).
  - split; [apply computed_distance_exact |].
    split; [apply computed_distance_exact |].
    split; [exact tie_distance_above |].
    apply (proj1 (proj2 (proj2 (proj2 (proj2 C5_farthest_point_sampling))))
             exact_floats (great_circle 11 1 0 0) (great_circle 1 11 0 0)
             (computed_distance_exact _ _) (computed_distance_exact _ _)
             tie_distance_above).
Defined.

(** * Further properties of the code *)

(** ** The energy accounts of a run *)

Section Totals.

Variable site : Site.
Variables pv_gw battery_gwh baseload_mwh pv_multiplier capacity_mwh : R.
Variable eff : pynum.

Let step :=
  loop_step site pv_gw battery_gwh baseload_mwh pv_multiplier capacity_mwh
    eff eff.

(** The running totals grow by the sums over the hours the loop goes
    through. *)
Lemma loop_totals (items : list (datetime * R)) (st st' : LoopState) :
  loop step items st = Ok st' ->
  exists hs,
    hours_done st' = hours_done st ++ hs /\
    unmet_total st' = unmet_total st + Rsum (map unmet hs) /\
    overproduction_total st'
    = overproduction_total st + Rsum (map overproduction hs) /\
    served_total st' = served_total st + Rsum (map served hs).
Proof.
  revert st. induction items as [| [dt v] items IH]; intros st H; simpl in H.
  - injection H as <-. exists []. simpl. rewrite app_nil_r.
    repeat split; unfold Rsum; simpl; lra.
  - apply bind_Ok_inv in H. destruct H as [st1 [H1 H]].
    unfold step, loop_step in H1.
    apply bind_Ok_inv in H1. destruct H1 as [h [_ H1]].
    injection H1 as <-.
    apply IH in H. destruct H as [hs [Hhs [Hu [Ho Hs]]]]. simpl in *.
    exists (h :: hs). rewrite Hhs, Hu, Ho, Hs, <- app_assoc.
    unfold Rsum. simpl. repeat split; lra.
Qed.

End Totals.

(** The summary of a run that returns, read off the hours of the run. *)
Lemma simulate_summary (site : Site) (pv_profile : SolarProfile)
    (pv_gw battery_gwh baseload rte : R) (w : list HourlyRow)
    (summary : Summary) (rows : list HourlyRow) (hours : list Hour) :
  _simulate_single_configuration site pv_profile pv_gw battery_gwh baseload
    rte w = Ok (summary, rows, hours) ->
  summary
  = mkSummary (name site) (latitude site) (longitude site) pv_gw battery_gwh
      (baseload * 1000 * len (datetimes pv_profile))
      (Rsum (map served hours)) (Rsum (map unmet hours))
      (Rsum (map overproduction hours))
      (guarded_div (Rsum (map served hours))
         (baseload * 1000 * len (datetimes pv_profile))).
Proof.
  unfold _simulate_single_configuration. intros H.
  apply bind_Ok_inv in H. destruct H as [st [Hl H]].
  rewrite guarded_div_Ok in H. simpl in H. injection H as <- _ <-.
  apply loop_totals in Hl. destruct Hl as [hs [Hhs [Hu [Ho Hs]]]].
  simpl in Hhs, Hu, Ho, Hs. subst hs. rewrite Hu, Ho, Hs, !Rplus_0_l.
  reflexivity.
Qed.

Lemma Rsum_served (load : R) (hours : list Hour) :
  Forall (fun h => served h + unmet h = load) hours ->
  Rsum (map served hours) + Rsum (map unmet hours)
  = load * INR (List.length hours).
Proof.
  intros H. induction H as [| h hours Hh _ IH].
  - unfold Rsum. simpl. lra.
  - change (List.length (h :: hours)) with (S (List.length hours)).
    rewrite S_INR. unfold Rsum in *. simpl. lra.
Qed.

Lemma Rsum_le (f : Hour -> R) (bound : R) (hours : list Hour) :
  Forall (fun h => f h <= bound) hours ->
  Rsum (map f hours) <= bound * INR (List.length hours).
Proof.
  intros H. induction H as [| h hours Hh _ IH].
  - unfold Rsum. simpl. lra.
  - change (List.length (h :: hours)) with (S (List.length hours)).
    rewrite S_INR. unfold Rsum in *. simpl. lra.
Qed.

Lemma Rsum_nonneg (f : Hour -> R) (hours : list Hour) :
  Forall (fun h => 0 <= f h) hours -> 0 <= Rsum (map f hours).
Proof.
  intros H. induction H as [| h hours Hh _ IH]; unfold Rsum in *; simpl; lra.
Qed.

(** Every hour the loop body returns conserves the load and leaves no
    negative unmet load. *)
Lemma simulate_hours_conserve (site : Site) (pv_profile : SolarProfile)
    (pv_gw battery_gwh baseload rte : R) (w : list HourlyRow)
    (summary : Summary) (rows : list HourlyRow) (hours : list Hour) :
  _simulate_single_configuration site pv_profile pv_gw battery_gwh baseload
    rte w = Ok (summary, rows, hours) ->
  List.length hours
  = Nat.min (List.length (datetimes pv_profile))
      (List.length (pv_kwh_per_kw pv_profile)) /\
  Forall (fun h => served h + unmet h = baseload * 1000) hours /\
  Forall (fun h => served h <= baseload * 1000) hours.
Proof.
  intros H. apply simulate_trace in H. destruct H as [HT _].
  split; [| split].
  - apply trace_length in HT. rewrite length_map, zip_length in HT. exact HT.
  - eapply Forall2_Forall_r.
    eapply trace_keeps with (Inv := fun _ => True); [| exact I | exact HT].
    intros soc0 v h _ Hh. split; [exact I |].
    eapply hour_body_conserves. exact Hh.
  - eapply Forall2_Forall_r.
    eapply trace_keeps with (Inv := fun _ => True); [| exact I | exact HT].
    intros soc0 v h _ Hh. split; [exact I |].
    pose proof (hour_body_conserves _ _ _ _ _ _ _ Hh) as Hc.
    assert (0 <= unmet h); [| lra].
    destruct (pow_half rte) as [e |].
    + apply hour_body_float_inv in Hh. cbv zeta in Hh.
      destruct Hh as [[_ ->] | [[_ ->] | [_ ->]]]; simpl; try lra.
      apply Rmax_l.
    + apply hour_body_complex_inv in Hh. subst h. simpl. lra.
Qed.

(** X1: the annual totals of the summary add up.  In a run that returns, the
    energy served and the unmet load of the summary sum to the hourly load
    times the number of hours simulated, which is the length of the shorter
    of the two lists of the profile; the annual load of the summary counts the
    datetimes, so the three agree when the profile has a yield for every
    datetime. *)
Theorem summary_totals_conserve (site : Site) (pv_profile : SolarProfile)
    (pv_gw battery_gwh baseload rte : R) (w : list HourlyRow) :
  match
    _simulate_single_configuration site pv_profile pv_gw battery_gwh baseload
      rte w
  with
  | Ok (summary, _, _) =>
      energy_served_mwh summary + summary_unmet_load_mwh summary
      = baseload * 1000
        * INR (Nat.min (List.length (datetimes pv_profile))
                 (List.length (pv_kwh_per_kw pv_profile))) /\
      annual_load_mwh summary
      = baseload * 1000 * INR (List.length (datetimes pv_profile)) /\
      ((List.length (datetimes pv_profile)
        <= List.length (pv_kwh_per_kw pv_profile))%nat ->
       energy_served_mwh summary + summary_unmet_load_mwh summary
       = annual_load_mwh summary)
  | Raise x => x = TypeError /\ rte < 0
  end.
Proof.
  destruct (_simulate_single_configuration site pv_profile pv_gw battery_gwh
              baseload rte w) as [[[summary rows] hours] | x] eqn:E.
  - pose proof (simulate_summary _ _ _ _ _ _ _ _ _ _ E) as ->.
    destruct (simulate_hours_conserve _ _ _ _ _ _ _ _ _ _ E) as [Hlen [Hc _]].
    apply Rsum_served in Hc. rewrite Hlen in Hc. simpl.
    split; [exact Hc |]. split; [reflexivity |].
    intros Hle. rewrite Hc, Nat.min_l by exact Hle. reflexivity.
  - apply simulate_raises in E. exact E.
Qed.

Lemma guarded_div_le_1 (x y : R) : (0 < y -> x <= y) -> guarded_div x y <= 1.
Proof.
  intros H. unfold guarded_div. destruct (Rlt_dec 0 y) as [Hy | Hy]; [| lra].
  apply Rmult_le_reg_r with y; [exact Hy |].
  unfold Rdiv. rewrite Rmult_assoc, Rinv_l by lra. specialize (H Hy). lra.
Qed.

(** The served energy of a run cannot exceed the annual load the summary
    divides it by. *)
Lemma simulate_capacity_factor_le_1 (site : Site) (pv_profile : SolarProfile)
    (pv_gw battery_gwh baseload rte : R) (w : list HourlyRow)
    (summary : Summary) (rows : list HourlyRow) (hours : list Hour) :
  _simulate_single_configuration site pv_profile pv_gw battery_gwh baseload
    rte w = Ok (summary, rows, hours) ->
  capacity_factor summary <= 1.
Proof.
  intros E.
  pose proof (simulate_summary _ _ _ _ _ _ _ _ _ _ E) as ->.
  destruct (simulate_hours_conserve _ _ _ _ _ _ _ _ _ _ E) as [Hlen [_ Hs]].
  simpl. apply guarded_div_le_1. intros Hpos.
  apply Rsum_le in Hs. unfold len in *.
  assert (Hn : INR (List.length hours) <= INR (List.length (datetimes pv_profile))).
  { apply le_INR. rewrite Hlen. apply Nat.le_min_l. }
  pose proof (pos_INR (List.length (datetimes pv_profile))) as Hd.
  assert (0 < baseload * 1000) by nra.
  nra.
Qed.

(** X2: the capacity factor of a summary never exceeds one, whatever the
    profile and the configuration are, negative yields and capacities
    included. *)
Theorem capacity_factor_at_most_one (site : Site) (pv_profile : SolarProfile)
    (pv_gw battery_gwh baseload rte : R) (w : list HourlyRow) :
  match
    _simulate_single_configuration site pv_profile pv_gw battery_gwh baseload
      rte w
  with
  | Ok (summary, _, _) => capacity_factor summary <= 1
  | Raise x => x = TypeError /\ rte < 0
  end.
Proof.
  destruct (_simulate_single_configuration site pv_profile pv_gw battery_gwh
              baseload rte w) as [[[summary rows] hours] | x] eqn:E.
  - eapply simulate_capacity_factor_le_1. exact E.
  - apply simulate_raises in E. exact E.
Qed.

(** In an hour with a yield and a PV capacity that are not negative, from a
    state of charge within the capacity, the energy served is not negative. *)
Lemma hour_body_served_nonneg (baseload_mwh pv_gw capacity_mwh : R)
    (e soc0 pv_value : R) (h : Hour) :
  0 <= e -> 0 <= baseload_mwh -> 0 <= pv_gw -> 0 <= pv_value ->
  0 <= soc0 <= capacity_mwh ->
  hour_body baseload_mwh (pv_gw * 1000000 / 1000) capacity_mwh (PyFloat e)
    (PyFloat e) soc0 pv_value = Ok h ->
  0 <= served h.
Proof.
  intros He Hb Hp Hv Hs H. apply hour_body_float_inv in H. cbv zeta in H.
  assert (Hsol : 0 <= pv_value * (pv_gw * 1000000 / 1000) / 1000) by nra.
  destruct H as [[Hc ->] | [[Hc ->] | [Hc ->]]]; simpl; try lra.
  assert (Hg : 0 <= guarded_div
                      (baseload_mwh - pv_value * (pv_gw * 1000000 / 1000) / 1000) e)
    by (apply guarded_div_nonneg; lra).
  assert (0 <= Rmin soc0
                 (guarded_div
                    (baseload_mwh - pv_value * (pv_gw * 1000000 / 1000) / 1000) e)
               * e)
    by (apply Rmult_le_pos; [minmax | exact He]).
  match goal with
  | |- 0 <= _ - Rmax 0 ?x =>
      assert (Rmax 0 x <= baseload_mwh) by (apply Rmax_lub; lra)
  end.
  lra.
Qed.

Lemma Forall2_Forall_impl {A B : Type} (P : A -> Prop) (Q : B -> Prop)
    (l1 : list A) (l2 : list B) :
  Forall P l1 -> Forall2 (fun a b => P a -> Q b) l1 l2 -> Forall Q l2.
Proof.
  intros HP H. induction H as [| a b l1 l2 Hab _ IH]; constructor.
  - apply Hab. inversion HP; assumption.
  - apply IH. inversion HP; assumption.
Qed.

Lemma zip_values_Forall {A : Type} (P : R -> Prop) (l1 : list A) (l2 : list R) :
  Forall P l2 -> Forall P (map snd (zip l1 l2)).
Proof.
  intros H. revert l1. induction H as [| v l2 Hv _ IH]; intros [| a l1]; simpl;
    constructor; [exact Hv | apply IH].
Qed.

(** X3: with yields, capacities, load and efficiency that are not negative,
    the run returns and the capacity factor of its summary lies between zero
    and one. *)
Theorem capacity_factor_bounds (site : Site) (pv_profile : SolarProfile)
    (pv_gw battery_gwh baseload rte : R) (w : list HourlyRow) :
  0 <= pv_gw -> 0 <= battery_gwh -> 0 <= baseload -> 0 <= rte ->
  Forall (fun v => 0 <= v) (pv_kwh_per_kw pv_profile) ->
  exists summary rows hours,
    _simulate_single_configuration site pv_profile pv_gw battery_gwh baseload
      rte w = Ok (summary, rows, hours) /\
    0 <= energy_served_mwh summary /\
    0 <= capacity_factor summary <= 1.
Proof.
  intros Hp Hb Hl Hr Hv.
  destruct (simulate_returns site pv_profile pv_gw battery_gwh baseload rte w Hr)
    as [summary [rows [hours E]]].
  exists summary, rows, hours. split; [exact E |].
  pose proof (simulate_capacity_factor_le_1 _ _ _ _ _ _ _ _ _ _ E) as Hle.
  pose proof (simulate_summary _ _ _ _ _ _ _ _ _ _ E) as Hsum.
  apply simulate_trace in E. destruct E as [HT _].
  assert (Hserved : Forall (fun h => 0 <= served h) hours).
  { eapply Forall2_Forall_impl with (P := fun v => 0 <= v);
      [apply (zip_values_Forall _ (datetimes pv_profile)); exact Hv |].
    eapply trace_keeps
      with (Inv := fun s => 0 <= s <= battery_gwh * 1000);
      [| | exact HT]; [| cbv beta; lra].
    intros soc0 v h Hs Hh.
    destruct (pow_half_nonneg rte Hr) as [e [Hpe [He _]]].
    rewrite Hpe in Hh. split.
    - eapply hour_body_soc_bounds; eassumption.
    - intros Hv0.
      apply (hour_body_served_nonneg (baseload * 1000) pv_gw
               (battery_gwh * 1000) e soc0 v h); try assumption. lra. }
  apply (Rsum_nonneg served) in Hserved.
  subst summary. simpl in *. split; [exact Hserved |]. split; [| exact Hle].
  apply guarded_div_nonneg. exact Hserved.
Qed.

(** X3 on the scenario of 1 GW of PV, 1 GWh of battery and 1 GW of load. *)
Lemma capacity_factor_bounds_witness :
  0 <= 1 /\ 0 <= 1 /\ 0 <= 1 /\ 0 <= 0.81 /\
  Forall (fun v => 0 <= v) (pv_kwh_per_kw (one_hour_profile 0.5)) /\
  exists summary rows hours,
    _simulate_single_configuration test_site (one_hour_profile 0.5) 1 1 1 0.81
      [] = Ok (summary, rows, hours) /\
    0 <= energy_served_mwh summary /\
    0 <= capacity_factor summary <= 1.
Proof.
  assert (Hv : Forall (fun v => 0 <= v) (pv_kwh_per_kw (one_hour_profile 0.5)))
    by (repeat constructor; lra).
  repeat (split; [first [lra | exact Hv] |]).
  apply (capacity_factor_bounds test_site (one_hour_profile 0.5) 1 1 1 0.81 []);
    first [lra | exact Hv].
Defined.

(** ** The energy balance of an hour and of the battery *)

(** With a positive one-way efficiency [e] the body neither creates nor loses
    energy, and the battery gains the charge and loses the discharge over
    [e]. *)
Lemma hour_body_balance_sheet (baseload_mwh pv_multiplier capacity_mwh : R)
    (e soc0 pv_value : R) (h : Hour) :
  0 < e ->
  hour_body baseload_mwh pv_multiplier capacity_mwh (PyFloat e) (PyFloat e)
    soc0 pv_value = Ok h ->
  solar_mwh h + discharge_to_load h + unmet h
  = baseload_mwh + charge_added h / e + overproduction h /\
  soc h = soc0 + charge_added h - discharge_to_load h / e.
Proof.
  intros He H. apply hour_body_float_inv in H. cbv zeta in H.
  destruct H as [[Hc ->] | [[Hc ->] | [Hc ->]]]; simpl.
  - set (s := pv_value * pv_multiplier / 1000 - baseload_mwh).
    set (c := Rmin (capacity_mwh - soc0) (s * e)).
    assert (Hg : guarded_div c e = c / e)
      by (unfold guarded_div; destruct (Rlt_dec 0 e); [reflexivity | contradiction]).
    assert (Hce : c / e <= s).
    { apply Rmult_le_reg_r with e; [exact He |].
      unfold Rdiv. rewrite Rmult_assoc, Rinv_l by lra.
      rewrite Rmult_1_r. apply Rmin_r. }
    rewrite Hg, Rmax_right by lra. clearbody c. subst s.
    split; unfold Rdiv; ring.
  - set (d := baseload_mwh - pv_value * pv_multiplier / 1000).
    assert (Hg : guarded_div d e = d / e)
      by (unfold guarded_div; destruct (Rlt_dec 0 e); [reflexivity | contradiction]).
    rewrite Hg.
    assert (Hde : Rmin soc0 (d / e) * e <= d).
    { apply Rle_trans with (d / e * e).
      - apply Rmult_le_compat_r; [lra | apply Rmin_r].
      - right. field. lra. }
    rewrite Rmax_right by lra.
    generalize (Rmin soc0 (d / e)). intros m. subst d.
    split; field; lra.
  - rewrite Hc. split; field; lra.
Qed.

(** X4: with a positive round-trip efficiency every hour of a run balances:
    the solar generation, the discharge and the unmet load cover the load, the
    energy taken for charging (the charge over the one-way efficiency) and the
    overproduction. *)
Theorem hourly_energy_balance (site : Site) (pv_profile : SolarProfile)
    (pv_gw battery_gwh baseload rte : R) (w : list HourlyRow) :
  0 < rte ->
  exists summary rows hours,
    _simulate_single_configuration site pv_profile pv_gw battery_gwh baseload
      rte w = Ok (summary, rows, hours) /\
    Forall
      (fun h =>
         solar_mwh h + discharge_to_load h + unmet h
         = baseload * 1000 + charge_added h / sqrt rte + overproduction h)
      hours.
Proof.
  intros Hr.
  destruct (simulate_every_hour (fun _ => True)
              (fun h =>
                 solar_mwh h + discharge_to_load h + unmet h
                 = baseload * 1000 + charge_added h / sqrt rte
                   + overproduction h)
              site pv_profile pv_gw battery_gwh baseload rte w)
    as [summary [rows [hours [E [_ HF]]]]]; [lra | exact I | |].
  - intros e soc0 v h He Hee _ Hh. split; [exact I |].
    assert (Hs : sqrt rte = e) by (apply sqrt_lem_1; lra).
    assert (0 < e) by (destruct He as [He | <-]; [exact He | lra]).
    rewrite Hs. eapply hour_body_balance_sheet; eassumption.
  - exists summary, rows, hours. split; assumption.
Qed.

(** X4 on the scenario with a round-trip efficiency of 0.81. *)
Lemma hourly_energy_balance_witness :
  0 < 0.81 /\
  exists summary rows hours,
    _simulate_single_configuration test_site (one_hour_profile 0.5) 1 1 1 0.81
      [] = Ok (summary, rows, hours) /\
    Forall
      (fun h =>
         solar_mwh h + discharge_to_load h + unmet h
         = 1 * 1000 + charge_added h / sqrt 0.81 + overproduction h)
      hours.
Proof.
  split; [lra |].
  apply (hourly_energy_balance test_site (one_hour_profile 0.5) 1 1 1 0.81 []).
  lra.
Defined.

(** Along a trace with a positive efficiency the state of charge ends at
    where it started, plus all charges, minus all discharges over [e]. *)
Lemma trace_final_soc (baseload_mwh pv_multiplier capacity_mwh e : R)
    (soc0 : R) (values : list R) (hs : list Hour) :
  0 < e ->
  hourly_trace
    (hour_body baseload_mwh pv_multiplier capacity_mwh (PyFloat e) (PyFloat e))
    soc0 values hs ->
  final_soc soc0 hs
  = soc0 + Rsum (map charge_added hs) - Rsum (map discharge_to_load hs) / e.
Proof.
  intros He HT. induction HT as [soc0 | soc0 v vs h hs Hh HT IH].
  - unfold final_soc, Rsum. simpl. field. lra.
  - apply hour_body_balance_sheet in Hh; [| exact He]. destruct Hh as [_ Hsoc].
    assert (Hf : final_soc soc0 (h :: hs) = final_soc (soc h) hs).
    { unfold final_soc. simpl. destruct (map soc hs) as [| x l] eqn:Em.
      - reflexivity.
      - clear. revert x. induction l as [| y l IHl]; intros x; simpl in *;
          [reflexivity |]. apply IHl. }
    rewrite Hf, IH, Hsoc. unfold Rsum. simpl. field. lra.
Qed.

(** X5: with a positive round-trip efficiency, the state of charge a run ends
    with is half the capacity, plus the sum of the hourly charges, minus the
    sum of the hourly discharges over the one-way efficiency: what the rows
    report accounts for the battery. *)
Theorem battery_bookkeeping (site : Site) (pv_profile : SolarProfile)
    (pv_gw battery_gwh baseload rte : R) (w : list HourlyRow) :
  0 < rte ->
  exists summary rows hours,
    _simulate_single_configuration site pv_profile pv_gw battery_gwh baseload
      rte w = Ok (summary, rows, hours) /\
    final_soc (0.5 * (battery_gwh * 1000)) hours
    = 0.5 * (battery_gwh * 1000) + Rsum (map charge_added hours)
      - Rsum (map discharge_to_load hours) / sqrt rte.
Proof.
  intros Hr.
  destruct (simulate_returns site pv_profile pv_gw battery_gwh baseload rte w)
    as [summary [rows [hours E]]]; [lra |].
  exists summary, rows, hours. split; [exact E |].
  apply simulate_trace in E. destruct E as [HT _].
  unfold pow_half in HT. destruct (Rle_dec 0 rte); [| lra].
  eapply trace_final_soc; [apply sqrt_lt_R0; exact Hr | exact HT].
Qed.

(** X5 on the scenario with a round-trip efficiency of 0.81. *)
Lemma battery_bookkeeping_witness :
  0 < 0.81 /\
  exists summary rows hours,
    _simulate_single_configuration test_site (one_hour_profile 0.5) 1 1 1 0.81
      [] = Ok (summary, rows, hours) /\
    final_soc (0.5 * (1 * 1000)) hours
    = 0.5 * (1 * 1000) + Rsum (map charge_added hours)
      - Rsum (map discharge_to_load hours) / sqrt 0.81.
Proof.
  split; [lra |].
  apply (battery_bookkeeping test_site (one_hour_profile 0.5) 1 1 1 0.81 []).
  lra.
Defined.

(** ** The writer, and the sweep over the configurations *)

(** X6: a run only appends to the hourly writer.  The rows written before are
    kept as they are; behind them comes one row per simulated hour, in the
    order of the profile, with the datetime of the hour, the tags of the
    configuration and the locals of that hour. *)
Theorem writer_appended_in_order (site : Site) (pv_profile : SolarProfile)
    (pv_gw battery_gwh baseload rte : R) (w : list HourlyRow) :
  match
    _simulate_single_configuration site pv_profile pv_gw battery_gwh baseload
      rte w
  with
  | Ok (_, rows, hours) =>
      exists new,
        rows = w ++ new /\
        map row_datetime new
        = map fst (zip (datetimes pv_profile) (pv_kwh_per_kw pv_profile)) /\
        Forall2
          (fun r h =>
             r = mkHourlyRow (row_datetime r) (name site) (latitude site)
                   (longitude site) pv_gw battery_gwh (solar_mwh h)
                   (baseload * 1000) (soc h) (charge_added h)
                   (discharge_to_load h) (unmet h) (overproduction h))
          new hours
  | Raise x => x = TypeError /\ rte < 0
  end.
Proof.
  destruct (_simulate_single_configuration site pv_profile pv_gw battery_gwh
              baseload rte w) as [[[summary rows] hours] | x] eqn:E.
  - apply simulate_trace in E. destruct E as [HT ->].
    apply trace_length in HT. rewrite length_map in HT.
    eexists. split; [reflexivity |].
    revert HT.
    generalize (zip (datetimes pv_profile) (pv_kwh_per_kw pv_profile)).
    clear. intros items. revert hours.
    induction items as [| [dt v] items IH]; intros [| h hours] Hlen;
      simpl in *; try discriminate.
    + split; [reflexivity | constructor].
    + injection Hlen as Hlen. destruct (IH hours Hlen) as [Hd HF].
      split; [f_equal; exact Hd |]. constructor; [reflexivity | exact HF].
  - apply simulate_raises in E. exact E.
Qed.

Section WriterIrrelevant.

Variable site : Site.
Variables pv_gw battery_gwh baseload_mwh pv_multiplier capacity_mwh : R.
Variable eff : pynum.

Let step :=
  loop_step site pv_gw battery_gwh baseload_mwh pv_multiplier capacity_mwh
    eff eff.

(** What the writer holds has no influence on the loop. *)
Lemma loop_writer_irrelevant (items : list (datetime * R))
    (soc0 u o s : R) (w : list HourlyRow) (hd : list Hour) :
  loop step items (mkLoopState soc0 u o s w hd)
  = match loop step items (mkLoopState soc0 u o s [] hd) with
    | Ok st =>
        Ok (mkLoopState (st_soc st) (unmet_total st) (overproduction_total st)
              (served_total st) (w ++ written st) (hours_done st))
    | Raise x => Raise x
    end.
Proof.
  revert soc0 u o s w hd.
  induction items as [| [dt v] items IH]; intros soc0 u o s w hd; simpl.
  - rewrite app_nil_r. reflexivity.
  - change (step ?st (dt, v))
      with (loop_step site pv_gw battery_gwh baseload_mwh pv_multiplier
              capacity_mwh eff eff st (dt, v)).
    unfold loop_step. cbn [st_soc].
    destruct (hour_body baseload_mwh pv_multiplier capacity_mwh eff eff soc0 v)
      as [h | x]; [| reflexivity].
    cbn [bind unmet_total overproduction_total served_total written hours_done].
    rewrite IH. rewrite (IH _ _ _ _ [_]).
    destruct (loop step items _) as [st | x]; [| reflexivity].
    cbn [app]. rewrite <- app_assoc. reflexivity.
Qed.

End WriterIrrelevant.

(** A run on a writer that holds rows already is the run on an empty writer,
    with its rows put behind those. *)
Lemma simulate_writer_irrelevant (site : Site) (pv_profile : SolarProfile)
    (pv_gw battery_gwh baseload rte : R) (w : list HourlyRow) :
  _simulate_single_configuration site pv_profile pv_gw battery_gwh baseload
    rte w
  = match
      _simulate_single_configuration site pv_profile pv_gw battery_gwh
        baseload rte []
    with
    | Ok (summary, rows, hours) => Ok (summary, w ++ rows, hours)
    | Raise x => Raise x
    end.
Proof.
  unfold _simulate_single_configuration.
  rewrite loop_writer_irrelevant.
  destruct (loop _ _ (mkLoopState _ _ _ _ [] _)) as [st | x]; [| reflexivity].
  cbn [bind served_total unmet_total overproduction_total written hours_done].
  rewrite !guarded_div_Ok. reflexivity.
Qed.

Section Sweep.

Variable site : Site.
Variable pv_profile : SolarProfile.
Variable config : SimulationConfig.

Hypothesis rte_nonneg : 0 <= round_trip_efficiency config.

(** The run of one configuration on an empty writer. *)
Let alone (cfg : R * R) (run : Summary * list HourlyRow * list Hour) : Prop :=
  _simulate_single_configuration site pv_profile (fst cfg) (snd cfg)
    (baseload_gw config) (round_trip_efficiency config) [] = Ok run.

Let rows_of (runs : list (Summary * list HourlyRow * list Hour)) :=
  List.concat (map (fun run => snd (fst run)) runs).

Let summaries_of (runs : list (Summary * list HourlyRow * list Hour)) :=
  map (fun run => fst (fst run)) runs.

Lemma battery_sweep_runs (pv_gw : R) (batteries : list R)
    (w : list HourlyRow) (summary_rows : list Summary) :
  exists runs,
    Forall2 alone (map (pair pv_gw) batteries) runs /\
    battery_sweep site pv_profile config pv_gw batteries w summary_rows
    = Ok (w ++ rows_of runs, summary_rows ++ summaries_of runs).
Proof.
  revert w summary_rows.
  induction batteries as [| b batteries IH]; intros w summary_rows.
  - exists []. split; [constructor |].
    unfold rows_of, summaries_of. simpl. rewrite !app_nil_r. reflexivity.
  - destruct (simulate_returns site pv_profile pv_gw b (baseload_gw config)
                (round_trip_efficiency config) [] rte_nonneg)
      as [summary [rows [hours E]]].
    destruct (IH (w ++ rows) (summary_rows ++ [summary])) as [runs [HF Hs]].
    exists ((summary, rows, hours) :: runs). split.
    + constructor; [exact E | exact HF].
    + cbn [battery_sweep]. rewrite simulate_writer_irrelevant, E.
      cbn [bind fst snd]. rewrite Hs.
      unfold rows_of, summaries_of. simpl. rewrite <- !app_assoc. reflexivity.
Qed.

Lemma pv_sweep_runs (pvs : list R) (w : list HourlyRow)
    (summary_rows : list Summary) :
  exists runs,
    Forall2 alone (list_prod pvs (battery_capacities_gwh config)) runs /\
    pv_sweep site pv_profile config pvs w summary_rows
    = Ok (w ++ rows_of runs, summary_rows ++ summaries_of runs).
Proof.
  revert w summary_rows.
  induction pvs as [| pv_gw pvs IH]; intros w summary_rows.
  - exists []. split; [constructor |].
    unfold rows_of, summaries_of. simpl. rewrite !app_nil_r. reflexivity.
  - destruct (battery_sweep_runs pv_gw (battery_capacities_gwh config) w
                summary_rows) as [runs1 [HF1 Hs1]].
    destruct (IH (w ++ rows_of runs1) (summary_rows ++ summaries_of runs1))
      as [runs2 [HF2 Hs2]].
    exists (runs1 ++ runs2). split.
    + simpl. apply Forall2_app; assumption.
    + cbn [pv_sweep]. rewrite Hs1. cbn [bind fst snd]. rewrite Hs2.
      unfold rows_of, summaries_of.
      rewrite !map_app, concat_app, <- !app_assoc. reflexivity.
Qed.

End Sweep.

(** X7: the configurations of a sweep do not influence each other.  With a
    round-trip efficiency that is not negative, [run_yearly_simulation]
    returns, for every pair of a PV and a battery capacity, PV capacities
    outermost, the summary that the configuration gives when it is simulated
    alone, and the hourly file holds the rows of those runs one after the
    other. *)
Theorem sweep_runs_independent (site : Site) (pv_profile : SolarProfile)
    (config : SimulationConfig) :
  0 <= round_trip_efficiency config ->
  exists runs,
    Forall2
      (fun cfg run =>
         _simulate_single_configuration site pv_profile (fst cfg) (snd cfg)
           (baseload_gw config) (round_trip_efficiency config) [] = Ok run)
      (list_prod (pv_capacities_gw config) (battery_capacities_gwh config))
      runs /\
    run_yearly_simulation site pv_profile config
    = Ok (List.concat (map (fun run => snd (fst run)) runs),
          map (fun run => fst (fst run)) runs).
Proof.
  intros Hr.
  destruct (pv_sweep_runs site pv_profile config Hr (pv_capacities_gw config)
              [] []) as [runs [HF Hs]].
  exists runs. split; [exact HF | exact Hs].
Qed.

(** X7 on two PV and two battery capacities over the profile of one hour. *)
Lemma sweep_runs_independent_witness :
  let config := mkSimulationConfig [1; 2] [0; 1] 1 0.81 in
  0 <= round_trip_efficiency config /\
  exists runs,
    Forall2
      (fun cfg run =>
         _simulate_single_configuration test_site (one_hour_profile 0.5)
           (fst cfg) (snd cfg) (baseload_gw config)
           (round_trip_efficiency config) [] = Ok run)
      (list_prod (pv_capacities_gw config) (battery_capacities_gwh config))
      runs /\
    run_yearly_simulation test_site (one_hour_profile 0.5) config
    = Ok (List.concat (map (fun run => snd (fst run)) runs),
          map (fun run => fst (fst run)) runs).
Proof.
  cbv zeta. split; [simpl; lra |].
  apply (sweep_runs_independent test_site (one_hour_profile 0.5)
           (mkSimulationConfig [1; 2] [0; 1] 1 0.81)).
  simpl; lra.
Defined.

Lemma Forall2_map_eq {A B C : Type} (P : A -> B -> Prop) (f : A -> C)
    (g : B -> C) (l1 : list A) (l2 : list B) :
  (forall a b, P a b -> g b = f a) ->
  Forall2 P l1 l2 -> map g l2 = map f l1.
Proof.
  intros Hfg H. induction H as [| a b l1 l2 Hab _ IH]; simpl;
    [reflexivity | f_equal; [apply Hfg; exact Hab | exact IH]].
Qed.

Lemma Forall2_concat_length {A B C : Type} (P : A -> B -> Prop)
    (g : B -> list C) (k : nat) (l1 : list A) (l2 : list B) :
  (forall a b, P a b -> List.length (g b) = k) ->
  Forall2 P l1 l2 ->
  List.length (List.concat (map g l2)) = (List.length l1 * k)%nat.
Proof.
  intros Hg H. induction H as [| a b l1 l2 Hab _ IH]; simpl;
    [reflexivity |].
  rewrite length_app, IH, (Hg a b Hab). reflexivity.
Qed.

(** A run on an empty writer writes as many rows as it simulates hours. *)
Lemma simulate_rows_count (site : Site) (pv_profile : SolarProfile)
    (pv_gw battery_gwh baseload rte : R)
    (summary : Summary) (rows : list HourlyRow) (hours : list Hour) :
  _simulate_single_configuration site pv_profile pv_gw battery_gwh baseload
    rte [] = Ok (summary, rows, hours) ->
  List.length rows
  = Nat.min (List.length (datetimes pv_profile))
      (List.length (pv_kwh_per_kw pv_profile)).
Proof.
  intros E. apply simulate_trace in E. destruct E as [HT ->].
  apply trace_length in HT. rewrite length_map, zip_length in HT.
  cbn [app]. rewrite length_map, length_combine, zip_length, HT.
  apply Nat.min_id.
Qed.

(** X8: the size and the order of a sweep.  With a round-trip efficiency that
    is not negative the summaries come tagged with the pairs of capacities in
    the order of the nested loops, one per pair, and the hourly file gets as
    many rows per pair as the profile has hours. *)
Theorem sweep_order_and_size (site : Site) (pv_profile : SolarProfile)
    (config : SimulationConfig) :
  0 <= round_trip_efficiency config ->
  exists hourly summary_rows,
    run_yearly_simulation site pv_profile config = Ok (hourly, summary_rows) /\
    map (fun s => (summary_pv_gw s, summary_battery_gwh s)) summary_rows
    = list_prod (pv_capacities_gw config) (battery_capacities_gwh config) /\
    List.length summary_rows
    = (List.length (pv_capacities_gw config)
       * List.length (battery_capacities_gwh config))%nat /\
    List.length hourly
    = (List.length summary_rows
       * Nat.min (List.length (datetimes pv_profile))
           (List.length (pv_kwh_per_kw pv_profile)))%nat.
Proof.
  intros Hr.
  destruct (pv_sweep_runs site pv_profile config Hr (pv_capacities_gw config)
              [] []) as [runs [HF Hs]].
  do 2 eexists. split; [exact Hs |].
  cbn [app].
  assert (Htags :
            map (fun s => (summary_pv_gw s, summary_battery_gwh s))
              (map (fun run => fst (fst run)) runs)
            = list_prod (pv_capacities_gw config)
                (battery_capacities_gwh config)).
  { rewrite map_map, <- (map_id (list_prod _ _)).
    eapply Forall2_map_eq; [| exact HF].
    intros [pv b] [[summary rows] hours] E. cbn [fst snd] in *.
    apply simulate_summary in E. subst summary. reflexivity. }
  split; [exact Htags |]. split.
  - rewrite <- length_prod, <- Htags, !length_map. reflexivity.
  - rewrite length_map, <- (Forall2_length HF).
    eapply Forall2_concat_length; [| exact HF].
    intros [pv b] [[summary rows] hours] E. cbn [fst snd] in *.
    eapply simulate_rows_count. exact E.
Qed.

(** X8 on two PV and two battery capacities over the profile of one hour. *)
Lemma sweep_order_and_size_witness :
  let config := mkSimulationConfig [1; 2] [0; 1] 1 0.81 in
  0 <= round_trip_efficiency config /\
  exists hourly summary_rows,
    run_yearly_simulation test_site (one_hour_profile 0.5) config
    = Ok (hourly, summary_rows) /\
    map (fun s => (summary_pv_gw s, summary_battery_gwh s)) summary_rows
    = list_prod (pv_capacities_gw config) (battery_capacities_gwh config) /\
    List.length summary_rows
    = (List.length (pv_capacities_gw config)
       * List.length (battery_capacities_gwh config))%nat /\
    List.length hourly
    = (List.length summary_rows
       * Nat.min (List.length (datetimes (one_hour_profile 0.5)))
           (List.length (pv_kwh_per_kw (one_hour_profile 0.5))))%nat.
Proof.
  cbv zeta. split; [simpl; lra |].
  apply (sweep_order_and_size test_site (one_hour_profile 0.5)
           (mkSimulationConfig [1; 2] [0; 1] 1 0.81)).
  simpl; lra.
Defined.

(** ** The haversine distance as a distance *)

Lemma atan2_quadrant (y x : R) : 0 <= y -> 0 <= x -> atan2 y x <= PI / 2.
Proof.
  intros Hy Hx. unfold atan2. pose proof PI_RGT_0 as Hpi.
  destruct (Rlt_dec 0 x) as [Hx' | Hx'].
  - pose proof (atan_bound (y / x)). lra.
  - destruct (Rlt_dec x 0); [lra |].
    destruct (Rlt_dec 0 y); [lra |].
    destruct (Rlt_dec y 0); lra.
Qed.

Lemma great_circle_range (lat1 lon1 lat2 lon2 : R) :
  0 <= great_circle lat1 lon1 lat2 lon2 <= 6371 * PI.
Proof.
  split; [apply great_circle_nonneg |].
  unfold great_circle. cbv zeta.
  pose proof (atan2_quadrant
                (sqrt (haversine_a exact_floats lat1 lon1 lat2 lon2))
                (sqrt (1 - haversine_a exact_floats lat1 lon1 lat2 lon2))
                (sqrt_pos _) (sqrt_pos _)).
  lra.
Qed.

(** X9: what [haversine_distance] returns and when it raises.  It raises,
    and then a [ValueError], exactly when the computed [a] or the rounded
    [1 - a] is negative; what it returns is not negative.  Without rounding
    it raises for no coordinates at all, and what it returns lies between
    zero and half the circumference of the sphere of 6371 km. *)
Theorem haversine_distance_range :
  (forall (F : FloatLib) (lat1 lon1 lat2 lon2 : R),
     sound_floats F ->
     match haversine_distance F lat1 lon1 lat2 lon2 with
     | Ok d =>
         0 <= d /\
         0 <= haversine_a F lat1 lon1 lat2 lon2 /\
         0 <= fl F (1 - haversine_a F lat1 lon1 lat2 lon2)
     | Raise e =>
         e = ValueError /\
         (haversine_a F lat1 lon1 lat2 lon2 < 0 \/
          fl F (1 - haversine_a F lat1 lon1 lat2 lon2) < 0)
     end) /\
  (forall (F : FloatLib) (lat1 lon1 lat2 lon2 : R),
     haversine_a F lat1 lon1 lat2 lon2 < 0 \/
     fl F (1 - haversine_a F lat1 lon1 lat2 lon2) < 0 ->
     haversine_distance F lat1 lon1 lat2 lon2 = Raise ValueError) /\
  (forall lat1 lon1 lat2 lon2 : R,
     exists d,
       haversine_distance exact_floats lat1 lon1 lat2 lon2 = Ok d /\
       0 <= d <= 6371 * PI).
Proof.
  split; [| split].
  - intros F lat1 lon1 lat2 lon2 HF.
    destruct (haversine_distance F lat1 lon1 lat2 lon2) as [d | e] eqn:E.
    + split; [apply (haversine_distance_nonneg F _ _ _ _ d HF E) |].
      destruct (haversine_distance_cases F lat1 lon1 lat2 lon2)
        as [[Ha [Hb _]] | [_ E']]; [split; assumption |].
      rewrite E' in E. discriminate.
    + apply haversine_distance_raises. exact E.
  - intros F lat1 lon1 lat2 lon2 Hneg.
    destruct (haversine_distance_cases F lat1 lon1 lat2 lon2)
      as [[Ha [Hb _]] | [_ E]]; [lra | exact E].
  - intros lat1 lon1 lat2 lon2. exists (great_circle lat1 lon1 lat2 lon2).
    split; [apply haversine_distance_Ok | apply great_circle_range].
Qed.

(** X9 from Paris to Sydney without rounding, and between the antipodal
    sites with the cosine that errs upwards. *)
Lemma haversine_distance_range_witness :
  (sound_floats exact_floats /\
   match haversine_distance exact_floats 48.8566 2.3522 (-33.8688) 151.2093 with
   | Ok d =>
       0 <= d /\
       0 <= haversine_a exact_floats 48.8566 2.3522 (-33.8688) 151.2093 /\
       0 <= fl exact_floats
              (1 - haversine_a exact_floats 48.8566 2.3522 (-33.8688) 151.2093)
   | Raise e =>
       e = ValueError /\
       (haversine_a exact_floats 48.8566 2.3522 (-33.8688) 151.2093 < 0 \/
        fl exact_floats
          (1 - haversine_a exact_floats 48.8566 2.3522 (-33.8688) 151.2093) < 0)
   end) /\
  ((haversine_a cosine_above (-8) 180 8 0 < 0 \/
    fl cosine_above (1 - haversine_a cosine_above (-8) 180 8 0) < 0) /\
   haversine_distance cosine_above (-8) 180 8 0 = Raise ValueError).
Proof.
  split.
  - split; [exact exact_floats_sound |].
    apply (proj1 haversine_distance_range exact_floats 48.8566 2.3522
             (-33.8688) 151.2093 exact_floats_sound).
  - split; [right; exact cosine_above_antipodal |].
    apply (proj1 (proj2 haversine_distance_range) cosine_above (-8) 180 8 0).
    right. exact cosine_above_antipodal.
Defined.

Lemma haversine_a_symmetric (F : FloatLib) (lat1 lon1 lat2 lon2 : R) :
  odd_floats F ->
  haversine_a F lat1 lon1 lat2 lon2 = haversine_a F lat2 lon2 lat1 lon1.
Proof.
  intros [Hfl [Hrad Hsin]].
  assert (Hhalf : forall x y,
            fl_sin F (fl F (fl_radians F (fl F (x - y)) / 2)) ^ 2
            = fl_sin F (fl F (fl_radians F (fl F (y - x)) / 2)) ^ 2).
  { intros x y.
    replace (x - y) with (- (y - x)) by ring.
    rewrite Hfl, Hrad.
    replace (- fl_radians F (fl F (y - x)) / 2)
      with (- (fl_radians F (fl F (y - x)) / 2)) by field.
    rewrite Hfl, Hsin. ring. }
  unfold haversine_a. cbv zeta.
  rewrite (Hhalf lat2 lat1), (Hhalf lon2 lon1).
  rewrite (Rmult_comm (fl_cos F (fl_radians F lat1))).
  reflexivity.
Qed.

Lemma exact_floats_odd : odd_floats exact_floats.
Proof.
  unfold odd_floats. exact_values. repeat split.
  - intros x. unfold radians. field.
  - intros x. apply sin_neg.
Qed.

(** X10: the distance does not depend on the order of the two points, as
    long as rounding, [math.radians] and [math.sin] commute with the change
    of sign, as they do without rounding; and, without rounding, the
    distance from a point to itself is zero. *)
Theorem haversine_distance_symmetric (lat1 lon1 lat2 lon2 : R) :
  (forall F : FloatLib,
     odd_floats F ->
     haversine_distance F lat1 lon1 lat2 lon2
     = haversine_distance F lat2 lon2 lat1 lon1) /\
  haversine_distance exact_floats lat1 lon1 lat2 lon2
  = haversine_distance exact_floats lat2 lon2 lat1 lon1 /\
  haversine_distance exact_floats lat1 lon1 lat1 lon1 = Ok 0.
Proof.
  assert (Hsym : forall F : FloatLib,
            odd_floats F ->
            haversine_distance F lat1 lon1 lat2 lon2
            = haversine_distance F lat2 lon2 lat1 lon1).
  { intros F HF. unfold haversine_distance. cbv zeta.
    rewrite (haversine_a_symmetric F lat1 lon1 lat2 lon2 HF). reflexivity. }
  split; [exact Hsym |]. split; [apply Hsym; exact exact_floats_odd |].
  rewrite haversine_distance_Ok. f_equal.
  unfold great_circle. cbv zeta. rewrite haversine_a_exact.
  replace (radians (lat1 - lat1) / 2) with 0 by (unfold radians; field).
  replace (radians (lon1 - lon1) / 2) with 0 by (unfold radians; field).
  rewrite sin_0.
  replace (0 ^ 2 + cos (radians lat1) * cos (radians lat1) * 0 ^ 2) with 0
    by ring.
  rewrite Rminus_0_r, sqrt_0, sqrt_1.
  unfold atan2. destruct (Rlt_dec 0 1); [| lra].
  unfold Rdiv. rewrite Rmult_0_l, atan_0. ring.
Qed.

(** X10 between Paris and Sydney, without rounding. *)
Lemma haversine_distance_symmetric_witness :
  odd_floats exact_floats /\
  haversine_distance exact_floats 48.8566 2.3522 (-33.8688) 151.2093
  = haversine_distance exact_floats (-33.8688) 151.2093 48.8566 2.3522.
Proof.
  split; [exact exact_floats_odd |].
  apply (proj1 (haversine_distance_symmetric 48.8566 2.3522 (-33.8688)
                  151.2093) exact_floats).
  exact exact_floats_odd.
Defined.

(** ** What a selection is made of *)

Lemma list_remove_Permutation (x : Site) (l l' : list Site) :
  list_remove x l = Ok l' -> Permutation l (x :: l').
Proof.
  revert l'. induction l as [| y l IH]; intros l' H; simpl in H.
  - discriminate.
  - destruct (Site_eq_dec y x) as [-> | Hne].
    + injection H as <-. reflexivity.
    + apply bind_Ok_inv in H. destruct H as [r [Hr H]].
      injection H as <-. rewrite (IH r Hr). apply perm_swap.
Qed.

(** The loop moves sites from the remaining pool to the end of the selected
    ones, and moves nothing else. *)
Lemma select_loop_moves (F : FloatLib) (fuel : nat) (n : Z) :
  forall (selected remaining final : list Site),
    select_loop F fuel n selected remaining = Ok final ->
    exists picked left,
      final = selected ++ picked /\ Permutation remaining (picked ++ left).
Proof.
  induction fuel as [| fuel IH]; intros selected remaining final H.
  - simpl in H. destruct (Z.of_nat (List.length selected) <? n)%Z;
      [discriminate |].
    injection H as <-. exists [], remaining. rewrite app_nil_r.
    split; reflexivity.
  - rewrite select_loop_unfold in H.
    destruct (Z.of_nat (List.length selected) <? n)%Z.
    + apply bind_Ok_inv in H. destruct H as [[m d] [_ H]]. cbn [fst] in H.
      destruct m as [c |].
      * apply bind_Ok_inv in H. destruct H as [remaining' [Hrm H]].
        apply IH in H. destruct H as [picked [left [-> Hp]]].
        exists (c :: picked), left. split.
        -- rewrite <- app_assoc. reflexivity.
        -- rewrite (list_remove_Permutation _ _ _ Hrm). simpl.
           constructor. exact Hp.
      * injection H as <-. exists [], remaining. rewrite app_nil_r.
        split; reflexivity.
    + injection H as <-. exists [], remaining. rewrite app_nil_r.
      split; reflexivity.
Qed.

(** The first distance the selection computes is the one from the second
    site of the pool to the first: when it cannot be computed, the selection
    of two sites or more raises. *)
Lemma select_sites_first_distance (F : FloatLib) (first second : Site)
    (rest : list Site) (n : Z) :
  (2 <= n <= Z.of_nat (List.length (first :: second :: rest)))%Z ->
  computed_distance F second first = Raise ValueError ->
  select_sites F (first :: second :: rest) n = Raise ValueError.
Proof.
  intros Hn Hd. unfold select_sites, select_raw.
  assert (E : (Z.of_nat (List.length (first :: second :: rest)) <? n)%Z = false)
    by (apply Z.ltb_ge; lia).
  rewrite E. cbn [List.length]. rewrite select_loop_unfold.
  assert (E' : (Z.of_nat (List.length [first]) <? n)%Z = true)
    by (apply Z.ltb_lt; cbn [List.length]; lia).
  rewrite E'. cbn [scan]. unfold min_distance. cbn [distances].
  rewrite Hd. reflexivity.
Qed.

(** X11: what [select_sites] raises and what it selects from.  It raises a
    [ValueError] when more sites are asked for than the pool has, and an
    [IndexError] on an empty pool of which no site is asked for.  Asked for
    two sites or more of a pool that has them, it raises the [ValueError] of
    [math.sqrt] when the distance from the second site of the pool to the
    first cannot be computed.  In all other cases it either returns the
    renaming of a selection that starts with the first site of the pool, uses
    every entry of the pool at most once and has as many sites as asked for,
    but never fewer than one; or two sites or more are asked for and it
    raises a [ValueError], that of a distance from a candidate to a site of
    the pool that cannot be computed. *)
Theorem selection_drawn_from_pool (F : FloatLib) (pool : list Site) (n : Z) :
  sound_floats F ->
  ((Z.of_nat (List.length pool) < n)%Z ->
   select_sites F pool n = Raise ValueError) /\
  (pool = [] -> (n <= 0)%Z -> select_sites F pool n = Raise IndexError) /\
  (forall first second rest,
     pool = first :: second :: rest ->
     (2 <= n <= Z.of_nat (List.length pool))%Z ->
     computed_distance F second first = Raise ValueError ->
     select_sites F pool n = Raise ValueError) /\
  ((n <= Z.of_nat (List.length pool))%Z -> pool <> [] ->
   match select_sites F pool n with
   | Ok sites =>
       exists first rest picked left,
         pool = first :: rest /\
         sites = normalize_from 0 (first :: picked) /\
         Permutation rest (picked ++ left) /\
         Z.of_nat (List.length sites) = Z.max 1 n
   | Raise e =>
       e = ValueError /\ (1 < n)%Z /\ distance_fails F (tl pool) pool
   end).
Proof.
  intros HF. split; [| split; [| split]].
  - intros Hlt. unfold select_sites, select_raw.
    apply Z.ltb_lt in Hlt. rewrite Hlt. reflexivity.
  - intros -> Hn. unfold select_sites, select_raw.
    assert (E : (Z.of_nat (List.length (@nil Site)) <? n)%Z = false)
      by (apply Z.ltb_ge; simpl; lia).
    rewrite E. reflexivity.
  - intros first second rest -> Hn Hd.
    apply select_sites_first_distance; assumption.
  - intros Hle Hne. destruct pool as [| first rest]; [contradiction |].
    destruct (select_sites_outcome F first rest n HF) as [[Hlt _] | [_ H]];
      [lia |].
    unfold select_sites in *.
    destruct (select_raw F (first :: rest) n) as [selected | e] eqn:Hraw;
      cbn [bind] in *.
    + unfold select_raw in Hraw.
      assert (E : (Z.of_nat (List.length (first :: rest)) <? n)%Z = false)
        by (apply Z.ltb_ge; exact Hle).
      rewrite E in Hraw.
      apply select_loop_moves in Hraw. destruct Hraw as [picked [left [-> Hp]]].
      exists first, rest, picked, left. repeat split; assumption.
    + exact H.
Qed.

(** X11 on the four collinear sites without rounding, two of which are asked
    for. *)
Lemma selection_drawn_from_pool_witness :
  sound_floats exact_floats /\
  (2 <= Z.of_nat (List.length collinear_pool))%Z /\
  collinear_pool <> [] /\
  match select_sites exact_floats collinear_pool 2 with
  | Ok sites =>
      exists first rest picked left,
        collinear_pool = first :: rest /\
        sites = normalize_from 0 (first :: picked) /\
        Permutation rest (picked ++ left) /\
        Z.of_nat (List.length sites) = Z.max 1 2
  | Raise e =>
      e = ValueError /\ (1 < 2)%Z /\
      distance_fails exact_floats (tl collinear_pool) collinear_pool
  end.
Proof.
  split; [exact exact_floats_sound |]. split; [simpl; lia |].
  split; [discriminate |].
  apply (proj2 (proj2 (proj2 (selection_drawn_from_pool exact_floats
                                collinear_pool 2 exact_floats_sound))));
    [simpl; lia | discriminate].
Defined.

(** ** The names of the selected sites *)

Lemma string_has_append (c : ascii) (a b : string) :
  string_has c (a ++ b) <-> string_has c a \/ string_has c b.
Proof.
  unfold string_has. induction a as [| x a IH]; simpl.
  - tauto.
  - rewrite IH. tauto.
Qed.

(** A replacement leaves no occurrence of the replaced character, unless the
    replacement brings it. *)
Lemma str_replace_removes (old : ascii) (new s : string) :
  ~ string_has old new -> ~ string_has old (str_replace old new s).
Proof.
  intros Hnew. induction s as [| c s IH]; simpl.
  - intros [].
  - destruct (Ascii.eqb c old) eqn:E.
    + rewrite string_has_append. tauto.
    + apply Ascii.eqb_neq in E. unfold string_has in *. simpl.
      intros [H | H]; [congruence | tauto].
Qed.

(** A replacement brings no character that neither the string nor the
    replacement has. *)
Lemma str_replace_brings_nothing (c old : ascii) (new s : string) :
  ~ string_has c new -> ~ string_has c s ->
  ~ string_has c (str_replace old new s).
Proof.
  intros Hnew. induction s as [| x s IH]; simpl; intros Hs.
  - exact Hs.
  - assert (Hx : x <> c /\ ~ string_has c s)
      by (unfold string_has in *; simpl in Hs; tauto).
    destruct Hx as [Hx Hs']. destruct (Ascii.eqb x old).
    + rewrite string_has_append. specialize (IH Hs'). tauto.
    + unfold string_has in *. simpl. specialize (IH Hs').
      intros [H | H]; [congruence | tauto].
Qed.

(** The decimal digits of a number are neither blank, comma nor underscore. *)
Lemma str_of_nat_digits (c : ascii) (i : nat) :
  string_has c (str_of_nat i) -> In c (list_ascii_of_string "0123456789").
Proof.
  unfold str_of_nat, string_has. generalize (Nat.to_uint i). intros d.
  induction d as [| d IH | d IH | d IH | d IH | d IH | d IH | d IH | d IH
                 | d IH | d IH]; simpl; intros H;
    [contradiction | destruct H as [<- | H]; [tauto | apply IH in H; simpl in H; exact H] ..].
Qed.

Lemma str_of_nat_plain (c : ascii) (i : nat) :
  c = " "%char \/ c = ","%char \/ c = "_"%char -> ~ string_has c (str_of_nat i).
Proof.
  intros Hc H. apply str_of_nat_digits in H. simpl in H.
  destruct Hc as [-> | [-> | ->]];
    repeat (destruct H as [H | H]; [discriminate |]); exact H.
Qed.

Lemma str_of_nat_inj (i j : nat) : str_of_nat i = str_of_nat j -> i = j.
Proof.
  unfold str_of_nat. intros H.
  apply Unsigned.to_uint_inj.
  pose proof (NilEmpty.usu (Nat.to_uint i)) as Hi.
  pose proof (NilEmpty.usu (Nat.to_uint j)) as Hj.
  rewrite H in Hi. rewrite Hi in Hj. injection Hj as Hj. exact Hj.
Qed.

(** Two strings without underscore, each followed by an underscore and more,
    are equal when the whole strings are. *)
Lemma rank_determined (d1 d2 a b : string) :
  ~ string_has "_" d1 -> ~ string_has "_" d2 ->
  (d1 ++ "_" ++ a)%string = (d2 ++ "_" ++ b)%string -> d1 = d2.
Proof.
  revert d2. induction d1 as [| c d1 IH]; intros [| c' d2] H1 H2 H;
    simpl in H.
  - reflexivity.
  - injection H as Hc _. exfalso. apply H2. unfold string_has. simpl.
    left. symmetry. exact Hc.
  - injection H as Hc _. exfalso. apply H1. unfold string_has. simpl.
    left. exact Hc.
  - injection H as -> H. f_equal. apply IH with (d2 := d2); try exact H.
    + unfold string_has in *. simpl in H1. tauto.
    + unfold string_has in *. simpl in H2. tauto.
Qed.

(** The name given to the site of rank [i + 1]. *)
Lemma normalize_from_names (i : nat) (selected : list Site) (x : string) :
  In x (map name (normalize_from i selected)) ->
  exists k s,
    (i <= k)%nat /\ In s selected /\
    x = ("site_" ++ str_of_nat (k + 1) ++ "_"
         ++ str_replace "," "" (str_replace " " "_" (name s)))%string.
Proof.
  revert i. induction selected as [| s selected IH]; intros i H; simpl in H.
  - contradiction.
  - destruct H as [<- | H].
    + exists i, s. repeat split; [lia | left; reflexivity].
    + apply IH in H. destruct H as [k [s' [Hk [Hs' ->]]]].
      exists k, s'. repeat split; [lia | right; exact Hs'].
Qed.

Lemma normalize_from_NoDup (i : nat) (selected : list Site) :
  NoDup (map name (normalize_from i selected)).
Proof.
  revert i. induction selected as [| s selected IH]; intros i; simpl.
  - constructor.
  - constructor; [| apply IH].
    intros H. apply normalize_from_names in H.
    destruct H as [k [s' [Hk [_ H]]]].
    injection H as H.
    apply rank_determined in H;
      [| apply str_of_nat_plain; tauto | apply str_of_nat_plain; tauto].
    apply str_of_nat_inj in H. lia.
Qed.

Lemma site_name_safe (c : ascii) (rank safe : string) :
  c = " "%char \/ c = ","%char ->
  ~ string_has c rank -> ~ string_has c safe ->
  ~ string_has c ("site_" ++ rank ++ "_" ++ safe).
Proof.
  intros Hc Hrank Hsafe. rewrite !string_has_append.
  intros [H | [H | [H | H]]]; try tauto;
    unfold string_has in H; simpl in H;
    destruct Hc as [-> | ->];
    repeat (destruct H as [H | H]; [discriminate |]); exact H.
Qed.

Lemma normalize_from_safe (i : nat) (selected : list Site) :
  Forall
    (fun s => ~ string_has " " (name s) /\ ~ string_has "," (name s))
    (normalize_from i selected).
Proof.
  revert i. induction selected as [| s selected IH]; intros i;
    cbn [normalize_from]; constructor; [| apply IH].
  cbn [name]. split.
  - apply site_name_safe; [tauto | apply str_of_nat_plain; tauto |].
    apply str_replace_brings_nothing; [intros [] |].
    apply str_replace_removes. unfold string_has. simpl.
    intros [H | []]. discriminate.
  - apply site_name_safe; [tauto | apply str_of_nat_plain; tauto |].
    apply str_replace_removes. intros [].
Qed.
(** X12: the names [select_sites] gives are fit for file names and tell the
    sites apart: no name holds a blank or a comma, and no two sites of a
    selection have the same name, even when their original names agree;
    whatever the rounding of the floats. *)
Theorem selected_names_safe_and_distinct (F : FloatLib) (pool : list Site)
    (n : Z) (sites : list Site) :
  select_sites F pool n = Ok sites ->
  Forall (fun s => ~ string_has " " (name s) /\ ~ string_has "," (name s))
    sites /\
  NoDup (map name sites).
Proof.
  unfold select_sites. intros H.
  apply bind_Ok_inv in H. destruct H as [selected [_ H]].
  injection H as <-.
  split; [apply normalize_from_safe | apply normalize_from_NoDup].
Qed.

(** X12 on the four collinear sites, two of which are asked for. *)
Lemma selected_names_safe_and_distinct_witness :
  select_sites exact_floats collinear_pool 2
  = Ok [mkSite "site_1_p0" 0 0; mkSite "site_2_p3" 0 3] /\
  Forall (fun s => ~ string_has " " (name s) /\ ~ string_has "," (name s))
    [mkSite "site_1_p0" 0 0; mkSite "site_2_p3" 0 3] /\
  NoDup (map name [mkSite "site_1_p0" 0 0; mkSite "site_2_p3" 0 3]).
Proof.
  split; [exact select_sites_collinear |].
  apply (selected_names_safe_and_distinct exact_floats collinear_pool 2).
  exact select_sites_collinear.
Defined.

(** ** How a selection grows *)

Lemma normalize_from_app (i : nat) (l1 l2 : list Site) :
  normalize_from i (l1 ++ l2)
  = normalize_from i l1 ++ normalize_from (i + List.length l1) l2.
Proof.
  revert i. induction l1 as [| s l1 IH]; intros i; simpl.
  - rewrite Nat.add_0_r. reflexivity.
  - rewrite IH. do 3 f_equal. lia.
Qed.

(** When the loop asked for one site more returns, the loop returns too, and
    the former selected the same sites and one more behind them. *)
Lemma select_loop_one_more (F : FloatLib) (k : nat) :
  sound_floats F ->
  forall (fuel fuel' : nat) (n : Z) (s0 : Site)
         (selected remaining more : list Site),
    (S k <= List.length remaining)%nat ->
    (k <= fuel)%nat -> (S k <= fuel')%nat ->
    (Z.of_nat (List.length (s0 :: selected)) + Z.of_nat k = n)%Z ->
    select_loop F fuel' (n + 1) (s0 :: selected) remaining = Ok more ->
    exists final c,
      select_loop F fuel n (s0 :: selected) remaining = Ok final /\
      more = final ++ [c].
Proof.
  intros HF.
  induction k as [| k IH];
    intros fuel fuel' n s0 selected remaining more Hrem Hfuel Hfuel' Hn H.
  - destruct fuel' as [| fuel']; [lia |].
    rewrite select_loop_unfold in H.
    assert (E : (Z.of_nat (List.length (s0 :: selected)) <? n + 1)%Z = true)
      by (apply Z.ltb_lt; lia).
    rewrite E in H.
    destruct (scan_from_start F s0 selected HF remaining)
      as [[Hscan _] | [[-> _] | [before [c [after [-> [Hscan [_ [Hrm _]]]]]]]]].
    + rewrite Hscan in H. discriminate.
    + simpl in Hrem. lia.
    + rewrite Hscan in H. cbn [bind fst] in H. rewrite Hrm in H.
      cbn [bind] in H.
      rewrite select_loop_done in H
        by (rewrite length_app; cbn [List.length] in *; lia).
      injection H as <-.
      exists (s0 :: selected), c. split; [apply select_loop_done; lia |].
      reflexivity.
  - destruct fuel as [| fuel]; [lia |].
    destruct fuel' as [| fuel']; [lia |].
    rewrite select_loop_unfold in H. rewrite select_loop_unfold.
    assert (E : (Z.of_nat (List.length (s0 :: selected)) <? n)%Z = true)
      by (apply Z.ltb_lt; lia).
    assert (E' : (Z.of_nat (List.length (s0 :: selected)) <? n + 1)%Z = true)
      by (apply Z.ltb_lt; lia).
    rewrite E' in H. rewrite E.
    destruct (scan_from_start F s0 selected HF remaining)
      as [[Hscan _] | [[-> _] | [before [c [after [-> [Hscan [_ [Hrm _]]]]]]]]].
    + rewrite Hscan in H. discriminate.
    + simpl in Hrem. lia.
    + rewrite Hscan in H |- *. cbn [bind fst] in H |- *.
      rewrite Hrm in H |- *. cbn [bind] in H |- *.
      change ((s0 :: selected) ++ [c]) with (s0 :: (selected ++ [c])) in H |- *.
      apply (IH fuel fuel' n s0 (selected ++ [c]) (before ++ after) more);
        try exact H; try lia.
      * rewrite length_app in Hrem |- *. cbn [List.length] in Hrem. lia.
      * cbn [List.length] in Hn |- *. rewrite length_app. cbn [List.length].
        lia.
Qed.

(** X13: asking for one more site keeps the sites already chosen.  For a
    count between one and below the size of the pool: when the selection of
    one site more returns, the selection returns too, and the former is the
    latter, names included, with one site behind it; what the selection of
    one site more raises is the [ValueError] of a distance that cannot be
    computed; and it returns whenever every distance from a candidate to a
    site of the pool can be computed. *)
Theorem selection_grows_by_one (F : FloatLib) (first : Site)
    (rest : list Site) (n : Z) :
  sound_floats F ->
  (1 <= n < Z.of_nat (List.length (first :: rest)))%Z ->
  match select_sites F (first :: rest) (n + 1) with
  | Ok more =>
      exists sites extra,
        select_sites F (first :: rest) n = Ok sites /\
        more = sites ++ [extra]
  | Raise e => e = ValueError /\ distance_fails F rest (first :: rest)
  end /\
  (~ distance_fails F rest (first :: rest) ->
   exists sites extra,
     select_sites F (first :: rest) n = Ok sites /\
     select_sites F (first :: rest) (n + 1) = Ok (sites ++ [extra])).
Proof.
  intros HF Hn.
  assert (Hmatch :
            match select_sites F (first :: rest) (n + 1) with
            | Ok more =>
                exists sites extra,
                  select_sites F (first :: rest) n = Ok sites /\
                  more = sites ++ [extra]
            | Raise e => e = ValueError /\ distance_fails F rest (first :: rest)
            end).
  { assert (Hn1 : (1 <= n + 1 <= Z.of_nat (List.length (first :: rest)))%Z)
      by lia.
    pose proof (select_raw_greedy F first rest (n + 1) HF Hn1) as Hg.
    unfold select_sites.
    destruct (select_raw F (first :: rest) (n + 1)) as [more | e] eqn:Hraw;
      cbn [bind]; [| exact Hg].
    unfold select_raw in Hraw |- *.
    assert (E : (Z.of_nat (List.length (first :: rest)) <? n)%Z = false)
      by (apply Z.ltb_ge; lia).
    assert (E' : (Z.of_nat (List.length (first :: rest)) <? n + 1)%Z = false)
      by (apply Z.ltb_ge; lia).
    rewrite E' in Hraw. rewrite E.
    cbn [List.length] in Hn.
    apply (select_loop_one_more F (Z.to_nat (n - 1)) HF
             (List.length (first :: rest))) in Hraw;
      try (cbn [List.length]; lia).
    destruct Hraw as [final [c [H1 ->]]].
    rewrite H1. cbn [bind].
    rewrite normalize_from_app.
    destruct (normalize_from (0 + List.length final) [c]) as [| extra l] eqn:Ex;
      [discriminate |].
    destruct l; [| discriminate].
    exists (normalize_from 0 final), extra. split; reflexivity. }
  split; [exact Hmatch |].
  intros Hfine.
  destruct (select_sites F (first :: rest) (n + 1)) as [more | e].
  - destruct Hmatch as [sites [extra [H1 ->]]].
    exists sites, extra. split; [exact H1 | reflexivity].
  - destruct Hmatch as [_ Hf]. contradiction.
Qed.

(** X13 on the four collinear sites without rounding: from two sites to
    three. *)
Lemma selection_grows_by_one_witness :
  sound_floats exact_floats /\
  (1 <= 2 < Z.of_nat (List.length collinear_pool))%Z /\
  ~ distance_fails exact_floats (tl collinear_pool) collinear_pool /\
  exists sites extra,
    select_sites exact_floats collinear_pool 2 = Ok sites /\
    select_sites exact_floats collinear_pool (2 + 1) = Ok (sites ++ [extra]).
Proof.
  split; [exact exact_floats_sound |]. split; [simpl; lia |].
  split; [apply exact_never_fails |].
  apply (proj2 (selection_grows_by_one exact_floats (on_equator "p0" 0)
                  [on_equator "p1" 1; on_equator "p2" 2; on_equator "p3" 3] 2
                  exact_floats_sound ltac:(simpl; lia))).
  apply exact_never_fails.
Defined.

(** ** The separations of successive picks *)

Lemma py_min_from_app (m y : R) (l : list R) :
  py_min_from m (l ++ [y]) <= py_min_from m l.
Proof.
  revert m. induction l as [| x l IH]; intros m; simpl.
  - destruct (Rlt_dec y m); lra.
  - apply IH.
Qed.

(** One more selected site cannot increase the separation of a candidate. *)
Lemma separation_shrinks (F : FloatLib) (x s0 c : Site)
    (selected : list Site) :
  separation F x s0 (selected ++ [c]) <= separation F x s0 selected.
Proof.
  unfold separation. rewrite map_app. apply py_min_from_app.
Qed.

(** From a pool of candidates of a separation of at most [bound], the picks
    of the loop have separations, each the minimum of distances that were
    computed, that start at most at [bound] and never increase. *)
Lemma select_loop_separations (F : FloatLib) (fuel : nat) (n : Z) :
  sound_floats F ->
  forall (s0 : Site) (selected remaining final : list Site) (bound : R),
    (forall x, In x remaining -> separation F x s0 selected <= bound) ->
    select_loop F fuel n (s0 :: selected) remaining = Ok final ->
    exists picks,
      final = s0 :: selected ++ picks /\
      separations_of F (s0 :: selected) picks
        (pick_separations F s0 selected picks) /\
      nonincreasing (bound :: pick_separations F s0 selected picks).
Proof.
  intros HF.
  induction fuel as [| fuel IH];
    intros s0 selected remaining final bound Hbound H.
  - cbn [select_loop] in H.
    destruct (Z.of_nat (List.length (s0 :: selected)) <? n)%Z; [discriminate |].
    injection H as <-. exists []. rewrite app_nil_r.
    split; [reflexivity |]. split; exact I.
  - rewrite select_loop_unfold in H.
    destruct (Z.of_nat (List.length (s0 :: selected)) <? n)%Z.
    + destruct (scan_from_start F s0 selected HF remaining)
        as [[Hscan _]
           | [[-> Hscan]
             | [before [c [after [-> [Hscan [Hpick [Hrm [Hall Hmax]]]]]]]]]].
      * rewrite Hscan in H. discriminate.
      * rewrite Hscan in H. cbn [bind fst] in H. injection H as <-.
        exists []. rewrite app_nil_r. split; [reflexivity |]. split; exact I.
      * rewrite Hscan in H. cbn [bind fst] in H. rewrite Hrm in H.
        cbn [bind] in H.
        change ((s0 :: selected) ++ [c]) with (s0 :: (selected ++ [c])) in H.
        apply IH with (bound := separation F c s0 selected) in H.
        -- destruct H as [picks [-> [Hsep Hmono]]].
           exists (c :: picks). split; [rewrite <- app_assoc; reflexivity |].
           cbn [pick_separations separations_of nonincreasing].
           split; [split; [| exact Hsep] | split; [| exact Hmono]].
           ++ apply separation_min. apply Hall.
              apply in_or_app. right. left. reflexivity.
           ++ apply Hbound. apply in_or_app. right. left. reflexivity.
        -- intros x Hx.
           apply Rle_trans with (separation F x s0 selected);
             [apply separation_shrinks |].
           apply Hmax. apply in_app_or in Hx. apply in_or_app.
           destruct Hx as [Hx | Hx]; [left | right; right]; exact Hx.
    + injection H as <-. exists []. rewrite app_nil_r.
      split; [reflexivity |]. split; exact I.
Qed.

Lemma finite_bound (g : Site -> R) (l : list Site) :
  exists b, forall x, In x l -> g x <= b.
Proof.
  induction l as [| a l [b Hb]].
  - exists 0. intros x [].
  - exists (Rmax (g a) b). intros x [<- | Hx].
    + apply Rmax_l.
    + apply Rle_trans with b; [apply Hb; exact Hx | apply Rmax_r].
Qed.

Lemma nonincreasing_tail (a : R) (l : list R) :
  nonincreasing (a :: l) -> nonincreasing l.
Proof.
  destruct l as [| b l]; simpl; tauto.
Qed.

(** What [select_raw] raises: a [ValueError] when the pool is too small or
    when a distance cannot be computed, an [IndexError] on an empty pool of
    which no site is asked for. *)
Lemma selection_errors (F : FloatLib) (pool : list Site) (n : Z) :
  sound_floats F ->
  match select_raw F pool n with
  | Ok _ => True
  | Raise e =>
      (e = ValueError /\
       ((Z.of_nat (List.length pool) < n)%Z \/
        distance_fails F (tl pool) pool)) \/
      (e = IndexError /\ pool = [] /\ (n <= 0)%Z)
  end.
Proof.
  intros HF.
  destruct (Z_lt_le_dec (Z.of_nat (List.length pool)) n) as [Hlt | Hle].
  - unfold select_raw. pose proof Hlt as E. apply Z.ltb_lt in E. rewrite E.
    left. split; [reflexivity | left; exact Hlt].
  - destruct pool as [| first rest].
    + unfold select_raw.
      assert (E : (Z.of_nat (List.length (@nil Site)) <? n)%Z = false)
        by (apply Z.ltb_ge; exact Hle).
      rewrite E. right. repeat split. simpl in Hle. exact Hle.
    + destruct (Z_lt_le_dec n 1) as [Hn | Hn].
      * unfold select_raw.
        assert (E : (Z.of_nat (List.length (first :: rest)) <? n)%Z = false)
          by (apply Z.ltb_ge; exact Hle).
        rewrite E, select_loop_done by (cbn [List.length]; lia). exact I.
      * pose proof (select_raw_greedy F first rest n HF (conj Hn Hle)) as H.
        destruct (select_raw F (first :: rest) n) as [selected | e];
          [exact I |].
        destruct H as [-> Hf]. left. split; [reflexivity | right; exact Hf].
Qed.

(** The separations of the picks of the selection before it is renamed. *)
Lemma select_raw_separations (F : FloatLib) (pool selected : list Site)
    (n : Z) :
  sound_floats F ->
  select_raw F pool n = Ok selected ->
  exists first picks ds,
    selected = first :: picks /\
    separations_of F [first] picks ds /\
    nonincreasing ds.
Proof.
  intros HF E. unfold select_raw in E.
  destruct (Z.of_nat (List.length pool) <? n)%Z; [discriminate |].
  destruct pool as [| first rest]; [discriminate |].
  destruct (finite_bound (fun x => separation F x first []) rest) as [b Hb].
  apply (select_loop_separations F _ _ HF first [] rest selected b Hb) in E.
  destruct E as [picks [-> [Hsep Hmono]]].
  exists first, picks, (pick_separations F first [] picks).
  split; [reflexivity |]. split; [exact Hsep |].
  apply nonincreasing_tail with b. exact Hmono.
Qed.

Lemma normalize_from_same_place (i : nat) (selected : list Site) :
  Forall2 same_place selected (normalize_from i selected).
Proof.
  revert i. induction selected as [| s selected IH]; intros i; simpl;
    constructor; [split; reflexivity | apply IH].
Qed.

Lemma computed_distance_same_place (F : FloatLib) (a a' b b' : Site) :
  same_place a a' -> same_place b b' ->
  computed_distance F a b = computed_distance F a' b'.
Proof.
  intros [H1 H2] [H3 H4]. unfold computed_distance.
  rewrite H1, H2, H3, H4. reflexivity.
Qed.

Lemma Forall2_In_l {A B : Type} (Q : A -> B -> Prop) (l : list A)
    (l' : list B) (x : A) :
  Forall2 Q l l' -> In x l -> exists y, In y l' /\ Q x y.
Proof.
  intros H. induction H as [| a b l l' Hab _ IH]; intros Hx.
  - contradiction.
  - destruct Hx as [<- | Hx].
    + exists b. split; [left; reflexivity | exact Hab].
    + destruct (IH Hx) as [y [Hy Hq]]. exists y. split; [right |]; assumption.
Qed.

Lemma Forall2_In_r {A B : Type} (Q : A -> B -> Prop) (l : list A)
    (l' : list B) (y : B) :
  Forall2 Q l l' -> In y l' -> exists x, In x l /\ Q x y.
Proof.
  intros H. induction H as [| a b l l' Hab _ IH]; intros Hy.
  - contradiction.
  - destruct Hy as [<- | Hy].
    + exists a. split; [left; reflexivity | exact Hab].
    + destruct (IH Hy) as [x [Hx Hq]]. exists x. split; [right |]; assumption.
Qed.

(** The minimum separation depends on the coordinates only. *)
Lemma min_separation_same_place (F : FloatLib) (c c' : Site)
    (l l' : list Site) (d : R) :
  same_place c c' -> Forall2 same_place l l' ->
  min_separation F c l d -> min_separation F c' l' d.
Proof.
  intros Hc Hl [[s [Hs Hd]] Hle]. split.
  - destruct (Forall2_In_l _ _ _ s Hl Hs) as [s' [Hs' Hss]].
    exists s'. split; [exact Hs' |].
    rewrite <- (computed_distance_same_place F c c' s s' Hc Hss). exact Hd.
  - intros s' Hs'.
    destruct (Forall2_In_r _ _ _ s' Hl Hs') as [s1 [Hs1 Hss]].
    destruct (Hle s1 Hs1) as [ds [E Hds]].
    exists ds. split; [| exact Hds].
    rewrite <- (computed_distance_same_place F c c' s1 s' Hc Hss). exact E.
Qed.

Lemma separations_of_same_place (F : FloatLib) (picks picks' : list Site) :
  Forall2 same_place picks picks' ->
  forall (l l' : list Site) (ds : list R),
    Forall2 same_place l l' ->
    separations_of F l picks ds -> separations_of F l' picks' ds.
Proof.
  intros Hp. induction Hp as [| c c' picks picks' Hc _ IH];
    intros l l' ds Hl H.
  - exact H.
  - destruct ds as [| d ds]; [contradiction |].
    cbn [separations_of] in H |- *. destruct H as [Hd H]. split.
    + apply (min_separation_same_place F c c' l l' d Hc Hl Hd).
    + apply (IH (l ++ [c]) (l' ++ [c'])); [| exact H].
      apply Forall2_app; [exact Hl |].
      constructor; [exact Hc | constructor].
Qed.

(** The separations of the picks of what [select_sites] returns. *)
Lemma select_sites_separations (F : FloatLib) (pool : list Site) (n : Z) :
  sound_floats F ->
  match select_sites F pool n with
  | Ok sites =>
      exists first picks ds,
        sites = first :: picks /\
        separations_of F [first] picks ds /\
        nonincreasing ds
  | Raise e =>
      (e = ValueError /\
       ((Z.of_nat (List.length pool) < n)%Z \/
        distance_fails F (tl pool) pool)) \/
      (e = IndexError /\ pool = [] /\ (n <= 0)%Z)
  end.
Proof.
  intros HF.
  pose proof (selection_errors F pool n HF) as Herr. unfold select_sites.
  destruct (select_raw F pool n) as [selected | e] eqn:E; [| exact Herr].
  cbn [bind].
  apply (select_raw_separations F pool selected n HF) in E.
  destruct E as [first [picks [ds [-> [Hsep Hmono]]]]].
  pose proof (normalize_from_same_place 0 (first :: picks)) as Hsame.
  destruct (normalize_from 0 (first :: picks)) as [| first' picks'];
    [inversion Hsame |].
  inversion Hsame as [| a b l l' Hf Hp]; subst.
  exists first', picks', ds. split; [reflexivity |]. split; [| exact Hmono].
  apply (separations_of_same_place F picks picks' Hp [first] [first'] ds);
    [constructor; [exact Hf | constructor] | exact Hsep].
Qed.

(** Without rounding no separation exceeds half the circumference. *)
Lemma separations_of_bounded (selected picks : list Site) (ds : list R) :
  separations_of exact_floats selected picks ds ->
  Forall (fun d => d <= 6371 * PI) ds.
Proof.
  revert selected ds. induction picks as [| c picks IH]; intros selected ds H.
  - destruct ds; [constructor | contradiction].
  - destruct ds as [| d ds]; [contradiction |].
    cbn [separations_of] in H. destruct H as [[[s [_ Hd]] _] H].
    constructor; [| apply (IH _ _ H)].
    rewrite computed_distance_exact in Hd. injection Hd as <-.
    apply great_circle_range.
Qed.

Lemma nonincreasing_bounded (b : R) (ds : list R) :
  Forall (fun d => d <= b) ds -> nonincreasing ds -> nonincreasing (b :: ds).
Proof.
  intros Hb Hm. destruct ds as [| d ds]; [exact I |].
  cbn [nonincreasing]. split; [| exact Hm].
  inversion Hb; assumption.
Qed.

(** X14: the picks of a selection come closer and closer.  In what
    [select_sites] returns, the separation of a site from the sites in front
    of it, the minimum of the distances computed to them, is never larger
    than the separation the site before it had.  It raises a [ValueError]
    when the pool is too small or when a distance from a candidate to a site
    of the pool cannot be computed, and an [IndexError] on an empty pool of
    which no site is asked for.  Without rounding no distance fails, and no
    separation is larger than half the circumference. *)
Theorem separations_never_increase :
  (forall (F : FloatLib) (pool : list Site) (n : Z),
     sound_floats F ->
     match select_sites F pool n with
     | Ok sites =>
         exists first picks ds,
           sites = first :: picks /\
           separations_of F [first] picks ds /\
           nonincreasing ds
     | Raise e =>
         (e = ValueError /\
          ((Z.of_nat (List.length pool) < n)%Z \/
           distance_fails F (tl pool) pool)) \/
         (e = IndexError /\ pool = [] /\ (n <= 0)%Z)
     end) /\
  (forall (pool : list Site) (n : Z),
     match select_sites exact_floats pool n with
     | Ok sites =>
         exists first picks ds,
           sites = first :: picks /\
           separations_of exact_floats [first] picks ds /\
           nonincreasing (6371 * PI :: ds)
     | Raise e =>
         (e = ValueError /\ (Z.of_nat (List.length pool) < n)%Z) \/
         (e = IndexError /\ pool = [] /\ (n <= 0)%Z)
     end).
Proof.
  split; [exact select_sites_separations |].
  intros pool n.
  pose proof (select_sites_separations exact_floats pool n exact_floats_sound)
    as H.
  destruct (select_sites exact_floats pool n) as [sites | e].
  - destruct H as [first [picks [ds [-> [Hsep Hmono]]]]].
    exists first, picks, ds. split; [reflexivity |]. split; [exact Hsep |].
    apply nonincreasing_bounded; [| exact Hmono].
    apply (separations_of_bounded _ _ _ Hsep).
  - destruct H as [[-> [Hlt | Hf]] | H].
    + left. split; [reflexivity | exact Hlt].
    + exfalso. exact (exact_never_fails _ _ Hf).
    + right. exact H.
Qed.

(** X14 on the four collinear sites without rounding, three of which are
    asked for. *)
Lemma separations_never_increase_witness :
  sound_floats exact_floats /\
  match select_sites exact_floats collinear_pool 3%Z with
  | Ok sites =>
      exists first picks ds,
        sites = first :: picks /\
        separations_of exact_floats [first] picks ds /\
        nonincreasing ds
  | Raise e =>
      (e = ValueError /\
       ((Z.of_nat (List.length collinear_pool) < 3)%Z \/
        distance_fails exact_floats (tl collinear_pool) collinear_pool)) \/
      (e = IndexError /\ collinear_pool = [] /\ (3 <= 0)%Z)
  end.
Proof.
  split; [exact exact_floats_sound |].
  apply (proj1 separations_never_increase exact_floats collinear_pool 3%Z
           exact_floats_sound).
Defined.

(** ** The profile made of a payload *)

Lemma insert_item_Permutation (x : datetime * R) (l : list (datetime * R)) :
  Permutation (insert_item x l) (x :: l).
Proof.
  induction l as [| y l IH]; simpl; [reflexivity |].
  destruct (fst x <=? fst y)%Z; [reflexivity |].
  rewrite IH. apply perm_swap.
Qed.

Lemma sort_items_Permutation (l : list (datetime * R)) :
  Permutation (sort_items l) l.
Proof.
  induction l as [| x l IH]; simpl; [reflexivity |].
  rewrite insert_item_Permutation, IH. reflexivity.
Qed.

Lemma insert_item_Sorted (x : datetime * R) (l : list (datetime * R)) :
  Sorted Z.le (map fst l) -> Sorted Z.le (map fst (insert_item x l)).
Proof.
  induction l as [| y l IH]; simpl; intros H.
  - repeat constructor.
  - destruct (fst x <=? fst y)%Z eqn:E.
    + apply Z.leb_le in E. simpl. constructor; [exact H |].
      constructor. exact E.
    + apply Z.leb_gt in E. simpl. inversion H as [| a b Hs Hh]; subst.
      constructor; [apply IH; exact Hs |].
      destruct l as [| z l]; simpl.
      * constructor. lia.
      * destruct (fst x <=? fst z)%Z; simpl; constructor;
          [lia | inversion Hh; assumption].
Qed.

Lemma sort_items_Sorted (l : list (datetime * R)) :
  Sorted Z.le (map fst (sort_items l)).
Proof.
  induction l as [| x l IH]; simpl; [constructor |].
  apply insert_item_Sorted. exact IH.
Qed.

Lemma py_range_length (n : Z) :
  (0 <= n)%Z -> Z.of_nat (List.length (py_range n)) = n.
Proof.
  intros Hn. unfold py_range. rewrite length_map, length_seq.
  apply Z2Nat.id. exact Hn.
Qed.


(** The hours from [start] on are in ascending order. *)
Lemma hours_from_Sorted (start : Z) (n : nat) (first : nat) :
  Sorted Z.le (map (fun i => (start + i)%Z) (map Z.of_nat (seq first n))).
Proof.
  revert first. induction n as [| n IH]; intros first; simpl.
  - constructor.
  - constructor; [apply IH |].
    destruct n; simpl; constructor. lia.
Qed.

Section DownloadFacts.

Variable json : Type.
Variable strptime : string -> result datetime.
Variable py_float : json -> result R.
Variable year_start : Z -> result datetime.

(** The loop over the payload raises only what [strptime] raises on a key
    that has a value, or what [float] raises on the value of a key that was
    parsed. *)
Lemma derated_items_raises (raw : list (string * option json)) (e : exn) :
  derated_items json strptime py_float raw = Raise e ->
  exists ts value,
    In (ts, Some value) raw /\
    (strptime ts = Raise e \/
     (exists dt, strptime ts = Ok dt) /\ py_float value = Raise e).
Proof.
  induction raw as [| [ts [value |]] raw IH]; simpl; intros H.
  - discriminate.
  - apply bind_Raise_inv in H. destruct H as [H | [dt [Hdt H]]].
    + exists ts, value. split; [left; reflexivity | left; exact H].
    + apply bind_Raise_inv in H. destruct H as [H | [x [_ H]]].
      * exists ts, value. split; [left; reflexivity |].
        right. split; [exists dt; exact Hdt | exact H].
      * apply bind_Raise_inv in H. destruct H as [H | [items [_ H]]];
          [| discriminate].
        destruct (IH H) as [ts' [value' [Hin Hr]]].
        exists ts', value'. split; [right; exact Hin | exact Hr].
  - destruct (IH H) as [ts' [value' [Hin Hr]]].
    exists ts', value'. split; [right; exact Hin | exact Hr].
Qed.

(** The loop returns when every key that has a value can be parsed and every
    value converted. *)
Lemma derated_items_returns (raw : list (string * option json)) :
  (forall ts value, In (ts, Some value) raw ->
     (exists dt, strptime ts = Ok dt) /\ (exists x, py_float value = Ok x)) ->
  exists items, derated_items json strptime py_float raw = Ok items.
Proof.
  induction raw as [| [ts [value |]] raw IH]; intros H; simpl.
  - exists []. reflexivity.
  - destruct (H ts value (or_introl eq_refl)) as [[dt Hdt] [x Hx]].
    destruct IH as [items Hi].
    { intros ts' value' Hin. apply H. right. exact Hin. }
    rewrite Hdt, Hx, Hi. cbn [bind]. eexists. reflexivity.
  - apply IH. intros ts' value' Hin. apply H. right. exact Hin.
Qed.

(** An entry that cannot be parsed or converted makes the loop raise. *)
Lemma derated_items_fails (raw : list (string * option json)) (ts : string)
    (value : json) :
  In (ts, Some value) raw ->
  (exists e, strptime ts = Raise e) \/ (exists e, py_float value = Raise e) ->
  exists e, derated_items json strptime py_float raw = Raise e.
Proof.
  intros Hin Hbad.
  induction raw as [| [ts' [value' |]] raw IH]; simpl; [contradiction | |].
  - destruct (strptime ts') as [dt | e1] eqn:E1; cbn [bind];
      [| exists e1; reflexivity].
    destruct (py_float value') as [x | e2] eqn:E2; cbn [bind];
      [| exists e2; reflexivity].
    destruct Hin as [Heq | Hin].
    + injection Heq as -> ->.
      destruct Hbad as [[e He] | [e He]]; congruence.
    + destruct (IH Hin) as [e He]. rewrite He. exists e. reflexivity.
  - destruct Hin as [Heq | Hin]; [discriminate |].
    apply IH. exact Hin.
Qed.

(** The two ways [_download_hourly_power] returns. *)
Lemma download_cases (latitude longitude : R) (year : Z)
    (raw : list (string * option json)) (profile : SolarProfile) :
  _download_hourly_power json strptime py_float year_start latitude longitude
    year raw = Ok profile ->
  exists items,
    derated_items json strptime py_float raw = Ok items /\
    ((Z.of_nat (List.length items) = EXPECTED_HOURS /\
      profile
      = mkSolarProfile latitude longitude year (map fst (sort_items items))
          (map snd (sort_items items))) \/
     (Z.of_nat (List.length items) <> EXPECTED_HOURS /\
      exists start,
        year_start year = Ok start /\
        profile
        = mkSolarProfile latitude longitude year
            (map (fun i => (start + i)%Z) (py_range EXPECTED_HOURS))
            (map (fun dt => mapping_get (sort_items items) dt 0)
               (map (fun i => (start + i)%Z) (py_range EXPECTED_HOURS))))).
Proof.
  unfold _download_hourly_power.
  generalize (py_range EXPECTED_HOURS). generalize EXPECTED_HOURS.
  intros hours expected H.
  apply bind_Ok_inv in H. destruct H as [items [Hi H]].
  exists items. split; [exact Hi |].
  assert (Hlen : List.length (map fst (sort_items items)) = List.length items)
    by (rewrite length_map; apply Permutation_length, sort_items_Permutation).
  rewrite Hlen in H.
  destruct (Z.of_nat (List.length items) =? hours)%Z eqn:E.
  - left. apply Z.eqb_eq in E. split; [exact E |]. congruence.
  - right. apply Z.eqb_neq in E. split; [exact E |].
    apply bind_Ok_inv in H. destruct H as [start [Hs H]].
    exists start. split; [exact Hs |]. congruence.
Qed.

Lemma download_raises (latitude longitude : R) (year : Z)
    (raw : list (string * option json)) (e : exn) :
  _download_hourly_power json strptime py_float year_start latitude longitude
    year raw = Raise e ->
  (exists ts value,
     In (ts, Some value) raw /\
     (strptime ts = Raise e \/
      (exists dt, strptime ts = Ok dt) /\ py_float value = Raise e)) \/
  year_start year = Raise e.
Proof.
  unfold _download_hourly_power. intros H.
  apply bind_Raise_inv in H. destruct H as [H | [items [_ H]]].
  - left. apply derated_items_raises. exact H.
  - revert H. generalize (py_range EXPECTED_HOURS). generalize EXPECTED_HOURS.
    intros hours expected H.
    destruct (Z.of_nat (List.length (map fst (sort_items items))) =? hours)%Z;
      [discriminate |].
    apply bind_Raise_inv in H. destruct H as [H | [start [_ H]]];
      [right; exact H | discriminate].
Qed.

Lemma download_returns (latitude longitude : R) (year : Z)
    (raw : list (string * option json)) (start : datetime) :
  (forall ts value, In (ts, Some value) raw ->
     (exists dt, strptime ts = Ok dt) /\ (exists x, py_float value = Ok x)) ->
  year_start year = Ok start ->
  exists profile,
    _download_hourly_power json strptime py_float year_start latitude
      longitude year raw = Ok profile.
Proof.
  intros Hraw Hstart.
  destruct (derated_items_returns raw Hraw) as [items Hi].
  unfold _download_hourly_power. rewrite Hi, Hstart. cbn [bind].
  generalize (py_range EXPECTED_HOURS). generalize EXPECTED_HOURS.
  intros hours expected.
  destruct (Z.of_nat (List.length (map fst (sort_items items))) =? hours)%Z;
    eexists; reflexivity.
Qed.

Lemma download_fails (latitude longitude : R) (year : Z)
    (raw : list (string * option json)) (ts : string) (value : json) :
  In (ts, Some value) raw ->
  (exists e, strptime ts = Raise e) \/ (exists e, py_float value = Raise e) ->
  exists e,
    _download_hourly_power json strptime py_float year_start latitude
      longitude year raw = Raise e.
Proof.
  intros Hin Hbad.
  destruct (derated_items_fails raw ts value Hin Hbad) as [e He].
  exists e. unfold _download_hourly_power. rewrite He. reflexivity.
Qed.

(** X15: a profile made of a payload always has 8760 datetimes and 8760
    yields, in ascending order of the datetimes, whatever the payload holds
    and whatever the year is, a leap year included.  Nothing is raised but
    what the parsing of a key that has a value raises, what [float] raises on
    the value of a key that was parsed, a string or a huge integer for
    instance, or what the first day of the year raises.  A key with a value
    that cannot be parsed, or a value that cannot be converted, does make the
    download raise; and when every key that has a value can be parsed, every
    value converted and the first day of the year made, the download
    returns. *)
Theorem download_gives_8760_hours (latitude longitude : R) (year : Z)
    (raw : list (string * option json)) :
  match
    _download_hourly_power json strptime py_float year_start latitude
      longitude year raw
  with
  | Ok profile =>
      Z.of_nat (List.length (datetimes profile)) = 8760%Z /\
      Z.of_nat (List.length (pv_kwh_per_kw profile)) = 8760%Z /\
      Sorted Z.le (datetimes profile)
  | Raise e =>
      (exists ts value,
         In (ts, Some value) raw /\
         (strptime ts = Raise e \/
          (exists dt, strptime ts = Ok dt) /\ py_float value = Raise e)) \/
      year_start year = Raise e
  end /\
  (forall ts value,
     In (ts, Some value) raw ->
     (exists e, strptime ts = Raise e) \/ (exists e, py_float value = Raise e) ->
     exists e,
       _download_hourly_power json strptime py_float year_start latitude
         longitude year raw = Raise e) /\
  (forall start,
     (forall ts value, In (ts, Some value) raw ->
        (exists dt, strptime ts = Ok dt) /\ (exists x, py_float value = Ok x)) ->
     year_start year = Ok start ->
     exists profile,
       _download_hourly_power json strptime py_float year_start latitude
         longitude year raw = Ok profile).
Proof.
  split; [| split].
  - destruct (_download_hourly_power json strptime py_float year_start latitude
                longitude year raw) as [profile | e] eqn:E.
    + apply download_cases in E.
      destruct E as [items [_ [[Hlen ->] | [_ [start [_ ->]]]]]];
        cbn [datetimes pv_kwh_per_kw].
      * rewrite !length_map.
        rewrite (Permutation_length (sort_items_Permutation items)).
        repeat split; try exact Hlen. apply sort_items_Sorted.
      * rewrite !length_map. fold (py_range EXPECTED_HOURS).
        rewrite py_range_length by (unfold EXPECTED_HOURS; lia).
        repeat split. apply hours_from_Sorted.
    + apply download_raises in E. exact E.
  - intros ts value. apply download_fails.
  - intros start Hraw Hstart. apply (download_returns _ _ _ _ start Hraw Hstart).
Qed.

End DownloadFacts.

(** X15 on a payload of a single valued hour whose values are numbers. *)
Lemma download_gives_8760_hours_witness :
  let strptime := fun _ : string => Ok 5%Z in
  let py_float := fun x : R => Ok x in
  let year_start := fun _ : Z => Ok 0%Z in
  let raw := [("2021010105"%string, Some 1)] in
  (forall ts value, In (ts, Some value) raw ->
     (exists dt, strptime ts = Ok dt) /\ (exists x, py_float value = Ok x)) /\
  year_start 2021%Z = Ok 0%Z /\
  exists profile,
    _download_hourly_power R strptime py_float year_start 0 0 2021 raw
    = Ok profile.
Proof.
  cbv zeta.
  assert (H : forall (ts : string) (value : R),
            In (ts, Some value) [("2021010105"%string, Some 1)] ->
            (exists dt, (fun _ : string => Ok 5%Z) ts = Ok dt) /\
            (exists x, (fun x : R => Ok x) value = Ok x)).
  { intros ts value _. split; eexists; reflexivity. }
  split; [exact H |]. split; [reflexivity |].
  apply (proj2 (proj2 (download_gives_8760_hours R (fun _ : string => Ok 5%Z)
                         (fun x : R => Ok x) (fun _ : Z => Ok 0%Z) 0 0 2021%Z
                         [("2021010105"%string, Some 1)])) 0%Z H eq_refl).
Defined.






